(** * AtlasEngine: the per-frame pipeline of the glyph-atlas renderer

    A shallow embedding of [src/renderer/atlas/AtlasEngine.r.cpp]: the
    render-thread half of the engine ([Present] and the private helpers it
    drives).  Machine integers are [Z] with their wrap-around written out,
    [float] is IEEE-754 binary32 (the standard library's [SpecFloat] at
    precision 24), and the GPU / Direct2D calls are events of a trace.  The
    [HRESULT] of every call guarded by [THROW_IF_FAILED] is read from a
    script carried by the world, so that a failure can be injected at any
    call. *)

From Stdlib Require Import ZArith List Bool Lia.
From Stdlib Require Import Floats.SpecFloat.
Import ListNotations.
Local Open Scope Z_scope.

(** ** Machine integers *)

(** The largest [u16]; the sizes, positions and limits of the engine are
    pairs of [u16]. *)
Definition u16_max : Z := 65535.

(** [u32] arithmetic: unsigned, modulo 2^32. *)
Module U32.
Definition modulus : Z := 2 ^ 32.
Definition wrap (z : Z) : Z := z mod modulus.
Definition add (a b : Z) : Z := wrap (a + b).
Definition sub (a b : Z) : Z := wrap (a - b).
Definition mul (a b : Z) : Z := wrap (a * b).
(** [a / b] for [b <> 0]; the caller handles [b = 0]. *)
Definition div (a b : Z) : Z := a / b.
End U32.

(** [gsl::narrow_cast<u16>]: keeps the low 16 bits. *)
Definition narrow_cast_u16 (z : Z) : Z := z mod 2 ^ 16.

(** A [u32] stored in an [INT] (the fields of [WICRect]): from [2 ^ 31] on
    the value comes out negative. *)
Definition to_INT (z : Z) : Z := if z <? 2 ^ 31 then z else z - 2 ^ 32.

(** [_BitScanReverse(&index, mask)]: the position of the highest set bit.
    When [mask] is zero the intrinsic leaves [index] unwritten. *)
Definition _BitScanReverse (mask : Z) : option Z :=
  if 0 <? mask then Some (Z.log2 mask) else None.

(** [u32{ 1 } << n]: shifting by the width of the type or more is undefined. *)
Definition shl1_u32 (n : Z) : option Z :=
  if n <? 32 then Some (Z.shiftl 1 n) else None.

Record u16x2 := mk_u16x2 { x : Z; y : Z }.

Definition u16x2_eqb (a b : u16x2) : bool := (x a =? x b) && (y a =? y b).
Definition u16x2_zero : u16x2 := mk_u16x2 0 0.

(** ** binary32 arithmetic *)

Definition float : Type := spec_float.

Module F32.
Definition prec : Z := 24.
Definition emax : Z := 128.
(** [static_cast<float>(n)] for an integer [n], round to nearest even. *)
Definition of_Z (n : Z) : float := binary_normalize prec emax n 0 false.
Definition sub : float -> float -> float := SFsub prec emax.
Definition mul : float -> float -> float := SFmul prec emax.
Definition div : float -> float -> float := SFdiv prec emax.
Definition ltb : float -> float -> bool := SFltb.
(** [std::max(a, b)] is [(a < b) ? b : a]. *)
Definition max (a b : float) : float := if ltb a b then b else a.
End F32.

Record f32x2 := mk_f32x2 { fx : float; fy : float }.

Record D2D1_RECT_F := mk_rect { left : float; top : float; right : float; bottom : float }.

(** ** The atlas size computation of [_adjustAtlasSize]

    The arithmetic between the early return and the texture creation, with
    one field per local of the source.  [None] stands for undefined
    behaviour: an unwritten [index], a shift by 32, a division by zero. *)

Record AtlasGrowth := mk_growth {
  perCellArea : Z;
  currentArea : Z;
  minArea : Z;
  newArea : Z;
  pixelPerRow : Z;
  wantedHeight : Z;
  wantedWidth : Z;
  height : Z;
  width : Z
}.

Definition atlasGrowth (limit pos cell : u16x2) : option AtlasGrowth :=
  let limitX := x limit in
  let limitY := y limit in
  let posX := x pos in
  let posY := y pos in
  let cellX := x cell in
  let cellY := y cell in
  let perCellArea := U32.mul cellX cellY in
  let currentArea := U32.add (U32.mul posY limitX) (U32.mul posX cellY) in
  let minArea := U32.mul 64 perCellArea in
  let newArea0 := Z.max minArea currentArea in
  match _BitScanReverse newArea0 with
  | None => None
  | Some index =>
    match shl1_u32 (index + 1) with
    | None => None
    | Some newArea =>
      let pixelPerRow := U32.mul limitX cellY in
      if pixelPerRow =? 0 then None else
      let wantedHeight :=
        U32.mul (U32.div (U32.sub (U32.add newArea pixelPerRow) 1) pixelPerRow) cellY in
      let wantedWidth :=
        if negb (wantedHeight =? cellY) then Some limitX
        else if perCellArea =? 0 then None
        else Some (U32.mul (U32.div newArea perCellArea) cellX) in
      match wantedWidth with
      | None => None
      | Some wantedWidth =>
        let height := narrow_cast_u16 (Z.min limitY wantedHeight) in
        let width := narrow_cast_u16 (Z.min limitX wantedWidth) in
        Some (mk_growth perCellArea currentArea minArea newArea pixelPerRow
                        wantedHeight wantedWidth height width)
      end
    end
  end.

(** ** Platform types *)

Definition HRESULT : Type := Z.
Definition S_OK : HRESULT := 0.
(** The [FAILED] macro: an [HRESULT] is a failure when it is negative. *)
Definition FAILED (hr : HRESULT) : bool := hr <? 0.

Inductive D2D1_TEXT_ANTIALIAS_MODE :=
| D2D1_TEXT_ANTIALIAS_MODE_DEFAULT
| D2D1_TEXT_ANTIALIAS_MODE_CLEARTYPE
| D2D1_TEXT_ANTIALIAS_MODE_GRAYSCALE
| D2D1_TEXT_ANTIALIAS_MODE_ALIASED.

Definition aa_eqb (a b : D2D1_TEXT_ANTIALIAS_MODE) : bool :=
  match a, b with
  | D2D1_TEXT_ANTIALIAS_MODE_DEFAULT, D2D1_TEXT_ANTIALIAS_MODE_DEFAULT
  | D2D1_TEXT_ANTIALIAS_MODE_CLEARTYPE, D2D1_TEXT_ANTIALIAS_MODE_CLEARTYPE
  | D2D1_TEXT_ANTIALIAS_MODE_GRAYSCALE, D2D1_TEXT_ANTIALIAS_MODE_GRAYSCALE
  | D2D1_TEXT_ANTIALIAS_MODE_ALIASED, D2D1_TEXT_ANTIALIAS_MODE_ALIASED => true
  | _, _ => false
  end.

(** [D2D1_DRAW_TEXT_OPTIONS]: a bitset of which only two values are used. *)
Definition D2D1_DRAW_TEXT_OPTIONS_NONE : Z := 0.
Definition D2D1_DRAW_TEXT_OPTIONS_ENABLE_COLOR_FONT : Z := 4.

(** [D3D11_COPY_FLAGS]. *)
Definition D3D11_COPY_NO_OVERWRITE : Z := 1.

Definition USER_DEFAULT_SCREEN_DPI : Z := 96.

(** The cursor styles the [switch] of [_drawCursor] names; [FullBox]
    stands for any other value, which takes the [default] branch. *)
Inductive CursorType :=
| Legacy
| VerticalBar
| Underscore
| EmptyBox
| FullBox
| DoubleUnderscore.

Definition CursorType_eqb (a b : CursorType) : bool :=
  match a, b with
  | Legacy, Legacy | VerticalBar, VerticalBar | Underscore, Underscore
  | EmptyBox, EmptyBox | FullBox, FullBox | DoubleUnderscore, DoubleUnderscore => true
  | _, _ => false
  end.

Record D3D11_BOX := mk_box { box_left : Z; box_top : Z; box_right : Z; box_bottom : Z }.

(** ** Engine state *)

(** [RenderInvalidations] is a bitset; each named bit is a field. *)
Record RenderInvalidations := mk_inval { Cursor : bool; ConstBuffer : bool }.

Record CursorOptions := mk_cursorOptions { cursorType : CursorType; heightPercentage : Z }.

(** The key and the value of a queued glyph, as far as [_drawGlyph] reads
    them: [CellFlags::ColoredGlyph] is the only flag it tests. *)
Record AtlasKey := mk_key {
  chars : list Z;
  charCount : Z;
  cellCount : Z;
  bold : bool;
  italic : bool
}.

Record AtlasValue := mk_value { coords : list u16x2; ColoredGlyph : bool }.

Record AtlasQueueItem := mk_item { key : AtlasKey; value : AtlasValue }.

(** The state an [ID2D1RenderTarget] carries between calls. *)
Record RenderTarget := mk_target { textAntialiasMode : D2D1_TEXT_ANTIALIAS_MODE }.

(** The members of [_r] the pipeline reads or writes, and the one member of
    [_api] it reads.  A com pointer is an [option]: [None] is null. *)
Record Resources := mk_r {
  realizedAntialiasingMode : D2D1_TEXT_ANTIALIAS_MODE;
  atlasSizeInPixelLimit : u16x2;
  atlasSizeInPixel : u16x2;
  atlasPosition : u16x2;
  cellSize : u16x2;
  cellSizeDIP : f32x2;
  dpi : Z;
  scratchpadCellWidth : Z;
  maxEncounteredCellCount : Z;
  atlasScratchpad : option (Z * Z);
  d2dRenderTarget : option RenderTarget;
  typography : bool;
  invalidations : RenderInvalidations;
  cursorOptions : CursorOptions;
  glyphQueue : list AtlasQueueItem
}.

Definition set_atlasSizeInPixel (v : u16x2) (r : Resources) : Resources :=
  mk_r (realizedAntialiasingMode r) (atlasSizeInPixelLimit r) v (atlasPosition r)
       (cellSize r) (cellSizeDIP r) (dpi r) (scratchpadCellWidth r)
       (maxEncounteredCellCount r) (atlasScratchpad r) (d2dRenderTarget r)
       (typography r) (invalidations r) (cursorOptions r) (glyphQueue r).

Definition set_scratchpadCellWidth (v : Z) (r : Resources) : Resources :=
  mk_r (realizedAntialiasingMode r) (atlasSizeInPixelLimit r) (atlasSizeInPixel r)
       (atlasPosition r) (cellSize r) (cellSizeDIP r) (dpi r) v
       (maxEncounteredCellCount r) (atlasScratchpad r) (d2dRenderTarget r)
       (typography r) (invalidations r) (cursorOptions r) (glyphQueue r).

Definition set_atlasScratchpad (v : option (Z * Z)) (r : Resources) : Resources :=
  mk_r (realizedAntialiasingMode r) (atlasSizeInPixelLimit r) (atlasSizeInPixel r)
       (atlasPosition r) (cellSize r) (cellSizeDIP r) (dpi r) (scratchpadCellWidth r)
       (maxEncounteredCellCount r) v (d2dRenderTarget r)
       (typography r) (invalidations r) (cursorOptions r) (glyphQueue r).

Definition set_d2dRenderTarget (v : option RenderTarget) (r : Resources) : Resources :=
  mk_r (realizedAntialiasingMode r) (atlasSizeInPixelLimit r) (atlasSizeInPixel r)
       (atlasPosition r) (cellSize r) (cellSizeDIP r) (dpi r) (scratchpadCellWidth r)
       (maxEncounteredCellCount r) (atlasScratchpad r) v
       (typography r) (invalidations r) (cursorOptions r) (glyphQueue r).

Definition set_invalidations (v : RenderInvalidations) (r : Resources) : Resources :=
  mk_r (realizedAntialiasingMode r) (atlasSizeInPixelLimit r) (atlasSizeInPixel r)
       (atlasPosition r) (cellSize r) (cellSizeDIP r) (dpi r) (scratchpadCellWidth r)
       (maxEncounteredCellCount r) (atlasScratchpad r) (d2dRenderTarget r)
       (typography r) v (cursorOptions r) (glyphQueue r).

Definition set_glyphQueue (v : list AtlasQueueItem) (r : Resources) : Resources :=
  mk_r (realizedAntialiasingMode r) (atlasSizeInPixelLimit r) (atlasSizeInPixel r)
       (atlasPosition r) (cellSize r) (cellSizeDIP r) (dpi r) (scratchpadCellWidth r)
       (maxEncounteredCellCount r) (atlasScratchpad r) (d2dRenderTarget r)
       (typography r) (invalidations r) (cursorOptions r) v.

(** ** The trace *)

Inductive Resource := NewAtlasBuffer | AtlasBuffer | Scratchpad.

(** The calls whose [HRESULT] is checked with [THROW_IF_FAILED]. *)
Inductive GpuCall :=
| CreateTexture2D (Width Height : Z)
| CreateShaderResourceView
| CreateBitmap (Width Height : Z)
| CreateWicBitmapRenderTarget
| CreateDxgiSurfaceRenderTarget
| CreateSolidColorBrush
| CreateTextLayout (text : list Z) (length : Z) (bold italic : bool) (maxWidth maxHeight : float)
| EndDraw
| Lock (X Y Width Height : Z)
| GetStride
| GetDataPointer
| ConstantBuffer_Map
| CellBuffer_Map
| CommandAllocator_Reset
| CommandList_Reset
| CommandList_Close
| SwapChain_Present (SyncInterval Flags : Z).

Inductive Event :=
| Call (c : GpuCall) (hr : HRESULT)
| CopySubresourceRegion1 (dst : Resource) (DstX DstY : Z) (src : Resource)
                         (box : D3D11_BOX) (CopyFlags : Z)
| UpdateSubresource1 (dst : Resource) (box : D3D11_BOX) (CopyFlags : Z)
| SetTextAntialiasMode (mode : D2D1_TEXT_ANTIALIAS_MODE)
| SetTypography
| BeginDraw
| Clear
| DrawTextLayout (target : RenderTarget) (options : Z)
| FillRectangle (rect : D2D1_RECT_F)
| DrawRectangle (rect : D2D1_RECT_F) (strokeWidth : float)
| ConstantBuffer_memcpy (useClearType : bool)
| CellBuffer_memcpy
| Draw (VertexCount StartVertexLocation : Z)
| DrawInstanced (VertexCountPerInstance InstanceCount
                 StartVertexLocation StartInstanceLocation : Z).

(** ** The monad of the render thread

    A computation runs on a world (the engine state and the results the
    GPU will give to the calls still to come) and yields an outcome, the
    new world and the events it issued.  A C++ exception does not roll the
    state back, so the world is returned in every outcome. *)

Record World := mk_world { r_ : Resources; gpu : list HRESULT }.

Inductive Outcome (A : Type) :=
| Done (a : A)
| Thrown (hr : HRESULT)
| Terminated
| Undefined.
Arguments Done {A} a.
Arguments Thrown {A} hr.
Arguments Terminated {A}.
Arguments Undefined {A}.

Record Res (A : Type) := mk_res { outcome : Outcome A; world : World; events : list Event }.
Arguments mk_res {A} _ _ _.
Arguments outcome {A} _.
Arguments world {A} _.
Arguments events {A} _.

Definition M (A : Type) : Type := World -> Res A.

Definition ret {A} (a : A) : M A := fun w => mk_res (Done a) w [].

Definition bind {A B} (m : M A) (k : A -> M B) : M B :=
  fun w =>
    match m w with
    | mk_res (Done a) w1 e1 =>
      match k a w1 with
      | mk_res o w2 e2 => mk_res o w2 (e1 ++ e2)
      end
    | mk_res (Thrown hr) w1 e1 => mk_res (Thrown hr) w1 e1
    | mk_res Terminated w1 e1 => mk_res Terminated w1 e1
    | mk_res Undefined w1 e1 => mk_res Undefined w1 e1
    end.

Declare Scope atlas_scope.
Delimit Scope atlas_scope with atlas.
Notation "x <- m ;; k" := (bind m (fun x => k))
  (at level 100, m at next level, right associativity) : atlas_scope.
Notation "m ;; k" := (bind m (fun _ => k))
  (at level 100, right associativity) : atlas_scope.
Local Open Scope atlas_scope.

Definition get : M Resources := fun w => mk_res (Done (r_ w)) w [].
Definition modify (f : Resources -> Resources) : M unit :=
  fun w => mk_res (Done tt) (mk_world (f (r_ w)) (gpu w)) [].
Definition emit (e : Event) : M unit := fun w => mk_res (Done tt) w [e].
Definition undefined {A} : M A := fun w => mk_res Undefined w [].

(** [THROW_IF_FAILED(call)]: the call is made, its result is the next one
    of the script ([S_OK] once the script is exhausted), and a failure is
    thrown as a [wil::ResultException] carrying it. *)
Definition THROW_IF_FAILED (c : GpuCall) : M unit :=
  fun w =>
    let hr := hd S_OK (gpu w) in
    let w' := mk_world (r_ w) (tl (gpu w)) in
    if FAILED hr then mk_res (Thrown hr) w' [Call c hr]
    else mk_res (Done tt) w' [Call c hr].

(** A function declared [noexcept]: an exception that would leave it calls
    [std::terminate]. *)
Definition noexcept {A} (m : M A) : M A :=
  fun w =>
    match m w with
    | mk_res (Thrown _) w1 e1 => mk_res Terminated w1 e1
    | r1 => r1
    end.

Definition when (b : bool) (m : M unit) : M unit := if b then m else ret tt.

Fixpoint for_each {A} (l : list A) (body : A -> M unit) : M unit :=
  match l with
  | [] => ret tt
  | a :: l' => body a ;; for_each l' body
  end.

(** ** What [AtlasEngine.h] declares

    The header is not part of the sources at hand; the three declarations
    the pipeline depends on are taken as parameters: the compile-time switch
    between the WIC bitmap scratchpad and the GPU surface scratchpad, the
    default argument of [_copyScratchpadTile]'s [copyFlags], and
    [_handleException], which maps a caught error to the [HRESULT] that
    [Present] returns. *)

Record Header := mk_header {
  ATLAS_D2D_SOFTWARE_RENDERING : bool;
  copyFlags_default : Z;
  _handleException : HRESULT -> HRESULT
}.

(** ** Calls on the Direct2D render target

    Every call goes through [_r.d2dRenderTarget]; through a null pointer it
    is undefined. *)

Definition with_target {A} (k : RenderTarget -> M A) : M A :=
  r <- get ;;
  match d2dRenderTarget r with
  | None => undefined
  | Some t => k t
  end.

Definition d2d_SetTextAntialiasMode (mode : D2D1_TEXT_ANTIALIAS_MODE) : M unit :=
  with_target (fun _ =>
    modify (set_d2dRenderTarget (Some (mk_target mode))) ;;
    emit (SetTextAntialiasMode mode)).

Definition d2d_BeginDraw : M unit := with_target (fun _ => emit BeginDraw).
Definition d2d_Clear : M unit := with_target (fun _ => emit Clear).
Definition d2d_DrawTextLayout (options : Z) : M unit :=
  with_target (fun t => emit (DrawTextLayout t options)).
Definition d2d_FillRectangle (rect : D2D1_RECT_F) : M unit :=
  with_target (fun _ => emit (FillRectangle rect)).
Definition d2d_DrawRectangle (rect : D2D1_RECT_F) (strokeWidth : float) : M unit :=
  with_target (fun _ => emit (DrawRectangle rect strokeWidth)).
Definition d2d_EndDraw : M unit := with_target (fun _ => THROW_IF_FAILED EndDraw).

Definition WI_SetFlagIf_Cursor (cond : bool) (i : RenderInvalidations) : RenderInvalidations :=
  if cond then mk_inval true (ConstBuffer i) else i.
Definition WI_ClearFlag_Cursor (i : RenderInvalidations) : RenderInvalidations :=
  mk_inval false (ConstBuffer i).
Definition WI_SetAllFlags_ConstBuffer (i : RenderInvalidations) : RenderInvalidations :=
  mk_inval (Cursor i) true.
Definition WI_ClearFlag_ConstBuffer (i : RenderInvalidations) : RenderInvalidations :=
  mk_inval (Cursor i) false.

Definition update_invalidations (f : RenderInvalidations -> RenderInvalidations) : M unit :=
  modify (fun r => set_invalidations (f (invalidations r)) r).

Section AtlasEngine.

Variable h : Header.

Definition _setShaderResources : M unit := ret tt.

Definition _updateConstantBuffer : M unit :=
  noexcept (
    r <- get ;;
    let useClearType :=
      aa_eqb (realizedAntialiasingMode r) D2D1_TEXT_ANTIALIAS_MODE_CLEARTYPE in
    THROW_IF_FAILED ConstantBuffer_Map ;;
    emit (ConstantBuffer_memcpy useClearType)).

(** The two [assert]s on the new size are compiled out of a release
    build. *)
Definition _adjustAtlasSize : M unit :=
  r <- get ;;
  if (y (atlasPosition r) <? y (atlasSizeInPixel r))
     && (x (atlasPosition r) <? x (atlasSizeInPixel r))
  then ret tt
  else
    match atlasGrowth (atlasSizeInPixelLimit r) (atlasPosition r) (cellSize r) with
    | None => undefined
    | Some g =>
      THROW_IF_FAILED (CreateTexture2D (width g) (height g)) ;;
      THROW_IF_FAILED CreateShaderResourceView ;;
      let copyFromExisting := negb (u16x2_eqb (atlasSizeInPixel r) u16x2_zero) in
      when copyFromExisting
        (emit (CopySubresourceRegion1 NewAtlasBuffer 0 0 AtlasBuffer
                 (mk_box 0 0 (x (atlasSizeInPixel r)) (y (atlasSizeInPixel r)))
                 D3D11_COPY_NO_OVERWRITE)) ;;
      modify (set_atlasSizeInPixel (mk_u16x2 (width g) (height g))) ;;
      _setShaderResources ;;
      update_invalidations (WI_SetFlagIf_Cursor (negb copyFromExisting))
    end.

Definition _reserveScratchpadSize (minWidth : Z) : M unit :=
  r <- get ;;
  if minWidth <=? scratchpadCellWidth r then ret tt
  else
    let newWidth :=
      Z.max (Z.max 2 minWidth)
            (scratchpadCellWidth r + Z.shiftr (scratchpadCellWidth r) 1) in
    modify (set_d2dRenderTarget None) ;;
    modify (set_atlasScratchpad None) ;;
    (if ATLAS_D2D_SOFTWARE_RENDERING h then
       let w := U32.mul (x (cellSize r)) newWidth in
       THROW_IF_FAILED (CreateBitmap w (y (cellSize r))) ;;
       modify (set_atlasScratchpad (Some (w, y (cellSize r)))) ;;
       THROW_IF_FAILED CreateWicBitmapRenderTarget ;;
       modify (set_d2dRenderTarget (Some (mk_target D2D1_TEXT_ANTIALIAS_MODE_DEFAULT)))
     else
       (* [_r.atlasScratchpad.query<IDXGISurface>()] comes first *)
       (r' <- get ;;
        match atlasScratchpad r' with
        | None => undefined
        | Some _ => ret tt
        end) ;;
       let w := U32.mul (x (cellSize r)) newWidth in
       THROW_IF_FAILED (CreateTexture2D w (y (cellSize r))) ;;
       modify (set_atlasScratchpad (Some (w, y (cellSize r)))) ;;
       THROW_IF_FAILED CreateDxgiSurfaceRenderTarget ;;
       modify (set_d2dRenderTarget (Some (mk_target D2D1_TEXT_ANTIALIAS_MODE_DEFAULT)))) ;;
    d2d_SetTextAntialiasMode (realizedAntialiasingMode r) ;;
    with_target (fun _ => THROW_IF_FAILED CreateSolidColorBrush) ;;
    modify (fun r' => set_scratchpadCellWidth (maxEncounteredCellCount r') r') ;;
    update_invalidations WI_SetAllFlags_ConstBuffer.

Definition _copyScratchpadTile (scratchpadIndex : Z) (target : u16x2) (copyFlags : Z) : M unit :=
  r <- get ;;
  if ATLAS_D2D_SOFTWARE_RENDERING h then
    let box := mk_box (x target) (y target)
                      (x target + x (cellSize r)) (y target + y (cellSize r)) in
    match atlasScratchpad r with
    | None => undefined
    | Some _ =>
      THROW_IF_FAILED (Lock (to_INT (U32.mul scratchpadIndex (x (cellSize r)))) 0
                            (x (cellSize r)) (y (cellSize r))) ;;
      THROW_IF_FAILED GetStride ;;
      THROW_IF_FAILED GetDataPointer ;;
      emit (UpdateSubresource1 AtlasBuffer box copyFlags)
    end
  else
    let box_left := U32.mul scratchpadIndex (x (cellSize r)) in
    let box := mk_box box_left 0 (U32.add box_left (x (cellSize r))) (y (cellSize r)) in
    emit (CopySubresourceRegion1 AtlasBuffer (x target) (y target) Scratchpad box copyFlags).

(** The scope guard that logs the duration of the call to a file is a
    debugging aid and is left out. *)
Definition _drawGlyph (item : AtlasQueueItem) : M unit :=
  r <- get ;;
  let coords := coords (value item) in
  let charsLength := charCount (key item) in
  let cells := cellCount (key item) in
  let coloredGlyph := ColoredGlyph (value item) in
  THROW_IF_FAILED
    (CreateTextLayout (chars (key item)) charsLength (bold (key item)) (italic (key item))
                      (F32.mul (F32.of_Z cells) (fx (cellSizeDIP r))) (fy (cellSizeDIP r))) ;;
  when (typography r) (emit SetTypography) ;;
  let options :=
    if coloredGlyph
    then Z.lor D2D1_DRAW_TEXT_OPTIONS_NONE D2D1_DRAW_TEXT_OPTIONS_ENABLE_COLOR_FONT
    else D2D1_DRAW_TEXT_OPTIONS_NONE in
  when (aa_eqb (realizedAntialiasingMode r) D2D1_TEXT_ANTIALIAS_MODE_CLEARTYPE)
    (d2d_SetTextAntialiasMode
       (if coloredGlyph then D2D1_TEXT_ANTIALIAS_MODE_GRAYSCALE
        else D2D1_TEXT_ANTIALIAS_MODE_CLEARTYPE)) ;;
  d2d_BeginDraw ;;
  d2d_Clear ;;
  d2d_DrawTextLayout options ;;
  d2d_EndDraw ;;
  for_each (seq 0 (Z.to_nat cells))
    (fun i =>
       match nth_error coords i with
       | None => undefined
       | Some c => _copyScratchpadTile (Z.of_nat i) c 0
       end).

Definition _processGlyphQueue : M unit :=
  r <- get ;;
  match glyphQueue r with
  | [] => ret tt
  | queue =>
    for_each queue _drawGlyph ;;
    modify (set_glyphQueue [])
  end.

(** The line width of the cursor, in DIPs. *)
Definition lineWidth (dpi : Z) : float :=
  F32.max (F32.of_Z 1)
    (F32.div
       (F32.of_Z ((dpi + USER_DEFAULT_SCREEN_DPI / 2) / USER_DEFAULT_SCREEN_DPI
                  * USER_DEFAULT_SCREEN_DPI))
       (F32.of_Z dpi)).

(** The rectangle after the [switch] on the cursor type. *)
Definition cursorRect (r : Resources) : D2D1_RECT_F :=
  let lineWidth := lineWidth (dpi r) in
  let rect := mk_rect (F32.of_Z 0) (F32.of_Z 0) (fx (cellSizeDIP r)) (fy (cellSizeDIP r)) in
  match cursorType (cursorOptions r) with
  | Legacy =>
    mk_rect (left rect)
            (F32.div (F32.mul (fy (cellSizeDIP r))
                              (F32.of_Z (100 - heightPercentage (cursorOptions r))))
                     (F32.of_Z 100))
            (right rect) (bottom rect)
  | VerticalBar => mk_rect (left rect) (top rect) lineWidth (bottom rect)
  | EmptyBox =>
    let halfWidth := F32.div lineWidth (F32.of_Z 2) in
    mk_rect halfWidth halfWidth
            (F32.sub (right rect) halfWidth) (F32.sub (bottom rect) halfWidth)
  | Underscore | DoubleUnderscore =>
    mk_rect (left rect) (F32.sub (fy (cellSizeDIP r)) lineWidth) (right rect) (bottom rect)
  | FullBox => rect
  end.

Definition _drawCursor : M unit :=
  _reserveScratchpadSize 1 ;;
  r <- get ;;
  let lineWidth := lineWidth (dpi r) in
  let cursorType := cursorType (cursorOptions r) in
  let rect := cursorRect r in
  d2d_BeginDraw ;;
  d2d_Clear ;;
  (if CursorType_eqb cursorType EmptyBox
   then d2d_DrawRectangle rect lineWidth
   else d2d_FillRectangle rect) ;;
  when (CursorType_eqb cursorType DoubleUnderscore)
    (d2d_FillRectangle
       (mk_rect (left rect) (F32.sub (top rect) (F32.of_Z 2))
                (right rect) (F32.sub (bottom rect) (F32.of_Z 2)))) ;;
  d2d_EndDraw ;;
  _copyScratchpadTile 0 u16x2_zero (copyFlags_default h).

(** The body of [Present]'s function-try-block.  The calls that bind
    shaders, buffers, views and barriers return nothing and change nothing
    the engine reads back; they are not traced.  The [assert] on the frame
    latency wait is compiled out of a release build. *)
Definition Present_try : M unit :=
  _adjustAtlasSize ;;
  r <- get ;;
  _reserveScratchpadSize (maxEncounteredCellCount r) ;;
  _processGlyphQueue ;;
  r <- get ;;
  when (Cursor (invalidations r))
    (_drawCursor ;; update_invalidations WI_ClearFlag_Cursor) ;;
  r <- get ;;
  when (ConstBuffer (invalidations r))
    (_updateConstantBuffer ;; update_invalidations WI_ClearFlag_ConstBuffer) ;;
  THROW_IF_FAILED CellBuffer_Map ;;
  emit CellBuffer_memcpy ;;
  emit (Draw 3 0) ;;
  THROW_IF_FAILED CommandAllocator_Reset ;;
  THROW_IF_FAILED CommandList_Reset ;;
  emit (DrawInstanced 3 1 0 0) ;;
  THROW_IF_FAILED CommandList_Close ;;
  THROW_IF_FAILED (SwapChain_Present 1 0).

(** [Present]: the handlers turn an exception into the returned [HRESULT]. *)
Definition Present : M HRESULT :=
  fun w =>
    match Present_try w with
    | mk_res (Done _) w1 e1 => mk_res (Done S_OK) w1 e1
    | mk_res (Thrown hr) w1 e1 => mk_res (Done (_handleException h hr)) w1 e1
    | mk_res Terminated w1 e1 => mk_res Terminated w1 e1
    | mk_res Undefined w1 e1 => mk_res Undefined w1 e1
    end.

End AtlasEngine.

(** ** Auxiliary definitions for the properties *)

Definition is_power_of_two (n : Z) : Prop := exists k, 0 <= k /\ n = 2 ^ k.

(** The power of two the source reaches with [1 << (index + 1)]: the
    smallest one strictly above [n]. *)
Definition nextPowerOfTwo (n : Z) : Z := 2 ^ (Z.log2 n + 1).

(** The inputs on which the computation of the new area neither wraps nor
    is undefined. *)
Record area_in_range (limit pos cell : u16x2) : Prop := mk_area_in_range {
  area_limit_x : 0 < x limit <= u16_max;
  area_pos_x : 0 <= x pos <= u16_max;
  area_pos_y : 0 <= y pos <= u16_max;
  area_cell_x : 0 < x cell <= u16_max;
  area_cell_y : 0 < y cell <= u16_max;
  area_min : 64 * (x cell * y cell) < 2 ^ 31;
  area_current : y pos * x limit + x pos * y cell < 2 ^ 31
}.

(** The inputs on which no step of the computation wraps or is undefined. *)
Record in_range (limit pos cell : u16x2) : Prop := mk_in_range {
  range_limit_x : 0 < x limit <= u16_max;
  range_limit_y : 0 <= y limit <= u16_max;
  range_pos_x : 0 <= x pos <= u16_max;
  range_pos_y : 0 <= y pos <= u16_max;
  range_cell_x : 0 < x cell <= u16_max;
  range_cell_y : 0 < y cell <= u16_max;
  range_min_area : 64 * (x cell * y cell) < 2 ^ 31;
  range_current_area : y pos * x limit + x pos * y cell < 2 ^ 31;
  range_row : x limit * y cell < 2 ^ 31
}.

(** The same computation over the integers, without wrap-around. *)
Definition idealGrowth (limit pos cell : u16x2) : AtlasGrowth :=
  let perCellArea := x cell * y cell in
  let currentArea := y pos * x limit + x pos * y cell in
  let minArea := 64 * perCellArea in
  let newArea := nextPowerOfTwo (Z.max minArea currentArea) in
  let pixelPerRow := x limit * y cell in
  let wantedHeight := (newArea + pixelPerRow - 1) / pixelPerRow * y cell in
  let wantedWidth :=
    if wantedHeight =? y cell then newArea / perCellArea * x cell else x limit in
  mk_growth perCellArea currentArea minArea newArea pixelPerRow wantedHeight wantedWidth
            (Z.min (y limit) wantedHeight) (Z.min (x limit) wantedWidth).

(** The area the new texture has to exceed: the floor of 64 cells, or the
    area consumed so far (the full rows plus the partial row). *)
Definition neededArea (limit pos cell : u16x2) : Z :=
  Z.max (64 * (x cell * y cell)) (y pos * x limit + x pos * y cell).

(** ** The size formula as the specification words it *)

Module Spec.

(** Rounding up to a power of two: the least power of two that is not
    below the argument. *)
Definition roundUpToPowerOfTwo (n : Z) : Z := 2 ^ Z.log2_up n.

Definition ceil_div (a b : Z) : Z := if a mod b =? 0 then a / b else a / b + 1.

(** The formula, for a given way of rounding the area. *)
Definition newAtlasSize (round : Z -> Z) (limit pos cell : u16x2) : u16x2 :=
  let cellArea := x cell * y cell in
  let currentArea := y pos * x limit + x pos * y cell in
  let newArea := round (Z.max (64 * cellArea) currentArea) in
  let rows := ceil_div newArea (x limit * y cell) in
  let wantedHeight := rows * y cell in
  let wantedWidth := if 1 <? rows then x limit else newArea / cellArea * x cell in
  mk_u16x2 (Z.min (x limit) wantedWidth) (Z.min (y limit) wantedHeight).

(** The cursor shapes per style, in DIPs: what is filled or stroked on a
    cell of [cellWidth] by [cellHeight] with a line of [lineWidth]. *)
Definition cursorShapes (style : CursorType) (cellWidth cellHeight lineWidth : float)
           (heightPercentage : Z) : list (bool * D2D1_RECT_F) :=
  let zero := F32.of_Z 0 in
  match style with
  | Legacy =>
    [(true, mk_rect zero
              (F32.div (F32.mul cellHeight (F32.of_Z (100 - heightPercentage)))
                       (F32.of_Z 100))
              cellWidth cellHeight)]
  | VerticalBar => [(true, mk_rect zero zero lineWidth cellHeight)]
  | EmptyBox =>
    let inset := F32.div lineWidth (F32.of_Z 2) in
    [(false, mk_rect inset inset (F32.sub cellWidth inset) (F32.sub cellHeight inset))]
  | Underscore =>
    [(true, mk_rect zero (F32.sub cellHeight lineWidth) cellWidth cellHeight)]
  | DoubleUnderscore =>
    [(true, mk_rect zero (F32.sub cellHeight lineWidth) cellWidth cellHeight);
     (true, mk_rect zero (F32.sub (F32.sub cellHeight lineWidth) (F32.of_Z 2))
              cellWidth (F32.sub cellHeight (F32.of_Z 2)))]
  | FullBox => [(true, mk_rect zero zero cellWidth cellHeight)]
  end.

End Spec.

(** ** Predicates on states and traces *)

(** The test at the top of [_adjustAtlasSize]: the fill cursor is inside
    the texture, nothing to do. *)
Definition atlasHasRoom (r : Resources) : bool :=
  (y (atlasPosition r) <? y (atlasSizeInPixel r))
  && (x (atlasPosition r) <? x (atlasSizeInPixel r)).

(** A previous atlas texture exists. *)
Definition hasAtlas (r : Resources) : bool :=
  negb (u16x2_eqb (atlasSizeInPixel r) u16x2_zero).

(** The copy of the old atlas into the new one. *)
Definition atlasCopy (r : Resources) : Event :=
  CopySubresourceRegion1 NewAtlasBuffer 0 0 AtlasBuffer
    (mk_box 0 0 (x (atlasSizeInPixel r)) (y (atlasSizeInPixel r)))
    D3D11_COPY_NO_OVERWRITE.

Definition is_atlasCopy (e : Event) : bool :=
  match e with
  | CopySubresourceRegion1 NewAtlasBuffer _ _ AtlasBuffer _ _ => true
  | _ => false
  end.

(** ** Sample inputs *)

Module Sample.

(** The WIC bitmap scratchpad; [_handleException] hands the error code
    back. *)
Definition header : Header := mk_header true 0 (fun hr => hr).

Definition DXGI_ERROR_DEVICE_REMOVED : HRESULT := -2005270523.

(** An engine before its first frame: no atlas, no scratchpad. *)
Definition engine (mode : D2D1_TEXT_ANTIALIAS_MODE) (limit pos cell : u16x2)
           (maxCells : Z) (cursor : CursorType) (queue : list AtlasQueueItem)
  : Resources :=
  mk_r mode limit u16x2_zero pos cell
       (mk_f32x2 (F32.of_Z (x cell)) (F32.of_Z (y cell))) 96
       0 maxCells None None false (mk_inval false false)
       (mk_cursorOptions cursor 20) queue.

(** An engine in the middle of a session: an atlas of one row of 128
    cells of 8 by 16 pixels, a scratchpad of two cells. *)
Definition warm (mode : D2D1_TEXT_ANTIALIAS_MODE) (pos : u16x2)
           (cursor : CursorType) (queue : list AtlasQueueItem) : Resources :=
  mk_r mode (mk_u16x2 2048 2048) (mk_u16x2 1024 16) pos (mk_u16x2 8 16)
       (mk_f32x2 (F32.of_Z 8) (F32.of_Z 16)) 96
       1 1 (Some (16, 16)) (Some (mk_target mode)) false (mk_inval false false)
       (mk_cursorOptions cursor 20) queue.

(** The glyph of the letter A, one cell wide, placed at [target]. *)
Definition glyphA (target : u16x2) (colored : bool) : AtlasQueueItem :=
  mk_item (mk_key [65] 1 1 false false) (mk_value [target] colored).

(** The first frame of an engine with cells of 8 by 16 pixels; every GPU
    call succeeds. *)
Definition cold_world : World :=
  mk_world (engine D2D1_TEXT_ANTIALIAS_MODE_GRAYSCALE (mk_u16x2 2048 2048)
                   (mk_u16x2 8 0) (mk_u16x2 8 16) 0 FullBox []) [].

Definition limit2048 : u16x2 := mk_u16x2 2048 2048.
Definition limit16384 : u16x2 := mk_u16x2 16384 16384.
Definition cell8x16 : u16x2 := mk_u16x2 8 16.
Definition cell9x19 : u16x2 := mk_u16x2 9 19.

End Sample.

(** ** Reading a trace *)

(** Every event a computation can issue satisfies [P]. *)
Definition emits {A} (P : Event -> Prop) (m : M A) : Prop :=
  forall w, Forall P (events (m w)).

(** A copy of a scratchpad tile into the atlas: the WIC path uploads the
    locked bitmap with [UpdateSubresource1], the GPU path copies with
    [CopySubresourceRegion1] from the scratchpad. *)
Definition tileCopyFlags (e : Event) : option Z :=
  match e with
  | UpdateSubresource1 AtlasBuffer _ flags => Some flags
  | CopySubresourceRegion1 AtlasBuffer _ _ Scratchpad _ flags => Some flags
  | _ => None
  end.

(** The atlas coordinate a tile copy writes to. *)
Definition tileCopyTarget (e : Event) : option u16x2 :=
  match e with
  | UpdateSubresource1 AtlasBuffer box _ => Some (mk_u16x2 (box_left box) (box_top box))
  | CopySubresourceRegion1 AtlasBuffer dstX dstY Scratchpad _ _ => Some (mk_u16x2 dstX dstY)
  | _ => None
  end.

(** The horizontal pixel offset in the scratchpad a tile is read from: the
    locked rectangle on the WIC path, the source box on the GPU path. *)
Definition tileSourceOffset (e : Event) : option Z :=
  match e with
  | Call (Lock X _ _ _) _ => Some X
  | CopySubresourceRegion1 AtlasBuffer _ _ Scratchpad box _ => Some (box_left box)
  | _ => None
  end.



Fixpoint collect {B} (f : Event -> option B) (evs : list Event) : list B :=
  match evs with
  | [] => []
  | e :: evs' =>
    match f e with
    | Some b => b :: collect f evs'
    | None => collect f evs'
    end
  end.

(** The rectangles Direct2D is asked to draw: [true] with a filled one,
    [false] with one stroked (with the stroke width given apart). *)
Definition shape (e : Event) : option (bool * D2D1_RECT_F) :=
  match e with
  | FillRectangle rect => Some (true, rect)
  | DrawRectangle rect _ => Some (false, rect)
  | _ => None
  end.

Definition strokeWidthOf (e : Event) : option float :=
  match e with
  | DrawRectangle _ strokeWidth => Some strokeWidth
  | _ => None
  end.

(** The distance, in DIPs, by which the second of two filled bars lies
    above the first. *)
Definition barOffset (shapes : list (bool * D2D1_RECT_F)) : option float :=
  match shapes with
  | [(true, a); (true, b)] => Some (F32.sub (top a) (top b))
  | _ => None
  end.

(** A length in DIPs as physical pixels at a given dpi: a DIP is 1/96
    inch. *)
Definition physicalPixels (dpi : Z) (dips : float) : float :=
  F32.div (F32.mul dips (F32.of_Z dpi)) (F32.of_Z USER_DEFAULT_SCREEN_DPI).

(** What [_reserveScratchpadSize] can issue. *)
Definition is_reserve_event (e : Event) : bool :=
  match e with
  | Call (CreateBitmap _ _) _
  | Call CreateWicBitmapRenderTarget _
  | Call (CreateTexture2D _ _) _
  | Call CreateDxgiSurfaceRenderTarget _
  | Call CreateSolidColorBrush _
  | SetTextAntialiasMode _ => true
  | _ => false
  end.

Definition is_present (e : Event) : bool :=
  match e with
  | Call (SwapChain_Present _ _) _ => true
  | _ => false
  end.

Definition succeeded (e : Event) : bool :=
  match e with
  | Call _ hr => negb (FAILED hr)
  | _ => true
  end.

(** The text antialiasing mode a text layout is rasterized with. *)
Definition rasterMode (e : Event) : option D2D1_TEXT_ANTIALIAS_MODE :=
  match e with
  | DrawTextLayout target _ => Some (textAntialiasMode target)
  | _ => None
  end.

(** ** The shape of a frame's trace *)

(** No swap-chain present call among the events. *)
Definition quiet (evs : list Event) : Prop := Forall (fun e => is_present e = false) evs.

(** Every checked call among the events succeeded. *)
Definition all_ok (evs : list Event) : Prop := Forall (fun e => succeeded e = true) evs.

(** The end of a frame that went through: the upload of the cell buffer,
    the draw, the command list, and the present call. *)
Definition frame_tail (hr1 hr2 hr3 hr4 hr5 : HRESULT) : list Event :=
  [Call CellBuffer_Map hr1; CellBuffer_memcpy; Draw 3 0;
   Call CommandAllocator_Reset hr2; Call CommandList_Reset hr3;
   DrawInstanced 3 1 0 0; Call CommandList_Close hr4;
   Call (SwapChain_Present 1 0) hr5].

(** A step of the pipeline before the present call: it never presents, and
    a failure is the last thing it does. *)
Definition step_ok {A} (m : M A) : Prop :=
  forall w,
    match m w with
    | mk_res (Done _) _ evs => quiet evs /\ all_ok evs
    | mk_res Undefined _ evs => quiet evs /\ all_ok evs
    | mk_res (Thrown hr) _ evs =>
      FAILED hr = true
      /\ exists pre c, evs = pre ++ [Call c hr] /\ quiet pre /\ all_ok pre
                       /\ is_present (Call c hr) = false
    | mk_res Terminated _ evs =>
      exists hr pre, FAILED hr = true /\ evs = pre ++ [Call ConstantBuffer_Map hr]
                     /\ quiet pre /\ all_ok pre
    end.

(** The pipeline from some step on, up to and including the present call. *)
Definition frame_ok (m : M unit) : Prop :=
  forall w,
    match m w with
    | mk_res (Done _) _ evs =>
      exists pre hr1 hr2 hr3 hr4 hr5,
        evs = pre ++ frame_tail hr1 hr2 hr3 hr4 hr5
        /\ quiet pre /\ all_ok pre
        /\ FAILED hr1 = false /\ FAILED hr2 = false /\ FAILED hr3 = false
        /\ FAILED hr4 = false /\ FAILED hr5 = false
    | mk_res (Thrown hr) _ evs =>
      FAILED hr = true
      /\ exists pre c, evs = pre ++ [Call c hr] /\ quiet pre /\ all_ok pre
    | mk_res Terminated _ evs =>
      exists hr pre, FAILED hr = true /\ evs = pre ++ [Call ConstantBuffer_Map hr]
                     /\ quiet pre /\ all_ok pre
    | mk_res Undefined _ evs => quiet evs /\ all_ok evs
    end.

Module Frames.

(** Cells of 9 by 19 pixels, 95 tiles handed out since the engine was
    created: the fill cursor is at x = 855, the atlas does not exist yet. *)
Definition full_row : World :=
  mk_world (Sample.engine D2D1_TEXT_ANTIALIAS_MODE_GRAYSCALE Sample.limit16384
                          (mk_u16x2 855 0) Sample.cell9x19 1 FullBox []) [].

(** A frame with nothing to redraw in which the device is removed at the
    present call: the four calls before it succeed. *)
Definition present_fails : World :=
  mk_world (Sample.warm D2D1_TEXT_ANTIALIAS_MODE_GRAYSCALE (mk_u16x2 16 0) FullBox [])
           [0; 0; 0; 0; Sample.DXGI_ERROR_DEVICE_REMOVED].

(** A frame whose constant buffer is invalidated and cannot be mapped. *)
Definition constant_buffer_fails : World :=
  mk_world (set_invalidations (mk_inval false true)
              (Sample.warm D2D1_TEXT_ANTIALIAS_MODE_GRAYSCALE (mk_u16x2 16 0) FullBox []))
           [Sample.DXGI_ERROR_DEVICE_REMOVED].

(** The first frame of an engine configured for aliased text, with one
    colored glyph queued. *)
Definition aliased_colored : World :=
  mk_world (Sample.engine D2D1_TEXT_ANTIALIAS_MODE_ALIASED Sample.limit2048
                          (mk_u16x2 16 0) Sample.cell8x16 1 FullBox
                          [Sample.glyphA (mk_u16x2 8 0) true]) [].

(** A running engine configured for ClearType, about to draw a glyph. *)
Definition cleartype : World :=
  mk_world (Sample.warm D2D1_TEXT_ANTIALIAS_MODE_CLEARTYPE (mk_u16x2 16 0) FullBox []) [].

(** A frame with one plain glyph queued and nothing else to redraw. *)
Definition one_glyph : World :=
  mk_world (Sample.warm D2D1_TEXT_ANTIALIAS_MODE_GRAYSCALE (mk_u16x2 16 0) FullBox
                        [Sample.glyphA (mk_u16x2 8 0) false]) [].

(** An engine about to draw a double underscore cursor for the first
    time. *)
Definition double_underscore : World :=
  mk_world (Sample.engine D2D1_TEXT_ANTIALIAS_MODE_GRAYSCALE Sample.limit2048
                          (mk_u16x2 8 0) Sample.cell8x16 0 DoubleUnderscore []) [].

(** The same at 200% scale (192 dpi): cells of 16 by 32 pixels, that is
    of 8 by 16 DIPs, a DIP being two physical pixels. *)
Definition double_underscore_192 : World :=
  mk_world (mk_r D2D1_TEXT_ANTIALIAS_MODE_GRAYSCALE Sample.limit2048 u16x2_zero
                 (mk_u16x2 16 0) (mk_u16x2 16 32)
                 (mk_f32x2 (F32.of_Z 8) (F32.of_Z 16)) 192
                 0 0 None None false (mk_inval false false)
                 (mk_cursorOptions DoubleUnderscore 20) []) [].


(** A warm growth: the atlas of 1024 by 16 pixels is full. *)
Definition warm_growth : World :=
  mk_world (Sample.warm D2D1_TEXT_ANTIALIAS_MODE_GRAYSCALE (mk_u16x2 1024 0) FullBox []) [].

(** Two glyphs queued; the first is drawn and copied (five calls), the
    text layout of the second cannot be created. *)
Definition second_glyph_fails : World :=
  mk_world (Sample.warm D2D1_TEXT_ANTIALIAS_MODE_GRAYSCALE (mk_u16x2 24 0) FullBox
                        [Sample.glyphA (mk_u16x2 8 0) false;
                         Sample.glyphA (mk_u16x2 16 0) false])
           [0; 0; 0; 0; 0; Sample.DXGI_ERROR_DEVICE_REMOVED].

End Frames.

(** ** States before and after a step *)

(** From a state in [P], a step that completes ends in a state in [Q]. *)
Definition triple {A} (P : Resources -> Prop) (m : M A) (Q : Resources -> Prop) : Prop :=
  forall w a, P (r_ w) -> outcome (m w) = Done a -> Q (r_ (world (m w))).

(** A step that completes leaves the view [f] of the state as it was. *)
Definition keeps {A B} (f : Resources -> B) (m : M A) : Prop :=
  forall v, triple (fun r => f r = v) m (fun r => f r = v).

(** ** Definitions for the further properties *)

(** The width in pixels of the scratchpad surface; 0 without a surface. *)
Definition scratchpadWidth (r : Resources) : Z :=
  match atlasScratchpad r with
  | Some (W, _) => W
  | None => 0
  end.

(** The scratchpad surface is at least as wide as the recorded capacity
    says, in cells.  The bounds keep the width of a regrown surface, in
    pixels, within 32 bits. *)
Definition scratchpad_fits (r : Resources) : Prop :=
  0 <= x (cellSize r) <= 32767
  /\ 0 <= maxEncounteredCellCount r <= u16_max
  /\ 0 <= scratchpadCellWidth r <= u16_max
  /\ scratchpadCellWidth r * x (cellSize r) <= scratchpadWidth r.

(** What of the state the scratchpad bookkeeping reads. *)
Definition scratchpadView (r : Resources) : u16x2 * Z * Z * option (Z * Z) :=
  (cellSize r, maxEncounteredCellCount r, scratchpadCellWidth r, atlasScratchpad r).

(** The atlas coordinates the tiles of a queued glyph go to: the first
    [cellCount] coordinates of its value. *)
Definition tileTargets (item : AtlasQueueItem) : list u16x2 :=
  firstn (Z.to_nat (cellCount (key item))) (coords (value item)).

(** The pixel offset in the scratchpad at which tile [index] is read: the
    32-bit product of the index and the cell width, stored in an [INT] on
    the WIC path. *)
Definition tileOffset (software : bool) (cellWidth index : Z) : Z :=
  if software then to_INT (U32.mul index cellWidth) else U32.mul index cellWidth.

(** The pixel offsets in the scratchpad the tiles of a queued glyph are read
    from: tile [i] starts [i] cells from the left. *)
Definition tileOffsets (software : bool) (cellWidth : Z) (item : AtlasQueueItem) : list Z :=
  map (fun i => tileOffset software cellWidth (Z.of_nat i))
      (seq 0 (Z.to_nat (cellCount (key item)))).

(** ** The steps of a drained queue *)

(** What drawing a queued glyph comes to: its text is laid out, the layout
    is rasterized into the scratchpad, and tiles are read from the
    scratchpad and written to the atlas. *)
Inductive GlyphStep :=
| LaidOut (text : list Z) (length : Z) (bold italic : bool) (maxWidth maxHeight : float)
| Rasterized (options : Z)
| TileRead (offset : Z)
| TileWritten (target : u16x2).

(** The steps an event stands for.  The GPU path reads and writes a tile
    with one call. *)
Definition glyphStepsOf (e : Event) : list GlyphStep :=
  match e with
  | Call (CreateTextLayout text length bold italic maxWidth maxHeight) _ =>
    [LaidOut text length bold italic maxWidth maxHeight]
  | DrawTextLayout _ options => [Rasterized options]
  | Call (Lock X _ _ _) _ => [TileRead X]
  | UpdateSubresource1 AtlasBuffer box _ =>
    [TileWritten (mk_u16x2 (box_left box) (box_top box))]
  | CopySubresourceRegion1 AtlasBuffer dstX dstY Scratchpad box _ =>
    [TileRead (box_left box); TileWritten (mk_u16x2 dstX dstY)]
  | _ => []
  end.

(** The steps of one glyph, with the offset of a tile given by [offset]:
    the layout of its text, as wide as its cells, its rasterization, with
    color fonts enabled for a colored glyph, and for each of its cells in
    turn the read of the tile and its write at the coordinate of that
    cell. *)
Definition glyphStepsAt (offset : Z -> Z) (cellDIP : f32x2) (item : AtlasQueueItem)
  : list GlyphStep :=
  LaidOut (chars (key item)) (charCount (key item)) (bold (key item)) (italic (key item))
          (F32.mul (F32.of_Z (cellCount (key item))) (fx cellDIP)) (fy cellDIP)
  :: Rasterized (if ColoredGlyph (value item)
                 then D2D1_DRAW_TEXT_OPTIONS_ENABLE_COLOR_FONT
                 else D2D1_DRAW_TEXT_OPTIONS_NONE)
  :: flat_map (fun i => [TileRead (offset (Z.of_nat i));
                         TileWritten (nth i (coords (value item)) u16x2_zero)])
              (seq 0 (Z.to_nat (cellCount (key item)))).

(** The steps of one glyph: tile [i] is read [i] cell widths from the left
    of the scratchpad. *)
Definition glyphSteps (cell : u16x2) (cellDIP : f32x2) (item : AtlasQueueItem)
  : list GlyphStep :=
  glyphStepsAt (fun i => i * x cell) cellDIP item.

(** A property of the state that a computation never breaks, whatever its
    outcome: an exception or a termination leaves the state as it was at
    that point, so the property has to hold at every step. *)
Definition invariant {A} (I : Resources -> Prop) (m : M A) : Prop :=
  forall w, I (r_ w) -> I (r_ (world (m w))).

(** What the render thread is given and only reads: the settings, the cell
    metrics, the fill cursor of the atlas and the widest glyph met. *)
Definition settingsView (r : Resources) :=
  (realizedAntialiasingMode r, atlasSizeInPixelLimit r, atlasPosition r,
   cellSize r, cellSizeDIP r, dpi r, maxEncounteredCellCount r,
   typography r, cursorOptions r).

(** ** A frame on a device in good health *)

(** Every call still to come succeeds. *)
Definition script_ok (g : list HRESULT) : Prop := Forall (fun hr => FAILED hr = false) g.

(** The scratchpad and its render target exist. *)
Definition ready (r : Resources) : Prop :=
  d2dRenderTarget r <> None /\ atlasScratchpad r <> None.

(** A queued glyph has a coordinate for each of its cells. *)
Definition item_ok (item : AtlasQueueItem) : Prop :=
  (Z.to_nat (cellCount (key item)) <= length (coords (value item)))%nat.

(** What [Present] relies on without checking it: the atlas can be grown
    if it has to be, a recorded scratchpad capacity stands for surfaces
    that exist, a queue with glyphs comes with a widest glyph of at least a
    cell, and every queued glyph has its coordinates. *)
Definition well_formed (r : Resources) : Prop :=
  (atlasHasRoom r = true
   \/ in_range (atlasSizeInPixelLimit r) (atlasPosition r) (cellSize r))
  /\ (1 <= scratchpadCellWidth r -> ready r)
  /\ (glyphQueue r <> [] -> 1 <= maxEncounteredCellCount r)
  /\ Forall item_ok (glyphQueue r).

(** From a state in [P] and with every call succeeding, the computation
    completes in a state in [Q], and the calls left still succeed. *)
Definition total {A} (P : Resources -> Prop) (m : M A) (Q : Resources -> Prop) : Prop :=
  forall w, P (r_ w) -> script_ok (gpu w) ->
    exists a, outcome (m w) = Done a
              /\ Q (r_ (world (m w)))
              /\ script_ok (gpu (world (m w))).

(** ** The line width over every dpi *)

(** [f] holds on the [2 ^ k] integers from [s] on. *)
Fixpoint holds_on_range (f : Z -> bool) (k : nat) (s : Z) : bool :=
  match k with
  | O => f s
  | S k' => holds_on_range f k' s && holds_on_range f k' (s + 2 ^ Z.of_nat k')
  end.

Definition is_number (f : float) : bool :=
  match f with
  | S754_zero _ | S754_finite _ _ _ => true
  | S754_infinity _ | S754_nan => false
  end.

(** The line width is a number between 1 and 2 DIPs. *)
Definition lineWidth_in_bounds (dpi : Z) : bool :=
  is_number (lineWidth dpi)
  && negb (F32.ltb (lineWidth dpi) (F32.of_Z 1))
  && negb (F32.ltb (F32.of_Z 2) (lineWidth dpi)).

(** ** Frame after frame *)

(** The atlas holds the fill cursor, or can be grown to hold it: the cursor
    is below the hardware limit and the cell area is a power of two. *)
Definition atlas_can_hold (r : Resources) : Prop :=
  atlasHasRoom r = true
  \/ (in_range (atlasSizeInPixelLimit r) (atlasPosition r) (cellSize r)
      /\ is_power_of_two (x (cellSize r) * y (cellSize r))
      /\ x (atlasPosition r) < x (atlasSizeInPixelLimit r)
      /\ y (atlasPosition r) < y (atlasSizeInPixelLimit r)).

(** Nothing is left to do: the fill cursor is inside the atlas, the
    scratchpad covers the widest glyph, the queue is empty and no flag is
    set. *)
Definition settled (r : Resources) : Prop :=
  atlasHasRoom r = true
  /\ maxEncounteredCellCount r <= scratchpadCellWidth r
  /\ glyphQueue r = []
  /\ invalidations r = mk_inval false false.

(** What the room test reads. *)
Definition atlasView (r : Resources) : u16x2 * u16x2 := (atlasPosition r, atlasSizeInPixel r).

(** ** The upload of the constant buffer *)

(** The upload of the constant buffer, with the ClearType switch it
    carries. *)
Definition constantsUploaded (e : Event) : option bool :=
  match e with
  | ConstantBuffer_memcpy useClearType => Some useClearType
  | _ => None
  end.

(** The creation of a scratchpad bitmap. *)
Definition is_scratchpad_creation (e : Event) : bool :=
  match e with
  | Call (CreateBitmap _ _) _ => true
  | _ => false
  end.
(** * Properties *)

(** ** Arithmetic of the atlas growth *)

Lemma nextPowerOfTwo_gt n : 0 < n -> n < nextPowerOfTwo n.
Proof.
  intros Hn. unfold nextPowerOfTwo.
  replace (Z.log2 n + 1) with (Z.succ (Z.log2 n)) by lia.
  apply Z.log2_spec; assumption.
Qed.

Lemma nextPowerOfTwo_le_double n : 0 < n -> nextPowerOfTwo n <= 2 * n.
Proof.
  intros Hn. unfold nextPowerOfTwo.
  rewrite Z.pow_add_r by (try apply Z.log2_nonneg; lia).
  pose proof (Z.log2_spec n Hn) as [Hlo _]. lia.
Qed.

Lemma nextPowerOfTwo_least n k :
  0 < n -> 0 <= k -> n < 2 ^ k -> nextPowerOfTwo n <= 2 ^ k.
Proof.
  intros Hn Hk Hlt. unfold nextPowerOfTwo.
  apply Z.pow_le_mono_r; [lia|].
  assert (Z.log2 n < k); [|lia].
  apply Z.log2_lt_pow2; assumption.
Qed.

Lemma nextPowerOfTwo_is_power n : is_power_of_two (nextPowerOfTwo n).
Proof.
  exists (Z.log2 n + 1). split; [|reflexivity].
  pose proof (Z.log2_nonneg n). lia.
Qed.

Lemma wrap_small z : 0 <= z < 2 ^ 32 -> U32.wrap z = z.
Proof. intros H. unfold U32.wrap, U32.modulus. apply Z.mod_small. exact H. Qed.

Lemma narrow_small z : 0 <= z <= u16_max -> narrow_cast_u16 z = z.
Proof.
  intros H. unfold narrow_cast_u16. apply Z.mod_small.
  unfold u16_max in H. change (2 ^ 16) with 65536. lia.
Qed.

Lemma atlasGrowth_in_range limit pos cell :
  in_range limit pos cell ->
  atlasGrowth limit pos cell = Some (idealGrowth limit pos cell).
Proof.
  intros [Hlx Hly Hpx Hpy Hcx Hcy Hmin Hcur Hrow].
  unfold u16_max in *.
  set (lx := x limit) in *. set (ly := y limit) in *.
  set (px := x pos) in *. set (py := y pos) in *.
  set (cx := x cell) in *. set (cy := y cell) in *.
  assert (Harea : 0 < cx * cy <= 65535 * 65535)
    by (split; [nia | apply Z.mul_le_mono_nonneg; lia]).
  assert (Hppr : 0 < lx * cy <= 65535 * 65535)
    by (split; [nia | apply Z.mul_le_mono_nonneg; lia]).
  assert (Hpylx : 0 <= py * lx <= 65535 * 65535)
    by (split; [nia | apply Z.mul_le_mono_nonneg; lia]).
  assert (Hpxcy : 0 <= px * cy <= 65535 * 65535)
    by (split; [nia | apply Z.mul_le_mono_nonneg; lia]).
  set (m := Z.max (64 * (cx * cy)) (py * lx + px * cy)).
  assert (Hm : 0 < m < 2 ^ 31) by (unfold m; lia).
  assert (Hlog : 0 <= Z.log2 m < 31).
  { split; [apply Z.log2_nonneg|]. apply Z.log2_lt_pow2; lia. }
  set (na := nextPowerOfTwo m).
  assert (Hna : m < na <= 2 ^ 31).
  { split; [apply nextPowerOfTwo_gt; lia|].
    unfold na, nextPowerOfTwo. apply Z.pow_le_mono_r; lia. }
  set (rows := (na + lx * cy - 1) / (lx * cy)).
  assert (Hrows : 0 < rows /\ rows * (lx * cy) <= na + lx * cy - 1).
  { unfold rows. split.
    - apply Z.div_str_pos. lia.
    - rewrite Z.mul_comm. apply Z.mul_div_le. lia. }
  assert (Hwh : 0 <= rows * cy < 2 ^ 32) by nia.
  set (cells := na / (cx * cy)).
  assert (Hcells : 0 <= cells /\ cells * (cx * cy) <= na).
  { unfold cells. split.
    - apply Z.div_pos; lia.
    - rewrite Z.mul_comm. apply Z.mul_div_le. lia. }
  assert (Hww : 0 <= cells * cx < 2 ^ 32) by nia.
  unfold atlasGrowth, idealGrowth.
  fold lx ly px py cx cy.
  unfold U32.mul, U32.add, U32.sub, U32.div.
  rewrite (wrap_small (cx * cy)) by lia.
  rewrite (wrap_small (py * lx)) by lia.
  rewrite (wrap_small (px * cy)) by lia.
  rewrite (wrap_small (py * lx + px * cy)) by lia.
  rewrite (wrap_small (64 * (cx * cy))) by lia.
  fold m.
  unfold _BitScanReverse.
  destruct (Z.ltb_spec 0 m) as [_|]; [|lia].
  unfold shl1_u32.
  destruct (Z.ltb_spec (Z.log2 m + 1) 32) as [_|]; [|lia].
  rewrite Z.shiftl_1_l. fold (nextPowerOfTwo m). fold na.
  rewrite (wrap_small (lx * cy)) by lia.
  destruct (Z.eqb_spec (lx * cy) 0) as [|_]; [lia|].
  rewrite (wrap_small (na + lx * cy)) by lia.
  rewrite (wrap_small (na + lx * cy - 1)) by lia.
  fold rows.
  rewrite (wrap_small (rows * cy)) by lia.
  destruct (Z.eqb_spec (rows * cy) cy) as [Heq|Hne]; cbn [negb].
  - destruct (Z.eqb_spec (cx * cy) 0) as [|_]; [lia|].
    fold cells. rewrite (wrap_small (cells * cx)) by lia.
    rewrite !narrow_small by (unfold u16_max; lia). reflexivity.
  - rewrite !narrow_small by (unfold u16_max; lia). reflexivity.
Qed.

Lemma idealGrowth_rows limit pos cell :
  in_range limit pos cell ->
  let g := idealGrowth limit pos cell in
  let rows := (newArea g + pixelPerRow g - 1) / pixelPerRow g in
  1 <= rows /\ newArea g <= rows * pixelPerRow g /\ wantedHeight g = rows * y cell.
Proof.
  intros [Hlx Hly Hpx Hpy Hcx Hcy Hmin Hcur Hrow].
  unfold idealGrowth; cbn [newArea pixelPerRow wantedHeight].
  set (m := Z.max (64 * (x cell * y cell)) (y pos * x limit + x pos * y cell)).
  assert (Hm : 0 < m) by (unfold m; nia).
  pose proof (nextPowerOfTwo_gt m Hm) as Hna.
  set (na := nextPowerOfTwo m) in *.
  set (P := x limit * y cell) in *.
  assert (HP : 0 < P) by (unfold P; nia).
  pose proof (Z.div_mod (na + P - 1) P ltac:(lia)) as Hdm.
  pose proof (Z.mod_pos_bound (na + P - 1) P HP) as Hmod.
  set (q := (na + P - 1) / P) in *.
  clearbody q na P m. clear Hrow Hcur Hmin.
  repeat split; nia.
Qed.

(** After a growth the fill cursor is inside the new texture, provided the
    cursor is below the hardware limit and, for a texture of a single row,
    the cell area divides the new area (as it does when the cell area is a
    power of two). *)
Lemma growth_covers_cursor limit pos cell :
  in_range limit pos cell ->
  x pos < x limit -> y pos < y limit ->
  let g := idealGrowth limit pos cell in
  (wantedHeight g = y cell -> newArea g mod perCellArea g = 0) ->
  y pos < height g /\ x pos < width g.
Proof.
  intros Hr Hx Hy g.
  pose proof (idealGrowth_rows limit pos cell Hr) as (Hrows & Hcover & Hwh).
  destruct Hr as [Hlx Hly Hpx Hpy Hcx Hcy Hmin Hcur Hrow].
  fold g in Hrows, Hcover, Hwh.
  assert (Hm : 0 < Z.max (64 * (x cell * y cell)) (y pos * x limit + x pos * y cell)) by nia.
  pose proof (nextPowerOfTwo_gt _ Hm) as Hna.
  change (nextPowerOfTwo _) with (newArea g) in Hna.
  change (height g) with (Z.min (y limit) (wantedHeight g)).
  change (width g) with (Z.min (x limit) (wantedWidth g)).
  change (wantedWidth g)
    with (if wantedHeight g =? y cell
          then newArea g / perCellArea g * x cell else x limit).
  change (perCellArea g) with (x cell * y cell).
  change (pixelPerRow g) with (x limit * y cell) in *.
  set (rows := (newArea g + x limit * y cell - 1) / (x limit * y cell)) in *.
  set (na := newArea g) in *. set (wh := wantedHeight g) in *.
  clearbody rows na wh. clear g Hrow Hmin Hcur Hm.
  intros Hdiv.
  assert (Hgt : y pos * x limit + x pos * y cell < na) by lia.
  assert (Hh : y pos < wh) by (rewrite Hwh; nia).
  split; [lia|].
  destruct (Z.eqb_spec wh (y cell)) as [Heq|Hne]; [|lia].
  specialize (Hdiv Heq).
  assert (Harea : 0 < x cell * y cell) by nia.
  pose proof (Z.div_mod na (x cell * y cell) ltac:(lia)) as Hdm.
  rewrite Hdiv in Hdm.
  set (cells := na / (x cell * y cell)) in *. clearbody cells.
  assert (x pos < cells * x cell) by nia.
  lia.
Qed.

Lemma ceil_div_add a b : 0 <= a -> 0 < b -> Spec.ceil_div a b = (a + b - 1) / b.
Proof.
  intros Ha Hb. unfold Spec.ceil_div.
  pose proof (Z.div_mod a b ltac:(lia)) as Hdm.
  pose proof (Z.mod_pos_bound a b Hb) as Hmod.
  destruct (Z.eqb_spec (a mod b) 0) as [H0|Hn0].
  - apply Z.div_unique with (r := b - 1); lia.
  - apply Z.div_unique with (r := a mod b - 1); lia.
Qed.

Lemma idealGrowth_size limit pos cell :
  in_range limit pos cell ->
  let g := idealGrowth limit pos cell in
  mk_u16x2 (width g) (height g) = Spec.newAtlasSize nextPowerOfTwo limit pos cell.
Proof.
  intros Hr g.
  pose proof (idealGrowth_rows limit pos cell Hr) as (Hrows & Hcover & Hwh).
  destruct Hr as [Hlx Hly Hpx Hpy Hcx Hcy Hmin Hcur Hrow].
  fold g in Hrows, Hcover, Hwh.
  assert (Hm : 0 < Z.max (64 * (x cell * y cell)) (y pos * x limit + x pos * y cell)) by nia.
  pose proof (nextPowerOfTwo_gt _ Hm) as Hna.
  unfold Spec.newAtlasSize.
  change (nextPowerOfTwo _) with (newArea g) in *.
  rewrite ceil_div_add by nia.
  change (height g) with (Z.min (y limit) (wantedHeight g)).
  change (width g) with (Z.min (x limit) (wantedWidth g)).
  change (wantedWidth g)
    with (if wantedHeight g =? y cell
          then newArea g / perCellArea g * x cell else x limit).
  change (perCellArea g) with (x cell * y cell).
  change (pixelPerRow g) with (x limit * y cell) in *.
  rewrite Hwh.
  set (rows := (newArea g + x limit * y cell - 1) / (x limit * y cell)) in *.
  clearbody rows. clear Hwh Hcover Hna Hm Hrow Hcur Hmin.
  destruct (Z.eqb_spec (rows * y cell) (y cell)) as [Heq|Hne];
    destruct (Z.ltb_spec 1 rows) as [Hgt|Hle]; try reflexivity; exfalso; nia.
Qed.

(** ** Running a computation symbolically *)

Ltac unfold_monad :=
  unfold d2d_SetTextAntialiasMode, d2d_BeginDraw, d2d_Clear, d2d_DrawTextLayout,
    d2d_FillRectangle, d2d_DrawRectangle, d2d_EndDraw, _setShaderResources,
    update_invalidations, with_target, when, noexcept,
    THROW_IF_FAILED, bind, get, modify, emit, ret, undefined.

Ltac run :=
  repeat
    (progress
       (unfold_monad;
        cbn -[Z.mul Z.add Z.sub Z.max Z.shiftr Z.modulo Z.div Z.pow Z.of_nat Z.to_nat
              U32.mul U32.add to_INT F32.of_Z F32.mul F32.div F32.sub F32.max
              lineWidth cursorRect for_each])).

(** ** [_adjustAtlasSize] *)

Lemma adjustAtlasSize_room w :
  atlasHasRoom (r_ w) = true -> _adjustAtlasSize w = mk_res (Done tt) w [].
Proof.
  intros H. unfold _adjustAtlasSize. run.
  unfold atlasHasRoom in H. rewrite H. reflexivity.
Qed.

Lemma adjustAtlasSize_Done w :
  atlasHasRoom (r_ w) = false ->
  outcome (_adjustAtlasSize w) = Done tt ->
  exists g hr1 hr2,
    atlasGrowth (atlasSizeInPixelLimit (r_ w)) (atlasPosition (r_ w)) (cellSize (r_ w)) = Some g
    /\ FAILED hr1 = false /\ FAILED hr2 = false
    /\ r_ (world (_adjustAtlasSize w)) =
       set_invalidations
         (WI_SetFlagIf_Cursor (negb (hasAtlas (r_ w))) (invalidations (r_ w)))
         (set_atlasSizeInPixel (mk_u16x2 (width g) (height g)) (r_ w))
    /\ events (_adjustAtlasSize w) =
       [Call (CreateTexture2D (width g) (height g)) hr1;
        Call CreateShaderResourceView hr2]
       ++ (if hasAtlas (r_ w) then [atlasCopy (r_ w)] else []).
Proof.
  intros Hroom. unfold atlasHasRoom in Hroom.
  unfold _adjustAtlasSize. run.
  rewrite Hroom.
  destruct (atlasGrowth _ _ _) as [g|]; run; [|discriminate].
  destruct (FAILED (hd S_OK (gpu w))) eqn:H1; run; [discriminate|].
  destruct (FAILED (hd S_OK (tl (gpu w)))) eqn:H2; run; [discriminate|].
  unfold hasAtlas, atlasCopy.
  destruct (u16x2_eqb _ _); run; intros _;
    exists g, (hd S_OK (gpu w)), (hd S_OK (tl (gpu w))); repeat split; assumption.
Qed.

(** The growth goes through whenever the two creation calls succeed. *)
Lemma adjustAtlasSize_succeeds w g :
  atlasHasRoom (r_ w) = false ->
  atlasGrowth (atlasSizeInPixelLimit (r_ w)) (atlasPosition (r_ w)) (cellSize (r_ w)) = Some g ->
  FAILED (hd S_OK (gpu w)) = false ->
  FAILED (hd S_OK (tl (gpu w))) = false ->
  outcome (_adjustAtlasSize w) = Done tt.
Proof.
  intros Hroom Hg H1 H2. unfold atlasHasRoom in Hroom.
  unfold _adjustAtlasSize. run.
  rewrite Hroom, Hg. run. rewrite H1. run. rewrite H2. run.
  destruct (negb _); reflexivity.
Qed.

Lemma atlasGrowth_newArea limit pos cell :
  area_in_range limit pos cell ->
  exists g,
    atlasGrowth limit pos cell = Some g
    /\ newArea g = nextPowerOfTwo (neededArea limit pos cell).
Proof.
  intros [Hlx Hpx Hpy Hcx Hcy Hmin Hcur].
  unfold u16_max in *. unfold neededArea.
  set (lx := x limit) in *. set (px := x pos) in *. set (py := y pos) in *.
  set (cx := x cell) in *. set (cy := y cell) in *.
  assert (Harea : 0 < cx * cy <= 65535 * 65535)
    by (split; [nia | apply Z.mul_le_mono_nonneg; lia]).
  assert (Hppr : 0 < lx * cy <= 65535 * 65535)
    by (split; [nia | apply Z.mul_le_mono_nonneg; lia]).
  assert (Hpylx : 0 <= py * lx <= 65535 * 65535)
    by (split; [nia | apply Z.mul_le_mono_nonneg; lia]).
  assert (Hpxcy : 0 <= px * cy <= 65535 * 65535)
    by (split; [nia | apply Z.mul_le_mono_nonneg; lia]).
  set (m := Z.max (64 * (cx * cy)) (py * lx + px * cy)).
  assert (Hm : 0 < m < 2 ^ 31) by (unfold m; lia).
  assert (Hlog : 0 <= Z.log2 m < 31).
  { split; [apply Z.log2_nonneg|]. apply Z.log2_lt_pow2; lia. }
  unfold atlasGrowth. fold lx px py cx cy.
  unfold U32.mul, U32.add.
  rewrite (wrap_small (cx * cy)) by lia.
  rewrite (wrap_small (py * lx)) by lia.
  rewrite (wrap_small (px * cy)) by lia.
  rewrite (wrap_small (py * lx + px * cy)) by lia.
  rewrite (wrap_small (64 * (cx * cy))) by lia.
  fold m.
  unfold _BitScanReverse.
  destruct (Z.ltb_spec 0 m) as [_|]; [|lia].
  unfold shl1_u32.
  destruct (Z.ltb_spec (Z.log2 m + 1) 32) as [_|]; [|lia].
  rewrite Z.shiftl_1_l. fold (nextPowerOfTwo m).
  rewrite (wrap_small (lx * cy)) by lia.
  destruct (Z.eqb_spec (lx * cy) 0) as [|_]; [lia|].
  destruct (negb _).
  - eexists. split; reflexivity.
  - destruct (Z.eqb_spec (cx * cy) 0) as [|_]; [lia|].
    eexists. split; reflexivity.
Qed.

(** C8: on every growth the computed new atlas area is a power of two and
    is at least [max (64 * cellArea) currentArea], where [currentArea] is
    the area of the full rows plus that of the partial row at the fill
    cursor. *)
Theorem C8_new_area_power_of_two limit pos cell :
  area_in_range limit pos cell ->
  exists g,
    atlasGrowth limit pos cell = Some g
    /\ is_power_of_two (newArea g)
    /\ Z.max (64 * (x cell * y cell)) (y pos * x limit + x pos * y cell) <= newArea g.
Proof.
  intros Hr.
  destruct (atlasGrowth_newArea limit pos cell Hr) as (g & Hg & Hna).
  exists g. split; [exact Hg|]. rewrite Hna.
  split; [apply nextPowerOfTwo_is_power|].
  apply Z.lt_le_incl. apply nextPowerOfTwo_gt.
  destruct Hr as [Hlx Hpx Hpy Hcx Hcy Hmin Hcur]. unfold neededArea. nia.
Qed.

Lemma C8_witness :
  area_in_range Sample.limit2048 (mk_u16x2 8 0) Sample.cell8x16
  /\ exists g,
       atlasGrowth Sample.limit2048 (mk_u16x2 8 0) Sample.cell8x16 = Some g
       /\ is_power_of_two (newArea g)
       /\ Z.max (64 * (8 * 16)) (0 * 2048 + 8 * 16) <= newArea g.
Proof.
  assert (Hr : area_in_range Sample.limit2048 (mk_u16x2 8 0) Sample.cell8x16)
    by (constructor; cbn; unfold u16_max; lia).
  split; [exact Hr|].
  apply (C8_new_area_power_of_two Sample.limit2048 (mk_u16x2 8 0) Sample.cell8x16 Hr).
Defined.

(** C2, as stated, fails: with cells of 8 by 16 pixels the floor of 64
    cells is 8192 pixels, already a power of two; rounding it up gives
    8192, a row of 64 cells (512 pixels), whereas the engine allocates
    16384 pixels, a row of 128 cells (1024 pixels). *)
Lemma C2_counterexample :
  outcome (_adjustAtlasSize Sample.cold_world) = Done tt
  /\ atlasSizeInPixel (r_ (world (_adjustAtlasSize Sample.cold_world))) = mk_u16x2 1024 16
  /\ Spec.newAtlasSize Spec.roundUpToPowerOfTwo Sample.limit2048 (mk_u16x2 8 0) Sample.cell8x16
     = mk_u16x2 512 16
  /\ atlasSizeInPixel (r_ (world (_adjustAtlasSize Sample.cold_world)))
     <> Spec.newAtlasSize Spec.roundUpToPowerOfTwo
          (atlasSizeInPixelLimit (r_ Sample.cold_world))
          (atlasPosition (r_ Sample.cold_world))
          (cellSize (r_ Sample.cold_world)).
Proof.
  repeat split; try (vm_compute; reflexivity).
  vm_compute. discriminate.
Qed.

(** C2, amended: whenever the capacity check triggers a growth, the new
    texture size follows the formula with [newArea] the smallest power of
    two strictly above [max (64 * cellArea) currentArea]; the height is
    [ceil (newArea / (limitWidth * cellHeight)) * cellHeight], the width is
    [limitWidth] for more than one row and [newArea / cellArea * cellWidth]
    otherwise, both clamped to the hardware limit. *)
Theorem C2_new_size w :
  in_range (atlasSizeInPixelLimit (r_ w)) (atlasPosition (r_ w)) (cellSize (r_ w)) ->
  atlasHasRoom (r_ w) = false ->
  outcome (_adjustAtlasSize w) = Done tt ->
  exists g hr,
    atlasGrowth (atlasSizeInPixelLimit (r_ w)) (atlasPosition (r_ w)) (cellSize (r_ w))
    = Some g
    /\ newArea g
       = nextPowerOfTwo
           (neededArea (atlasSizeInPixelLimit (r_ w)) (atlasPosition (r_ w)) (cellSize (r_ w)))
    /\ is_power_of_two (newArea g)
    /\ neededArea (atlasSizeInPixelLimit (r_ w)) (atlasPosition (r_ w)) (cellSize (r_ w))
       < newArea g
    /\ (forall k, 0 <= k ->
          neededArea (atlasSizeInPixelLimit (r_ w)) (atlasPosition (r_ w)) (cellSize (r_ w))
          < 2 ^ k ->
          newArea g <= 2 ^ k)
    /\ In (Call (CreateTexture2D (width g) (height g)) hr) (events (_adjustAtlasSize w))
    /\ atlasSizeInPixel (r_ (world (_adjustAtlasSize w)))
       = Spec.newAtlasSize nextPowerOfTwo
           (atlasSizeInPixelLimit (r_ w)) (atlasPosition (r_ w)) (cellSize (r_ w)).
Proof.
  intros Hr Hroom Hdone.
  destruct (adjustAtlasSize_Done w Hroom Hdone) as (g & hr1 & hr2 & Hg & _ & _ & Hw & Hev).
  set (limit := atlasSizeInPixelLimit (r_ w)) in *.
  set (pos := atlasPosition (r_ w)) in *.
  set (cell := cellSize (r_ w)) in *.
  pose proof (atlasGrowth_in_range limit pos cell Hr) as Hideal.
  rewrite Hideal in Hg. injection Hg as <-.
  assert (Hm : 0 < neededArea limit pos cell) by (destruct Hr; unfold neededArea; nia).
  exists (idealGrowth limit pos cell), hr1.
  split; [exact Hideal|].
  split; [reflexivity|].
  split; [apply nextPowerOfTwo_is_power|].
  split; [apply nextPowerOfTwo_gt; exact Hm|].
  split; [intros k Hk Hlt; apply nextPowerOfTwo_least; assumption|].
  split; [rewrite Hev; left; reflexivity|].
  rewrite Hw. cbn [set_invalidations set_atlasSizeInPixel atlasSizeInPixel].
  apply idealGrowth_size; exact Hr.
Qed.

Lemma C2_witness :
  in_range (atlasSizeInPixelLimit (r_ Sample.cold_world))
           (atlasPosition (r_ Sample.cold_world)) (cellSize (r_ Sample.cold_world))
  /\ atlasHasRoom (r_ Sample.cold_world) = false
  /\ outcome (_adjustAtlasSize Sample.cold_world) = Done tt
  /\ atlasSizeInPixel (r_ (world (_adjustAtlasSize Sample.cold_world)))
     = Spec.newAtlasSize nextPowerOfTwo Sample.limit2048 (mk_u16x2 8 0) Sample.cell8x16.
Proof.
  assert (Hr : in_range (atlasSizeInPixelLimit (r_ Sample.cold_world))
                        (atlasPosition (r_ Sample.cold_world))
                        (cellSize (r_ Sample.cold_world)))
    by (constructor; cbn; unfold u16_max; lia).
  split; [exact Hr|].
  split; [reflexivity|].
  split; [vm_compute; reflexivity|].
  destruct (C2_new_size Sample.cold_world Hr eq_refl) as (g & hr & H);
    [vm_compute; reflexivity|].
  apply H.
Defined.

(** C6: a growth of the atlas goes through whenever the size can be
    computed and the two creation calls succeed, and then: with a previous
    texture, the whole rectangle of the old texture, from its origin to its
    width and height, is copied to the origin of the new one, exactly once,
    and the Cursor flag is left as it was; on a cold first allocation no
    copy is issued and the Cursor invalidation flag is set. *)
Theorem C6_copy_or_invalidate w g :
  atlasHasRoom (r_ w) = false ->
  atlasGrowth (atlasSizeInPixelLimit (r_ w)) (atlasPosition (r_ w)) (cellSize (r_ w)) = Some g ->
  FAILED (hd S_OK (gpu w)) = false ->
  FAILED (hd S_OK (tl (gpu w))) = false ->
  outcome (_adjustAtlasSize w) = Done tt
  /\ atlasSizeInPixel (r_ (world (_adjustAtlasSize w))) = mk_u16x2 (width g) (height g)
  /\ if hasAtlas (r_ w)
     then filter is_atlasCopy (events (_adjustAtlasSize w))
          = [CopySubresourceRegion1 NewAtlasBuffer 0 0 AtlasBuffer
               (mk_box 0 0 (x (atlasSizeInPixel (r_ w))) (y (atlasSizeInPixel (r_ w))))
               D3D11_COPY_NO_OVERWRITE]
          /\ Cursor (invalidations (r_ (world (_adjustAtlasSize w))))
             = Cursor (invalidations (r_ w))
     else filter is_atlasCopy (events (_adjustAtlasSize w)) = []
          /\ Cursor (invalidations (r_ (world (_adjustAtlasSize w)))) = true.
Proof.
  intros Hroom Hg H1 H2.
  pose proof (adjustAtlasSize_succeeds w g Hroom Hg H1 H2) as Hdone.
  split; [exact Hdone|].
  destruct (adjustAtlasSize_Done w Hroom Hdone) as (g' & hr1 & hr2 & Hg' & _ & _ & Hw & Hev).
  rewrite Hg in Hg'. injection Hg' as <-.
  rewrite Hw, Hev. split; [reflexivity|].
  unfold atlasCopy. destruct (hasAtlas (r_ w)); cbn; split; reflexivity.
Qed.

Lemma C6_witness :
  (outcome (_adjustAtlasSize Frames.warm_growth) = Done tt
   /\ filter is_atlasCopy (events (_adjustAtlasSize Frames.warm_growth))
      = [CopySubresourceRegion1 NewAtlasBuffer 0 0 AtlasBuffer (mk_box 0 0 1024 16)
           D3D11_COPY_NO_OVERWRITE]
   /\ Cursor (invalidations (r_ (world (_adjustAtlasSize Frames.warm_growth)))) = false)
  /\ (outcome (_adjustAtlasSize Sample.cold_world) = Done tt
      /\ filter is_atlasCopy (events (_adjustAtlasSize Sample.cold_world)) = []
      /\ Cursor (invalidations (r_ (world (_adjustAtlasSize Sample.cold_world)))) = true).
Proof.
  split.
  - destruct (C6_copy_or_invalidate Frames.warm_growth
                (idealGrowth Sample.limit2048 (mk_u16x2 1024 0) Sample.cell8x16))
      as (Hd & _ & Hc & Hf); [reflexivity | vm_compute; reflexivity | reflexivity | reflexivity |].
    split; [exact Hd|]. split; [exact Hc | exact Hf].
  - destruct (C6_copy_or_invalidate Sample.cold_world
                (idealGrowth Sample.limit2048 (mk_u16x2 8 0) Sample.cell8x16))
      as (Hd & _ & Hc & Hf); [reflexivity | vm_compute; reflexivity | reflexivity | reflexivity |].
    split; [exact Hd|]. split; [exact Hc | exact Hf].
Defined.

(** A warm growth on a sample: the atlas of 1024 by 16 pixels is full, the
    new one is twice as wide and receives the old rectangle at its
    origin. *)
Example adjustAtlasSize_warm :
  events (_adjustAtlasSize
            (mk_world (Sample.warm D2D1_TEXT_ANTIALIAS_MODE_GRAYSCALE (mk_u16x2 1024 0)
                                   FullBox []) []))
  = [Call (CreateTexture2D 2048 16) 0; Call CreateShaderResourceView 0;
     CopySubresourceRegion1 NewAtlasBuffer 0 0 AtlasBuffer (mk_box 0 0 1024 16)
                            D3D11_COPY_NO_OVERWRITE].
Proof. vm_compute. reflexivity. Qed.

(** With a limit of 2048 by 2048 and cells of 8 by 16 pixels, a first row
    filled to its end (the fill cursor at the start of the second row)
    grows the atlas to two rows. *)
Example atlasGrowth_after_one_row :
  option_map (fun g => (width g, height g))
             (atlasGrowth Sample.limit2048 (mk_u16x2 0 16) Sample.cell8x16)
  = Some (2048, 32).
Proof. vm_compute. reflexivity. Qed.

(** Where the capacity check does settle: the cursor below the hardware
    limit and, for a single row, a cell area that divides the new area. *)
Lemma adjustAtlasSize_settles w :
  in_range (atlasSizeInPixelLimit (r_ w)) (atlasPosition (r_ w)) (cellSize (r_ w)) ->
  x (atlasPosition (r_ w)) < x (atlasSizeInPixelLimit (r_ w)) ->
  y (atlasPosition (r_ w)) < y (atlasSizeInPixelLimit (r_ w)) ->
  (forall g,
     atlasGrowth (atlasSizeInPixelLimit (r_ w)) (atlasPosition (r_ w)) (cellSize (r_ w))
     = Some g ->
     wantedHeight g = y (cellSize (r_ w)) -> newArea g mod perCellArea g = 0) ->
  atlasHasRoom (r_ w) = false ->
  outcome (_adjustAtlasSize w) = Done tt ->
  atlasHasRoom (r_ (world (_adjustAtlasSize w))) = true
  /\ atlasPosition (r_ (world (_adjustAtlasSize w))) = atlasPosition (r_ w).
Proof.
  intros Hr Hx Hy Hdiv Hroom Hdone.
  destruct (adjustAtlasSize_Done w Hroom Hdone) as (g & hr1 & hr2 & Hg & _ & _ & Hw & _).
  pose proof (atlasGrowth_in_range _ _ _ Hr) as Hideal.
  specialize (Hdiv _ Hideal).
  rewrite Hideal in Hg. injection Hg as <-.
  destruct (growth_covers_cursor _ _ _ Hr Hx Hy Hdiv) as [Hh Hwd].
  rewrite Hw. unfold atlasHasRoom.
  cbn [set_invalidations set_atlasSizeInPixel atlasSizeInPixel atlasPosition x y].
  split; [|reflexivity].
  apply andb_true_intro. split; apply Z.ltb_lt; assumption.
Qed.

(** C7 fails on the code: with cells of 9 by 19 pixels and the fill cursor
    at x = 855 the new area is 16384 pixels, which holds 95 whole cells,
    so the new texture is 855 pixels wide and the cursor is on its edge.
    The check run again, the cursor unchanged, creates the texture again. *)
Theorem C7_resize_repeats :
  outcome (_adjustAtlasSize Frames.full_row) = Done tt
  /\ atlasPosition (r_ (world (_adjustAtlasSize Frames.full_row))) = mk_u16x2 855 0
  /\ atlasSizeInPixel (r_ (world (_adjustAtlasSize Frames.full_row))) = mk_u16x2 855 19
  /\ atlasHasRoom (r_ (world (_adjustAtlasSize Frames.full_row))) = false
  /\ events (_adjustAtlasSize (world (_adjustAtlasSize Frames.full_row)))
     = [Call (CreateTexture2D 855 19) 0; Call CreateShaderResourceView 0;
        CopySubresourceRegion1 NewAtlasBuffer 0 0 AtlasBuffer (mk_box 0 0 855 19)
                               D3D11_COPY_NO_OVERWRITE].
Proof. repeat split; vm_compute; reflexivity. Qed.

(** ** Events of composed computations *)

Section Emits.

Variable P : Event -> Prop.

Lemma emits_ret {A} (a : A) : emits P (ret a).
Proof. intros w. constructor. Qed.

Lemma emits_bind {A B} (m : M A) (k : A -> M B) :
  emits P m -> (forall a, emits P (k a)) -> emits P (bind m k).
Proof.
  intros Hm Hk w. unfold bind. specialize (Hm w).
  destruct (m w) as [[a| | |] w1 e1]; cbn in *; try exact Hm.
  specialize (Hk a w1). destruct (k a w1) as [o w2 e2]; cbn in *.
  apply Forall_app. split; assumption.
Qed.

Lemma emits_get : emits P get.
Proof. intros w. constructor. Qed.

Lemma emits_modify f : emits P (modify f).
Proof. intros w. constructor. Qed.

Lemma emits_undefined {A} : emits P (@undefined A).
Proof. intros w. constructor. Qed.

Lemma emits_emit e : P e -> emits P (emit e).
Proof. intros He w. cbn. constructor; [exact He | constructor]. Qed.

Lemma emits_THROW_IF_FAILED c : (forall hr, P (Call c hr)) -> emits P (THROW_IF_FAILED c).
Proof.
  intros Hc w. unfold THROW_IF_FAILED.
  destruct (FAILED _); cbn; (constructor; [apply Hc | constructor]).
Qed.

Lemma emits_noexcept {A} (m : M A) : emits P m -> emits P (noexcept m).
Proof.
  intros Hm w. unfold noexcept. specialize (Hm w).
  destruct (m w) as [[a| | |] w1 e1]; exact Hm.
Qed.

Lemma emits_when b m : emits P m -> emits P (when b m).
Proof. intros Hm. destruct b; [exact Hm | apply emits_ret]. Qed.

Lemma emits_for_each {A} (l : list A) body :
  (forall a, In a l -> emits P (body a)) -> emits P (for_each l body).
Proof.
  induction l as [|a l IH]; intros Hbody; cbn [for_each].
  - apply emits_ret.
  - apply emits_bind.
    + apply Hbody. left. reflexivity.
    + intros _. apply IH. intros b Hb. apply Hbody. right. exact Hb.
Qed.

Lemma emits_with_target {A} (k : RenderTarget -> M A) :
  (forall t, emits P (k t)) -> emits P (with_target k).
Proof.
  intros Hk. unfold with_target. apply emits_bind; [apply emits_get|].
  intros r. destruct (d2dRenderTarget r); [apply Hk | apply emits_undefined].
Qed.

End Emits.

(** Breaks a goal [emits P m] down along the structure of [m]; what is
    left are the events themselves. *)
Ltac emits_step :=
  first
    [ apply emits_with_target; intros ?
    | apply emits_when
    | apply emits_noexcept
    | apply emits_ret | apply emits_get | apply emits_modify | apply emits_undefined
    | apply emits_emit
    | apply emits_THROW_IF_FAILED; intros ?
    | apply emits_bind; [|intros ?] ].

Ltac emits_go :=
  repeat first
    [ emits_step
    | match goal with
      | |- emits _ (if ?c then _ else _) => destruct c
      | |- emits _ (match ?x with _ => _ end) => destruct x eqn:?
      end ].

(** ** [_reserveScratchpadSize] *)

Lemma reserve_enough h minWidth w :
  minWidth <= scratchpadCellWidth (r_ w) ->
  _reserveScratchpadSize h minWidth w = mk_res (Done tt) w [].
Proof.
  intros H. unfold _reserveScratchpadSize. run.
  destruct (Z.leb_spec minWidth (scratchpadCellWidth (r_ w))); [reflexivity | lia].
Qed.

Lemma reserve_Done h minWidth w :
  scratchpadCellWidth (r_ w) < minWidth ->
  outcome (_reserveScratchpadSize h minWidth w) = Done tt ->
  ATLAS_D2D_SOFTWARE_RENDERING h = true
  /\ r_ (world (_reserveScratchpadSize h minWidth w)) =
     mk_r (realizedAntialiasingMode (r_ w)) (atlasSizeInPixelLimit (r_ w))
          (atlasSizeInPixel (r_ w))
          (atlasPosition (r_ w)) (cellSize (r_ w)) (cellSizeDIP (r_ w)) (dpi (r_ w))
          (maxEncounteredCellCount (r_ w)) (maxEncounteredCellCount (r_ w))
          (Some (U32.mul (x (cellSize (r_ w)))
                   (Z.max (Z.max 2 minWidth)
                      (scratchpadCellWidth (r_ w) + Z.shiftr (scratchpadCellWidth (r_ w)) 1)),
                 y (cellSize (r_ w))))
          (Some (mk_target (realizedAntialiasingMode (r_ w))))
          (typography (r_ w)) (mk_inval (Cursor (invalidations (r_ w))) true)
          (cursorOptions (r_ w)) (glyphQueue (r_ w))
  /\ exists hr1 hr2 hr3,
       events (_reserveScratchpadSize h minWidth w) =
       [Call (CreateBitmap
                (U32.mul (x (cellSize (r_ w)))
                   (Z.max (Z.max 2 minWidth)
                      (scratchpadCellWidth (r_ w) + Z.shiftr (scratchpadCellWidth (r_ w)) 1)))
                (y (cellSize (r_ w)))) hr1;
        Call CreateWicBitmapRenderTarget hr2;
        SetTextAntialiasMode (realizedAntialiasingMode (r_ w));
        Call CreateSolidColorBrush hr3].
Proof.
  intros Hlt. destruct w as [r g]. cbn [r_] in *.
  unfold _reserveScratchpadSize. run.
  destruct (Z.leb_spec minWidth (scratchpadCellWidth r)); [lia|].
  destruct (ATLAS_D2D_SOFTWARE_RENDERING h); run; [|discriminate].
  destruct (FAILED (hd S_OK g)); run; [discriminate|].
  destruct (FAILED (hd S_OK (tl g))); run; [discriminate|].
  destruct (FAILED (hd S_OK (tl (tl g)))); run; [discriminate|].
  intros _. split; [reflexivity|]. split; [reflexivity|].
  eexists _, _, _. reflexivity.
Qed.

(** One and a half times the capacity, in whole cells. *)
Lemma capacity_times_1_5 c : c + Z.shiftr c 1 = 3 * c / 2.
Proof.
  rewrite Z.shiftr_div_pow2 by lia. change (2 ^ 1) with 2.
  pose proof (Z.div_mod c 2 ltac:(lia)) as Hc.
  pose proof (Z.mod_pos_bound c 2 ltac:(lia)) as Hm.
  apply Z.div_unique with (r := c mod 2); lia.
Qed.

(** C4 fails on the code: the capacity recorded after a regrow is
    [maxEncounteredCellCount], whatever was asked for.  The cursor asks for
    one cell; on an engine that has met no glyph yet the surface comes out
    two cells wide and one cell tall, the recorded capacity stays 0, below
    the request, and the same request regrows the surface again. *)
Theorem C4_capacity_below_request :
  outcome (_reserveScratchpadSize Sample.header 1 Sample.cold_world) = Done tt
  /\ atlasScratchpad (r_ (world (_reserveScratchpadSize Sample.header 1 Sample.cold_world)))
     = Some (2 * 8, 16)
  /\ scratchpadCellWidth
       (r_ (world (_reserveScratchpadSize Sample.header 1 Sample.cold_world))) = 0
  /\ events (_reserveScratchpadSize Sample.header 1
               (world (_reserveScratchpadSize Sample.header 1 Sample.cold_world)))
     = [Call (CreateBitmap 16 16) 0; Call CreateWicBitmapRenderTarget 0;
        SetTextAntialiasMode D2D1_TEXT_ANTIALIAS_MODE_GRAYSCALE;
        Call CreateSolidColorBrush 0].
Proof. repeat split; vm_compute; reflexivity. Qed.

(** What does hold of a regrow: the surface is one cell tall and
    [max 2 minWidth (capacity * 1.5)] cells wide. *)
Lemma reserve_regrows_to h minWidth w :
  scratchpadCellWidth (r_ w) < minWidth ->
  outcome (_reserveScratchpadSize h minWidth w) = Done tt ->
  atlasScratchpad (r_ (world (_reserveScratchpadSize h minWidth w)))
  = Some (U32.mul (x (cellSize (r_ w)))
            (Z.max (Z.max 2 minWidth) (3 * scratchpadCellWidth (r_ w) / 2)),
          y (cellSize (r_ w))).
Proof.
  intros Hlt Hdone.
  destruct (reserve_Done h minWidth w Hlt Hdone) as (_ & Hw & _).
  rewrite Hw. cbn [atlasScratchpad]. rewrite capacity_times_1_5. reflexivity.
Qed.

(** In general the recorded capacity is the widest span met so far, so it
    reaches the request exactly when the request does not exceed that. *)
Lemma reserve_records_maxEncountered h minWidth w :
  scratchpadCellWidth (r_ w) < minWidth ->
  outcome (_reserveScratchpadSize h minWidth w) = Done tt ->
  scratchpadCellWidth (r_ (world (_reserveScratchpadSize h minWidth w)))
  = maxEncounteredCellCount (r_ w).
Proof.
  intros Hlt Hdone.
  destruct (reserve_Done h minWidth w Hlt Hdone) as (_ & Hw & _).
  rewrite Hw. reflexivity.
Qed.

(** ** Inverting and reading composed computations *)

Lemma bind_Done {A B} (m : M A) (k : A -> M B) w b :
  outcome (bind m k w) = Done b ->
  exists a,
    outcome (m w) = Done a
    /\ outcome (k a (world (m w))) = Done b
    /\ world (bind m k w) = world (k a (world (m w)))
    /\ events (bind m k w) = events (m w) ++ events (k a (world (m w))).
Proof.
  unfold bind. destruct (m w) as [[a| | |] w1 e1]; cbn; try discriminate.
  destruct (k a w1) as [o w2 e2] eqn:Hk; cbn. intros ->.
  exists a. rewrite Hk. repeat split.
Qed.

Lemma collect_app {B} (f : Event -> option B) e1 e2 :
  collect f (e1 ++ e2) = collect f e1 ++ collect f e2.
Proof.
  induction e1 as [|e e1 IH]; cbn; [reflexivity|].
  destruct (f e); cbn; rewrite IH; reflexivity.
Qed.

Lemma collect_none {B} (f : Event -> option B) evs :
  Forall (fun e => f e = None) evs -> collect f evs = [].
Proof.
  induction 1 as [|e evs He _ IH]; cbn; [reflexivity|].
  rewrite He. exact IH.
Qed.

Lemma collect_In {B} (f : Event -> option B) evs b :
  In b (collect f evs) -> exists e, In e evs /\ f e = Some b.
Proof.
  induction evs as [|e evs IH]; cbn; [intros []|].
  destruct (f e) as [b'|] eqn:He.
  - intros [<-|Hin].
    + exists e. split; [left; reflexivity | exact He].
    + destruct (IH Hin) as (e' & He' & Hf). exists e'. split; [right|]; assumption.
  - intros Hin. destruct (IH Hin) as (e' & He' & Hf). exists e'. split; [right|]; assumption.
Qed.

(** ** [_copyScratchpadTile] and [_drawGlyph] *)

Lemma copyScratchpadTile_emits (P : Event -> Prop) h i t f :
  (forall c hr, tileCopyFlags (Call c hr) = None -> P (Call c hr)) ->
  (forall right bottom, P (UpdateSubresource1 AtlasBuffer (mk_box (x t) (y t) right bottom) f)) ->
  (forall box, P (CopySubresourceRegion1 AtlasBuffer (x t) (y t) Scratchpad box f)) ->
  emits P (_copyScratchpadTile h i t f).
Proof.
  intros Hcall Hup Hcopy. unfold _copyScratchpadTile.
  emits_go; try (apply Hcall; reflexivity); [apply Hup | apply Hcopy].
Qed.

(** The loop at the end of [_drawGlyph]. *)
Lemma drawGlyph_tiles_emits (P : Event -> Prop) h (cs : list u16x2) (l : list nat) :
  (forall c hr, P (Call c hr)) ->
  (forall t right bottom, In t cs ->
     P (UpdateSubresource1 AtlasBuffer (mk_box (x t) (y t) right bottom) 0)) ->
  (forall t box, In t cs ->
     P (CopySubresourceRegion1 AtlasBuffer (x t) (y t) Scratchpad box 0)) ->
  emits P (for_each l
             (fun i =>
                match nth_error cs i with
                | None => undefined
                | Some c => _copyScratchpadTile h (Z.of_nat i) c 0
                end)).
Proof.
  intros Hother Hup Hcopy. apply emits_for_each. intros i _.
  destruct (nth_error cs i) as [c|] eqn:Hc; [|apply emits_undefined].
  apply nth_error_In in Hc.
  apply copyScratchpadTile_emits.
  - intros c0 hr _. apply Hother.
  - intros. apply Hup. exact Hc.
  - intros. apply Hcopy. exact Hc.
Qed.

Lemma drawGlyph_emits (P : Event -> Prop) h item :
  (forall e, tileCopyFlags e = None -> P e) ->
  (forall t right bottom, In t (coords (value item)) ->
     P (UpdateSubresource1 AtlasBuffer (mk_box (x t) (y t) right bottom) 0)) ->
  (forall t box, In t (coords (value item)) ->
     P (CopySubresourceRegion1 AtlasBuffer (x t) (y t) Scratchpad box 0)) ->
  emits P (_drawGlyph h item).
Proof.
  intros Hother Hup Hcopy. unfold _drawGlyph.
  unfold d2d_SetTextAntialiasMode, d2d_BeginDraw, d2d_Clear, d2d_DrawTextLayout, d2d_EndDraw.
  repeat first
    [ apply drawGlyph_tiles_emits;
      [intros c hr; apply Hother; reflexivity | assumption | assumption]
    | emits_step
    | match goal with
      | |- emits _ (if ?c then _ else _) => destruct c
      end ];
    apply Hother; reflexivity.
Qed.

(** Every tile copy [_drawGlyph] issues carries the copy flags 0. *)
Lemma drawGlyph_copy_flags h item w :
  Forall (fun f => f = 0) (collect tileCopyFlags (events (_drawGlyph h item w))).
Proof.
  apply Forall_forall. intros f Hf.
  destruct (collect_In _ _ _ Hf) as (e & He & Hfe).
  pose proof (drawGlyph_emits (fun e => forall f, tileCopyFlags e = Some f -> f = 0) h item)
    as Hem.
  assert (Hall : Forall (fun e => forall f, tileCopyFlags e = Some f -> f = 0)
                        (events (_drawGlyph h item w))).
  { apply Hem.
    - intros e0 H0 f0 H1. congruence.
    - intros t r b _ f0 H1. cbn in H1. congruence.
    - intros t box _ f0 H1. cbn in H1. congruence. }
  rewrite Forall_forall in Hall. exact (Hall e He f Hfe).
Qed.

(** Every tile copy [_drawGlyph] issues lands on a coordinate of the
    queued value. *)
Lemma drawGlyph_copy_targets h item w :
  Forall (fun t => In t (coords (value item)))
         (collect tileCopyTarget (events (_drawGlyph h item w))).
Proof.
  apply Forall_forall. intros t Ht.
  destruct (collect_In _ _ _ Ht) as (e & He & Hte).
  assert (Hall : Forall (fun e => forall t, tileCopyTarget e = Some t ->
                                            In t (coords (value item)))
                        (events (_drawGlyph h item w))).
  { apply (drawGlyph_emits
             (fun e => forall t, tileCopyTarget e = Some t -> In t (coords (value item)))).
    - intros e0 H0 t0 H1.
      destruct e0 as [| [] ? ? [] ? ? | [] ? ? | | | | | | | | | | |]; cbn in *; congruence.
    - intros t0 r b Hin t1 H1. cbn in H1. injection H1 as <-. destruct t0; exact Hin.
    - intros t0 box Hin t1 H1. cbn in H1. injection H1 as <-. destruct t0; exact Hin. }
  rewrite Forall_forall in Hall. exact (Hall e He t Hte).
Qed.

Lemma drawGlyph_tiles_no_raster h cs l w :
  collect rasterMode
    (events (for_each l
               (fun i =>
                  match nth_error cs i with
                  | None => undefined
                  | Some c => _copyScratchpadTile h (Z.of_nat i) c 0
                  end) w)) = [].
Proof.
  apply collect_none.
  apply (drawGlyph_tiles_emits (fun e => rasterMode e = None)); reflexivity.
Qed.


(** The mode a queued glyph is rasterized in, once its text layout is
    created: under ClearType the render target is switched per glyph, under
    any other configured mode it is left alone. *)
Lemma drawGlyph_raster_mode h item w t :
  d2dRenderTarget (r_ w) = Some t ->
  collect rasterMode (events (_drawGlyph h item w)) =
  if FAILED (hd S_OK (gpu w)) then []
  else [if aa_eqb (realizedAntialiasingMode (r_ w)) D2D1_TEXT_ANTIALIAS_MODE_CLEARTYPE
        then if ColoredGlyph (value item)
             then D2D1_TEXT_ANTIALIAS_MODE_GRAYSCALE
             else D2D1_TEXT_ANTIALIAS_MODE_CLEARTYPE
        else textAntialiasMode t].
Proof.
  intros Ht. destruct w as [r g]. cbn [r_ gpu] in *.
  unfold _drawGlyph. run.
  destruct (FAILED (hd S_OK g)); run; [reflexivity|].
  destruct (typography r); run;
    (destruct (aa_eqb (realizedAntialiasingMode r) D2D1_TEXT_ANTIALIAS_MODE_CLEARTYPE);
     run; repeat (rewrite Ht; run);
     (destruct (FAILED (hd S_OK (tl g))); run; [reflexivity|]);
     match goal with
     | |- context [for_each ?l ?body ?w'] =>
       assert (Hloop : collect rasterMode (events (for_each l body w')) = [])
         by exact (drawGlyph_tiles_no_raster h (coords (value item)) l w');
       set (res := for_each l body w') in *; clearbody res; destruct res as [o w2 e2]
     end;
     cbn [events] in *; cbn; rewrite Hloop; reflexivity).
Qed.


Lemma bind_get_run {B} (k : Resources -> M B) w : bind get k w = k (r_ w) w.
Proof. unfold bind, get. destruct (k (r_ w) w) as [[b| | |] w2 e2]; reflexivity. Qed.


(** ** [_drawCursor] *)

Lemma reserve_emits h n : emits (fun e => is_reserve_event e = true) (_reserveScratchpadSize h n).
Proof.
  unfold _reserveScratchpadSize, d2d_SetTextAntialiasMode.
  emits_go; reflexivity.
Qed.

Lemma reserve_collect_none {B} (f : Event -> option B) h n w :
  (forall e, is_reserve_event e = true -> f e = None) ->
  collect f (events (_reserveScratchpadSize h n w)) = [].
Proof.
  intros Hf. apply collect_none.
  eapply Forall_impl; [|apply reserve_emits]. exact Hf.
Qed.

(** A completed reserve leaves the cell metrics and the cursor options. *)
Lemma reserve_frame h n w :
  outcome (_reserveScratchpadSize h n w) = Done tt ->
  cellSize (r_ (world (_reserveScratchpadSize h n w))) = cellSize (r_ w)
  /\ cellSizeDIP (r_ (world (_reserveScratchpadSize h n w))) = cellSizeDIP (r_ w)
  /\ dpi (r_ (world (_reserveScratchpadSize h n w))) = dpi (r_ w)
  /\ cursorOptions (r_ (world (_reserveScratchpadSize h n w))) = cursorOptions (r_ w).
Proof.
  intros Hdone.
  destruct (Z.le_gt_cases n (scratchpadCellWidth (r_ w))) as [Hle|Hgt].
  - rewrite (reserve_enough h n w Hle). repeat split.
  - destruct (reserve_Done h n w Hgt Hdone) as (_ & Hw & _).
    rewrite Hw. repeat split.
Qed.

Lemma U32_mul_0_l c : U32.mul 0 c = 0.
Proof. unfold U32.mul, U32.wrap. rewrite Z.mul_0_l. reflexivity. Qed.

(** What a completed cursor redraw issues after the reserve: the shapes
    and the copy of tile 0 to the origin of the atlas. *)
Lemma drawCursor_Done h w :
  outcome (_drawCursor h w) = Done tt ->
  collect shape (events (_drawCursor h w))
  = Spec.cursorShapes (cursorType (cursorOptions (r_ w)))
      (fx (cellSizeDIP (r_ w))) (fy (cellSizeDIP (r_ w)))
      (lineWidth (dpi (r_ w))) (heightPercentage (cursorOptions (r_ w)))
  /\ Forall (fun s => s = lineWidth (dpi (r_ w)))
            (collect strokeWidthOf (events (_drawCursor h w)))
  /\ collect tileCopyTarget (events (_drawCursor h w)) = [u16x2_zero]
  /\ collect tileSourceOffset (events (_drawCursor h w)) = [0]
  /\ collect tileCopyFlags (events (_drawCursor h w)) = [copyFlags_default h].
Proof.
  intros Hdone. unfold _drawCursor in *.
  apply bind_Done in Hdone.
  destruct Hdone as ([] & Hres & Hrest & _ & Hev).
  rewrite Hev. rewrite !collect_app.
  rewrite !reserve_collect_none
    by (intros [[]| | | | | | | | | | | | |]; cbn; congruence).
  cbn [app].
  destruct (reserve_frame h 1 w Hres) as (Hcs & Hdip & Hdpi & Hco).
  set (w1 := world (_reserveScratchpadSize h 1 w)) in *. clearbody w1.
  destruct w1 as [r1 g1]. cbn [r_] in *.
  rewrite <- Hdip, <- Hdpi, <- Hco. clear Hcs Hdip Hdpi Hco Hres Hev.
  revert Hrest. run.
  destruct (d2dRenderTarget r1) as [t|] eqn:Ht; run; [|intros Hx; discriminate Hx].
  unfold cursorRect.
  destruct (cursorType (cursorOptions r1)); run; repeat (rewrite Ht; run);
    (destruct (FAILED (hd S_OK g1)); run; [intros Hx; discriminate Hx|]);
    (destruct (ATLAS_D2D_SOFTWARE_RENDERING h); run;
     [ destruct (atlasScratchpad r1); run; [|intros Hx; discriminate Hx];
       (destruct (FAILED (hd S_OK (tl g1))); run; [intros Hx; discriminate Hx|]);
       (destruct (FAILED (hd S_OK (tl (tl g1)))); run; [intros Hx; discriminate Hx|]);
       (destruct (FAILED (hd S_OK (tl (tl (tl g1))))); run; [intros Hx; discriminate Hx|])
     | ]);
    intros _; rewrite ?U32_mul_0_l; repeat split; repeat constructor.
Qed.

(** ** The pipeline step by step *)

Lemma quiet_nil : quiet [].
Proof. constructor. Qed.

Lemma all_ok_nil : all_ok [].
Proof. constructor. Qed.

Lemma quiet_app e1 e2 : quiet e1 -> quiet e2 -> quiet (e1 ++ e2).
Proof. intros H1 H2. apply Forall_app. split; assumption. Qed.

Lemma all_ok_app e1 e2 : all_ok e1 -> all_ok e2 -> all_ok (e1 ++ e2).
Proof. intros H1 H2. apply Forall_app. split; assumption. Qed.

Create HintDb frame.
#[local] Hint Resolve quiet_nil all_ok_nil quiet_app all_ok_app : frame.

Lemma step_ok_ret {A} (a : A) : step_ok (ret a).
Proof. intros w. cbn. auto with frame. Qed.

Lemma step_ok_get : step_ok get.
Proof. intros w. cbn. auto with frame. Qed.

Lemma step_ok_modify f : step_ok (modify f).
Proof. intros w. cbn. auto with frame. Qed.

Lemma step_ok_undefined {A} : step_ok (@undefined A).
Proof. intros w. cbn. auto with frame. Qed.

Lemma step_ok_emit e : is_present e = false -> succeeded e = true -> step_ok (emit e).
Proof.
  intros Hq Hs w. cbn. split; (constructor; [assumption | constructor]).
Qed.

Lemma step_ok_THROW_IF_FAILED c :
  is_present (Call c S_OK) = false -> step_ok (THROW_IF_FAILED c).
Proof.
  intros Hq w. unfold THROW_IF_FAILED.
  destruct (FAILED (hd S_OK (gpu w))) eqn:Hf; cbn.
  - split; [exact Hf|]. exists [], c.
    repeat split; [apply quiet_nil | apply all_ok_nil | exact Hq].
  - split; (constructor; [|constructor]); [exact Hq | cbn; rewrite Hf; reflexivity].
Qed.

Lemma step_ok_bind {A B} (m : M A) (k : A -> M B) :
  step_ok m -> (forall a, step_ok (k a)) -> step_ok (bind m k).
Proof.
  intros Hm Hk w. unfold bind. specialize (Hm w).
  destruct (m w) as [[a| | |] w1 e1]; try exact Hm.
  destruct Hm as [Hq1 Ho1].
  specialize (Hk a w1). destruct (k a w1) as [[b| | |] w2 e2].
  - destruct Hk. auto with frame.
  - destruct Hk as (Hf & pre & c & -> & Hq & Ho & Hp).
    split; [exact Hf|]. exists (e1 ++ pre), c.
    rewrite app_assoc. auto with frame.
  - destruct Hk as (hr & pre & Hf & -> & Hq & Ho).
    exists hr, (e1 ++ pre). rewrite app_assoc. auto with frame.
  - destruct Hk. auto with frame.
Qed.

Lemma step_ok_when b m : step_ok m -> step_ok (when b m).
Proof. intros Hm. destruct b; [exact Hm | apply step_ok_ret]. Qed.

Lemma step_ok_for_each {A} (l : list A) body :
  (forall a, step_ok (body a)) -> step_ok (for_each l body).
Proof.
  intros Hbody. induction l as [|a l IH]; cbn [for_each].
  - apply step_ok_ret.
  - apply step_ok_bind; [apply Hbody | intros _; exact IH].
Qed.

Lemma step_ok_with_target {A} (k : RenderTarget -> M A) :
  (forall t, step_ok (k t)) -> step_ok (with_target k).
Proof.
  intros Hk. unfold with_target. apply step_ok_bind; [apply step_ok_get|].
  intros r. destruct (d2dRenderTarget r); [apply Hk | apply step_ok_undefined].
Qed.

(** [noexcept] around the one call that can fail in [_updateConstantBuffer]. *)
Lemma step_ok_updateConstantBuffer : step_ok _updateConstantBuffer.
Proof.
  intros w. unfold _updateConstantBuffer. run.
  destruct (FAILED (hd S_OK (gpu w))) eqn:Hf; run.
  - exists (hd S_OK (gpu w)), []. repeat split; auto with frame.
  - split; repeat constructor. cbn. rewrite Hf. reflexivity.
Qed.

Ltac step_go :=
  repeat first
    [ apply step_ok_updateConstantBuffer
    | apply step_ok_with_target; intros ?
    | apply step_ok_when
    | apply step_ok_for_each; intros ?
    | apply step_ok_ret | apply step_ok_get | apply step_ok_modify
    | apply step_ok_undefined
    | apply step_ok_emit; reflexivity
    | apply step_ok_THROW_IF_FAILED; reflexivity
    | apply step_ok_bind; [|intros ?]
    | match goal with
      | |- step_ok (let _ := _ in _) => cbv zeta
      | |- step_ok (if ?c then _ else _) => destruct c
      | |- step_ok (match ?x with _ => _ end) => destruct x eqn:?
      end ].

Lemma step_ok_adjustAtlasSize : step_ok _adjustAtlasSize.
Proof. unfold _adjustAtlasSize, _setShaderResources, update_invalidations. step_go. Qed.

Lemma step_ok_reserveScratchpadSize h n : step_ok (_reserveScratchpadSize h n).
Proof.
  unfold _reserveScratchpadSize, d2d_SetTextAntialiasMode, update_invalidations. step_go.
Qed.

Lemma step_ok_copyScratchpadTile h i t f : step_ok (_copyScratchpadTile h i t f).
Proof. unfold _copyScratchpadTile. step_go. Qed.

Lemma step_ok_drawGlyph h item : step_ok (_drawGlyph h item).
Proof.
  unfold _drawGlyph, d2d_SetTextAntialiasMode, d2d_BeginDraw, d2d_Clear,
    d2d_DrawTextLayout, d2d_EndDraw.
  repeat first [ apply step_ok_copyScratchpadTile | progress step_go ].
Qed.

Lemma step_ok_processGlyphQueue h : step_ok (_processGlyphQueue h).
Proof.
  unfold _processGlyphQueue.
  repeat first [ apply step_ok_drawGlyph | progress step_go ].
Qed.

Lemma step_ok_drawCursor h : step_ok (_drawCursor h).
Proof.
  unfold _drawCursor, d2d_BeginDraw, d2d_Clear, d2d_FillRectangle, d2d_DrawRectangle,
    d2d_EndDraw.
  repeat first
    [ apply step_ok_reserveScratchpadSize | apply step_ok_copyScratchpadTile
    | progress step_go ].
Qed.

Lemma frame_ok_bind {A} (m : M A) (k : A -> M unit) :
  step_ok m -> (forall a, frame_ok (k a)) -> frame_ok (bind m k).
Proof.
  intros Hm Hk w. unfold bind. specialize (Hm w).
  destruct (m w) as [[a| | |] w1 e1].
  - destruct Hm as [Hq1 Ho1].
    specialize (Hk a w1). destruct (k a w1) as [[b| | |] w2 e2].
    + destruct Hk as (pre & hr1 & hr2 & hr3 & hr4 & hr5 & -> & Hq & Ho & Hf).
      exists (e1 ++ pre), hr1, hr2, hr3, hr4, hr5.
      rewrite app_assoc. auto with frame.
    + destruct Hk as (Hf & pre & c & -> & Hq & Ho).
      split; [exact Hf|]. exists (e1 ++ pre), c.
      rewrite app_assoc. auto with frame.
    + destruct Hk as (hr & pre & Hf & -> & Hq & Ho).
      exists hr, (e1 ++ pre). rewrite app_assoc. auto with frame.
    + destruct Hk. auto with frame.
  - destruct Hm as (Hf & pre & c & -> & Hq & Ho & _).
    split; [exact Hf|]. exists pre, c. auto.
  - exact Hm.
  - exact Hm.
Qed.

(** The end of the pipeline, from the upload of the cell buffer on. *)
Lemma frame_ok_tail :
  frame_ok (THROW_IF_FAILED CellBuffer_Map ;;
            emit CellBuffer_memcpy ;;
            emit (Draw 3 0) ;;
            THROW_IF_FAILED CommandAllocator_Reset ;;
            THROW_IF_FAILED CommandList_Reset ;;
            emit (DrawInstanced 3 1 0 0) ;;
            THROW_IF_FAILED CommandList_Close ;;
            THROW_IF_FAILED (SwapChain_Present 1 0)).
Proof.
  intros [r g]. run.
  destruct (FAILED (hd S_OK g)) eqn:H1; run.
  { split; [exact H1|]. exists [], CellBuffer_Map. auto with frame. }
  destruct (FAILED (hd S_OK (tl g))) eqn:H2; run.
  { split; [exact H2|]. eexists [_; _; _], CommandAllocator_Reset.
    repeat split; repeat constructor. cbn. rewrite H1. reflexivity. }
  destruct (FAILED (hd S_OK (tl (tl g)))) eqn:H3; run.
  { split; [exact H3|]. eexists [_; _; _; _], CommandList_Reset.
    repeat split; repeat constructor; cbn; rewrite ?H1, ?H2; reflexivity. }
  destruct (FAILED (hd S_OK (tl (tl (tl g))))) eqn:H4; run.
  { split; [exact H4|]. eexists [_; _; _; _; _; _], CommandList_Close.
    repeat split; repeat constructor; cbn; rewrite ?H1, ?H2, ?H3; reflexivity. }
  destruct (FAILED (hd S_OK (tl (tl (tl (tl g)))))) eqn:H5; run.
  { split; [exact H5|]. eexists [_; _; _; _; _; _; _], (SwapChain_Present 1 0).
    repeat split; repeat constructor; cbn; rewrite ?H1, ?H2, ?H3, ?H4; reflexivity. }
  exists [], (hd S_OK g), (hd S_OK (tl g)), (hd S_OK (tl (tl g))),
    (hd S_OK (tl (tl (tl g)))), (hd S_OK (tl (tl (tl (tl g))))).
  repeat split; auto with frame.
Qed.

Lemma frame_ok_Present_try h : frame_ok (Present_try h).
Proof.
  unfold Present_try.
  apply frame_ok_bind; [apply step_ok_adjustAtlasSize | intros _].
  apply frame_ok_bind; [apply step_ok_get | intros r].
  apply frame_ok_bind; [apply step_ok_reserveScratchpadSize | intros _].
  apply frame_ok_bind; [apply step_ok_processGlyphQueue | intros _].
  apply frame_ok_bind; [apply step_ok_get | intros r1].
  apply frame_ok_bind.
  { apply step_ok_when. apply step_ok_bind; [apply step_ok_drawCursor | intros _].
    apply step_ok_modify. }
  intros _.
  apply frame_ok_bind; [apply step_ok_get | intros r2].
  apply frame_ok_bind.
  { apply step_ok_when.
    apply step_ok_bind; [apply step_ok_updateConstantBuffer | intros _].
    apply step_ok_modify. }
  intros _. apply frame_ok_tail.
Qed.

(** ** The state a completed frame leaves *)

Lemma triple_weaken {A} (P P' Q Q' : Resources -> Prop) (m : M A) :
  (forall r, P r -> P' r) -> triple P' m Q' -> (forall r, Q' r -> Q r) -> triple P m Q.
Proof. intros HP Hm HQ w a Hw Hd. apply HQ. apply (Hm w a); auto. Qed.

Lemma triple_ret {A} P (a : A) : triple P (ret a) P.
Proof. intros w b Hw _. exact Hw. Qed.

Lemma triple_emit P e : triple P (emit e) P.
Proof. intros w b Hw _. exact Hw. Qed.

Lemma triple_undefined {A} P Q : triple P (@undefined A) Q.
Proof. intros w b _ Hd. discriminate Hd. Qed.

Lemma triple_THROW_IF_FAILED P c : triple P (THROW_IF_FAILED c) P.
Proof.
  intros w b Hw _. unfold THROW_IF_FAILED. destruct (FAILED _); exact Hw.
Qed.

Lemma triple_modify (P Q : Resources -> Prop) f :
  (forall r, P r -> Q (f r)) -> triple P (modify f) Q.
Proof. intros Hf w b Hw _. cbn. apply Hf. exact Hw. Qed.

Lemma triple_bind {A B} (P R Q : Resources -> Prop) (m : M A) (k : A -> M B) :
  triple P m R -> (forall a, triple R (k a) Q) -> triple P (bind m k) Q.
Proof.
  intros Hm Hk w b Hw Hd.
  destruct (bind_Done m k w b Hd) as (a & Hma & Hka & Hwd & _).
  rewrite Hwd. apply (Hk a (world (m w)) b); [|exact Hka].
  apply (Hm w a); assumption.
Qed.

Lemma triple_get_bind {B} (P Q : Resources -> Prop) (k : Resources -> M B) :
  (forall r, triple (fun r' => P r' /\ r' = r) (k r) Q) -> triple P (bind get k) Q.
Proof.
  intros Hk w b Hw Hd.
  destruct (bind_Done get k w b Hd) as (r & Hr & Hkr & Hwd & _).
  cbn in Hr. injection Hr as <-. rewrite Hwd. cbn [get world] in *.
  apply (Hk (r_ w) w b); [split; [exact Hw | reflexivity] | exact Hkr].
Qed.

Lemma triple_when (P Q : Resources -> Prop) b m :
  (b = true -> triple P m Q) -> (b = false -> forall r, P r -> Q r) ->
  triple P (when b m) Q.
Proof.
  intros Ht Hf. destruct b.
  - apply Ht. reflexivity.
  - intros w a Hw _. cbn. apply Hf; [reflexivity | exact Hw].
Qed.

Lemma triple_noexcept {A} P Q (m : M A) : triple P m Q -> triple P (noexcept m) Q.
Proof.
  intros Hm w a Hw. specialize (Hm w). unfold noexcept.
  destruct (m w) as [[b| | |] w1 e1]; cbn in *; intros Hd; try discriminate Hd.
  apply (Hm b Hw). reflexivity.
Qed.

Lemma triple_for_each {A} (I : Resources -> Prop) (l : list A) body :
  (forall a, triple I (body a) I) -> triple I (for_each l body) I.
Proof.
  intros Hbody. induction l as [|a l IH]; cbn [for_each].
  - apply triple_ret.
  - eapply triple_bind; [apply Hbody | intros _; exact IH].
Qed.

Lemma triple_with_target {A} P Q (k : RenderTarget -> M A) :
  (forall t, triple P (k t) Q) -> triple P (with_target k) Q.
Proof.
  intros Hk. unfold with_target. apply triple_get_bind. intros r.
  destruct (d2dRenderTarget r).
  - eapply triple_weaken; [|apply Hk|]; [intros r' [H _]; exact H | auto].
  - apply triple_undefined.
Qed.

(** The rules for a view that a step leaves alone. *)
Section Keeps.

Context {B : Type} (f : Resources -> B).

Lemma keeps_ret {A} (a : A) : keeps f (ret a).
Proof. intros v. apply triple_ret. Qed.

Lemma keeps_emit e : keeps f (emit e).
Proof. intros v. apply triple_emit. Qed.

Lemma keeps_undefined {A} : keeps f (@undefined A).
Proof. intros v. apply triple_undefined. Qed.

Lemma keeps_THROW_IF_FAILED c : keeps f (THROW_IF_FAILED c).
Proof. intros v. apply triple_THROW_IF_FAILED. Qed.

Lemma keeps_modify g : (forall r, f (g r) = f r) -> keeps f (modify g).
Proof. intros Hg v. apply triple_modify. intros r <-. apply Hg. Qed.

Lemma keeps_bind {A C} (m : M A) (k : A -> M C) :
  keeps f m -> (forall a, keeps f (k a)) -> keeps f (bind m k).
Proof. intros Hm Hk v. eapply triple_bind; [apply Hm | intros a; apply Hk]. Qed.

Lemma keeps_get_bind {C} (k : Resources -> M C) :
  (forall r, keeps f (k r)) -> keeps f (bind get k).
Proof.
  intros Hk v. apply triple_get_bind. intros r.
  eapply triple_weaken; [|apply (Hk r v)|]; [intros r' [H _]; exact H | auto].
Qed.

Lemma keeps_when b m : keeps f m -> keeps f (when b m).
Proof. intros Hm. destruct b; [exact Hm | apply keeps_ret]. Qed.

Lemma keeps_noexcept {A} (m : M A) : keeps f m -> keeps f (noexcept m).
Proof. intros Hm v. apply triple_noexcept. apply Hm. Qed.

Lemma keeps_for_each {A} (l : list A) body :
  (forall a, keeps f (body a)) -> keeps f (for_each l body).
Proof. intros Hb v. apply triple_for_each. intros a. apply Hb. Qed.

Lemma keeps_with_target {A} (k : RenderTarget -> M A) :
  (forall t, keeps f (k t)) -> keeps f (with_target k).
Proof. intros Hk v. apply triple_with_target. intros t. apply Hk. Qed.

End Keeps.

Ltac keeps_go :=
  repeat first
    [ apply keeps_with_target; intros ?
    | apply keeps_when
    | apply keeps_noexcept
    | apply keeps_for_each; intros ?
    | apply keeps_ret | apply keeps_emit | apply keeps_undefined
    | apply keeps_THROW_IF_FAILED
    | apply keeps_modify; intros ?; reflexivity
    | apply keeps_get_bind; intros ?
    | apply keeps_bind; [|intros ?]
    | match goal with
      | |- keeps _ (let _ := _ in _) => cbv zeta
      | |- keeps _ (if ?c then _ else _) => destruct c
      | |- keeps _ (match ?x with _ => _ end) => destruct x eqn:?
      end ].

(** What a cursor redraw leaves alone: the queue and the Cursor flag. *)
Lemma keeps_drawCursor h :
  keeps (fun r => (glyphQueue r, Cursor (invalidations r))) (_drawCursor h).
Proof.
  unfold _drawCursor, _reserveScratchpadSize, _copyScratchpadTile,
    d2d_SetTextAntialiasMode, d2d_BeginDraw, d2d_Clear, d2d_FillRectangle,
    d2d_DrawRectangle, d2d_EndDraw, update_invalidations.
  keeps_go.
Qed.

Lemma keeps_updateConstantBuffer {B} (f : Resources -> B) : keeps f _updateConstantBuffer.
Proof. unfold _updateConstantBuffer. keeps_go. Qed.

Lemma processGlyphQueue_drains h :
  triple (fun _ => True) (_processGlyphQueue h) (fun r => glyphQueue r = []).
Proof.
  unfold _processGlyphQueue. apply triple_get_bind. intros r.
  destruct (glyphQueue r) as [|item queue] eqn:Hq.
  - apply triple_weaken
      with (P' := fun r' => glyphQueue r' = []) (Q' := fun r' => glyphQueue r' = []);
      [|apply triple_ret|auto].
    intros r' [_ ->]. exact Hq.
  - eapply triple_bind with (R := fun _ => True).
    + intros w a _ _. exact I.
    + intros _. apply triple_modify. intros r' _. reflexivity.
Qed.

(** A frame that goes through leaves the glyph queue empty and both
    invalidation flags clear. *)
Lemma Present_try_completes h w :
  outcome (Present_try h w) = Done tt ->
  glyphQueue (r_ (world (Present_try h w))) = []
  /\ invalidations (r_ (world (Present_try h w))) = mk_inval false false.
Proof.
  intros Hd.
  assert (Ht : triple (fun _ => True) (Present_try h)
                      (fun r => glyphQueue r = []
                                /\ invalidations r = mk_inval false false)).
  { unfold Present_try.
    eapply triple_bind with (R := fun _ => True); [intros ? ? _ _; exact I | intros _].
    apply triple_get_bind. intros r0.
    eapply triple_bind with (R := fun _ => True); [intros ? ? _ _; exact I | intros _].
    eapply triple_bind; [apply processGlyphQueue_drains | intros _].
    apply triple_get_bind. intros r1.
    eapply triple_bind
      with (R := fun r => glyphQueue r = [] /\ Cursor (invalidations r) = false).
    { apply triple_when.
      - intros _.
        eapply triple_bind with (R := fun r => glyphQueue r = []).
        + apply triple_weaken
            with (P' := fun r => (glyphQueue r, Cursor (invalidations r))
                                 = ([], Cursor (invalidations r1)))
                 (Q' := fun r => (glyphQueue r, Cursor (invalidations r))
                                 = ([], Cursor (invalidations r1)));
            [|apply keeps_drawCursor|].
          * intros r [Hq ->]. rewrite Hq. reflexivity.
          * intros r Hr. congruence.
        + intros _. unfold update_invalidations. apply triple_modify.
          intros r Hq. split; [exact Hq | reflexivity].
      - intros Hc r [Hq ->]. split; [exact Hq | exact Hc]. }
    intros _. apply triple_get_bind. intros r2.
    eapply triple_bind
      with (R := fun r => glyphQueue r = [] /\ invalidations r = mk_inval false false).
    { apply triple_when.
      - intros _.
        eapply triple_bind
          with (R := fun r => glyphQueue r = [] /\ Cursor (invalidations r) = false).
        + apply triple_weaken
            with (P' := fun r => (glyphQueue r, Cursor (invalidations r)) = ([], false))
                 (Q' := fun r => (glyphQueue r, Cursor (invalidations r)) = ([], false));
            [|apply keeps_updateConstantBuffer|].
          * intros r [[Hq Hc] _]. rewrite Hq, Hc. reflexivity.
          * intros r Hr. split; congruence.
        + intros _. unfold update_invalidations. apply triple_modify.
          intros r [Hq Hc]. split; [exact Hq|].
          cbn. unfold WI_ClearFlag_ConstBuffer. rewrite Hc. reflexivity.
      - intros Hc r [[Hq Hcur] ->]. split; [exact Hq|].
        destruct (invalidations r2) as [c b]. cbn in *. subst. reflexivity. }
    intros _.
    apply triple_weaken
      with (P' := fun r => (glyphQueue r, invalidations r) = ([], mk_inval false false))
           (Q' := fun r => (glyphQueue r, invalidations r) = ([], mk_inval false false)).
    - intros r [Hq Hi]. rewrite Hq, Hi. reflexivity.
    - generalize ([] : list AtlasQueueItem, mk_inval false false).
      change (keeps (fun r => (glyphQueue r, invalidations r))
                (THROW_IF_FAILED CellBuffer_Map ;;
                 emit CellBuffer_memcpy ;;
                 emit (Draw 3 0) ;;
                 THROW_IF_FAILED CommandAllocator_Reset ;;
                 THROW_IF_FAILED CommandList_Reset ;;
                 emit (DrawInstanced 3 1 0 0) ;;
                 THROW_IF_FAILED CommandList_Close ;;
                 THROW_IF_FAILED (SwapChain_Present 1 0))).
      keeps_go.
    - intros r Hr. split; congruence. }
  apply (Ht w tt I Hd).
Qed.

(** The line width at 150% scale: two physical pixels, 4/3 DIP. *)
Example lineWidth_150_percent : lineWidth 144 = S754_finite false 11184811 (-23).
Proof. vm_compute. reflexivity. Qed.

(** ** [_drawGlyph], [_drawCursor] and [Present] against the specification *)

(** C1, as stated, fails: the present call is itself a checked call.  When
    the device is removed at the present call, [Present] returns the
    failure although the swap-chain present call has been issued. *)
Lemma C1_counterexample :
  outcome (Present Sample.header Frames.present_fails)
  = Done Sample.DXGI_ERROR_DEVICE_REMOVED
  /\ FAILED Sample.DXGI_ERROR_DEVICE_REMOVED = true
  /\ In (Call (SwapChain_Present 1 0) Sample.DXGI_ERROR_DEVICE_REMOVED)
        (events (Present Sample.header Frames.present_fails))
  /\ ~ quiet (events (Present Sample.header Frames.present_fails)).
Proof.
  split; [vm_compute; reflexivity|].
  split; [reflexivity|].
  split; [vm_compute; do 7 right; left; reflexivity|].
  intros Hq. unfold quiet in Hq. rewrite Forall_forall in Hq.
  specialize (Hq (Call (SwapChain_Present 1 0) Sample.DXGI_ERROR_DEVICE_REMOVED)).
  assert (Hin : In (Call (SwapChain_Present 1 0) Sample.DXGI_ERROR_DEVICE_REMOVED)
                   (events (Present Sample.header Frames.present_fails)))
    by (vm_compute; do 7 right; left; reflexivity).
  specialize (Hq Hin). discriminate Hq.
Qed.

(** C1, amended: whenever [Present] returns, either every call of the
    pipeline succeeded, the frame ends with the upload, the draw and the
    present call, which is the only present call and the last event, the
    glyph queue is drained, both invalidation flags are clear and [S_OK] is
    returned; or exactly one call failed, it is the last event (nothing is
    issued after it, so a failure before the present call means the present
    call is never issued), no present call precedes it, and the failure
    result for its error is returned.  The failing call may be the present
    call itself. *)
Theorem C1_present_or_failure h w ret :
  outcome (Present h w) = Done ret ->
  exists pre,
    quiet pre /\ all_ok pre
    /\ ((ret = S_OK
         /\ glyphQueue (r_ (world (Present h w))) = []
         /\ invalidations (r_ (world (Present h w))) = mk_inval false false
         /\ exists hr1 hr2 hr3 hr4 hr5,
              events (Present h w) = pre ++ frame_tail hr1 hr2 hr3 hr4 hr5
              /\ FAILED hr1 = false /\ FAILED hr2 = false /\ FAILED hr3 = false
              /\ FAILED hr4 = false /\ FAILED hr5 = false)
        \/ (exists hr c,
              FAILED hr = true /\ ret = _handleException h hr
              /\ events (Present h w) = pre ++ [Call c hr])).
Proof.
  unfold Present. pose proof (frame_ok_Present_try h w) as Hf.
  pose proof (Present_try_completes h w) as Hc.
  destruct (Present_try h w) as [[[]| | |] w1 evs]; cbn in *; intros Hret;
    try discriminate Hret; injection Hret as <-.
  - destruct Hf as (pre & hr1 & hr2 & hr3 & hr4 & hr5 & -> & Hq & Ho & Hf).
    destruct (Hc eq_refl) as [Hqueue Hinv].
    exists pre. split; [exact Hq|]. split; [exact Ho|]. left.
    split; [reflexivity|]. split; [exact Hqueue|]. split; [exact Hinv|].
    exists hr1, hr2, hr3, hr4, hr5. split; [reflexivity | exact Hf].
  - destruct Hf as (Hfail & pre & c & -> & Hq & Ho).
    exists pre. split; [exact Hq|]. split; [exact Ho|]. right.
    exists hr, c. repeat split. exact Hfail.
Qed.

Lemma C1_witness :
  outcome (Present Sample.header Sample.cold_world) = Done S_OK
  /\ exists pre,
       quiet pre /\ all_ok pre
       /\ ((S_OK = S_OK
            /\ glyphQueue (r_ (world (Present Sample.header Sample.cold_world))) = []
            /\ invalidations (r_ (world (Present Sample.header Sample.cold_world)))
               = mk_inval false false
            /\ exists hr1 hr2 hr3 hr4 hr5,
                 events (Present Sample.header Sample.cold_world)
                 = pre ++ frame_tail hr1 hr2 hr3 hr4 hr5
                 /\ FAILED hr1 = false /\ FAILED hr2 = false /\ FAILED hr3 = false
                 /\ FAILED hr4 = false /\ FAILED hr5 = false)
           \/ (exists hr c,
                 FAILED hr = true /\ S_OK = _handleException Sample.header hr
                 /\ events (Present Sample.header Sample.cold_world) = pre ++ [Call c hr])).
Proof.
  split; [vm_compute; reflexivity|].
  apply (C1_present_or_failure Sample.header Sample.cold_world S_OK).
  vm_compute; reflexivity.
Defined.

(** [Present] returns unless the constant buffer cannot be mapped or the
    behaviour is undefined; an exception never leaves it. *)
Lemma Present_outcomes h w :
  (exists ret, outcome (Present h w) = Done ret)
  \/ (outcome (Present h w) = Terminated
      /\ exists hr pre,
           FAILED hr = true
           /\ events (Present h w) = pre ++ [Call ConstantBuffer_Map hr]
           /\ quiet pre /\ all_ok pre)
  \/ outcome (Present h w) = Undefined.
Proof.
  unfold Present. pose proof (frame_ok_Present_try h w) as Hf.
  destruct (Present_try h w) as [[[]| | |] w1 evs]; cbn.
  - left. eexists. reflexivity.
  - left. eexists. reflexivity.
  - right. left. split; [reflexivity|]. exact Hf.
  - right. right. reflexivity.
Qed.

(** A failure in [_updateConstantBuffer], which is declared [noexcept],
    does not reach the handlers of [Present]: the process is terminated and
    nothing is returned. *)
Example Present_terminated_by_noexcept :
  outcome (Present Sample.header Frames.constant_buffer_fails) = Terminated
  /\ events (Present Sample.header Frames.constant_buffer_fails)
     = [Call ConstantBuffer_Map Sample.DXGI_ERROR_DEVICE_REMOVED].
Proof. split; vm_compute; reflexivity. Qed.

(** C3, as stated, fails: under the aliased mode a colored glyph is
    rasterized aliased, not in grayscale. *)
Lemma C3_counterexample :
  Forall (fun item => ColoredGlyph (value item) = true)
         (glyphQueue (r_ Frames.aliased_colored))
  /\ outcome (Present Sample.header Frames.aliased_colored) = Done S_OK
  /\ collect rasterMode (events (Present Sample.header Frames.aliased_colored))
     = [D2D1_TEXT_ANTIALIAS_MODE_ALIASED]
  /\ D2D1_TEXT_ANTIALIAS_MODE_ALIASED <> D2D1_TEXT_ANTIALIAS_MODE_GRAYSCALE.
Proof.
  split; [repeat constructor|].
  split; [vm_compute; reflexivity|].
  split; [vm_compute; reflexivity | discriminate].
Qed.

(** C3, amended: a glyph flagged colored is rasterized (once the text
    layout is created) in grayscale when the configured mode is ClearType;
    under any other configured mode the mode of the render target is left
    as it is, and the glyph is rasterized in that mode.  So it is never
    rasterized in ClearType, unless the render target was left in ClearType
    while the configured mode is another one. *)
Theorem C3_colored_glyph_mode h item w t :
  ColoredGlyph (value item) = true ->
  d2dRenderTarget (r_ w) = Some t ->
  collect rasterMode (events (_drawGlyph h item w))
  = (if FAILED (hd S_OK (gpu w)) then []
     else [if aa_eqb (realizedAntialiasingMode (r_ w)) D2D1_TEXT_ANTIALIAS_MODE_CLEARTYPE
           then D2D1_TEXT_ANTIALIAS_MODE_GRAYSCALE
           else textAntialiasMode t])
  /\ (realizedAntialiasingMode (r_ w) = D2D1_TEXT_ANTIALIAS_MODE_CLEARTYPE
      \/ textAntialiasMode t <> D2D1_TEXT_ANTIALIAS_MODE_CLEARTYPE ->
      Forall (fun m => m <> D2D1_TEXT_ANTIALIAS_MODE_CLEARTYPE)
             (collect rasterMode (events (_drawGlyph h item w)))).
Proof.
  intros Hcol Ht.
  rewrite (drawGlyph_raster_mode h item w t Ht), Hcol.
  split; [reflexivity|].
  intros Hmode. destruct (FAILED (hd S_OK (gpu w))); [constructor|].
  constructor; [|constructor].
  destruct (aa_eqb (realizedAntialiasingMode (r_ w)) D2D1_TEXT_ANTIALIAS_MODE_CLEARTYPE)
    eqn:Haa; [discriminate|].
  destruct Hmode as [Hct|Hnot]; [|exact Hnot].
  rewrite Hct in Haa. discriminate Haa.
Qed.

Lemma C3_witness :
  ColoredGlyph (value (Sample.glyphA (mk_u16x2 8 0) true)) = true
  /\ d2dRenderTarget (r_ Frames.cleartype)
     = Some (mk_target D2D1_TEXT_ANTIALIAS_MODE_CLEARTYPE)
  /\ collect rasterMode
       (events (_drawGlyph Sample.header (Sample.glyphA (mk_u16x2 8 0) true)
                           Frames.cleartype))
     = [D2D1_TEXT_ANTIALIAS_MODE_GRAYSCALE].
Proof.
  split; [reflexivity|]. split; [reflexivity|].
  apply (C3_colored_glyph_mode Sample.header (Sample.glyphA (mk_u16x2 8 0) true)
           Frames.cleartype (mk_target D2D1_TEXT_ANTIALIAS_MODE_CLEARTYPE)
           eq_refl eq_refl).
Defined.

(** C5 fails on the code: every tile of a queued glyph is copied with the
    copy flags 0, whatever the glyph and the state, not with the
    non-overwrite flag.  The frame of the sample has one glyph of one cell
    queued: its one tile is copied to (8, 0) with the flags 0. *)
Theorem C5_glyph_copy_without_hint :
  (forall h item w,
     Forall (fun flags => flags <> D3D11_COPY_NO_OVERWRITE)
            (collect tileCopyFlags (events (_drawGlyph h item w))))
  /\ outcome (Present Sample.header Frames.one_glyph) = Done S_OK
  /\ collect tileCopyTarget (events (Present Sample.header Frames.one_glyph))
     = [mk_u16x2 8 0]
  /\ collect tileCopyFlags (events (Present Sample.header Frames.one_glyph)) = [0].
Proof.
  split.
  - intros h item w.
    eapply Forall_impl; [|apply drawGlyph_copy_flags].
    intros f ->. discriminate.
  - repeat split; vm_compute; reflexivity.
Qed.

(** C9, as stated, fails: the two bars of a double underscore are 2 DIPs
    apart whatever the dpi, which is two physical pixels at 96 dpi only.
    At 192 dpi, where a DIP is two physical pixels, the second bar is drawn
    4 physical pixels above the first. *)
Lemma C9_counterexample :
  cursorType (cursorOptions (r_ Frames.double_underscore_192)) = DoubleUnderscore
  /\ dpi (r_ Frames.double_underscore_192) = 192
  /\ outcome (_drawCursor Sample.header Frames.double_underscore_192) = Done tt
  /\ option_map (physicalPixels 192)
       (barOffset (collect shape
                     (events (_drawCursor Sample.header Frames.double_underscore_192))))
     = Some (F32.of_Z 4)
  /\ F32.of_Z 4 <> F32.of_Z 2.
Proof.
  split; [reflexivity|]. split; [reflexivity|].
  split; [vm_compute; reflexivity|].
  split; [vm_compute; reflexivity | vm_compute; discriminate].
Qed.

(** C9, amended: the shapes of a cursor redraw, per style, in DIPs.
    VerticalBar: one filled rectangle with left = top = 0 and right = the
    line width.  EmptyBox: one rectangle stroked with the line width, inset
    by half the line width on its four sides.  DoubleUnderscore: two filled
    bars of the line width, the second 2 DIPs above the first at every dpi
    (the offset does not follow the dpi as the line width does).  Legacy:
    one filled bar whose top is at [(100 - heightPercentage) / 100] of the
    cell height.  Underscore: one filled bar of the line width.  Any other
    style: the full cell. *)
Theorem C9_cursor_geometry h w :
  outcome (_drawCursor h w) = Done tt ->
  collect shape (events (_drawCursor h w))
  = Spec.cursorShapes (cursorType (cursorOptions (r_ w)))
      (fx (cellSizeDIP (r_ w))) (fy (cellSizeDIP (r_ w)))
      (lineWidth (dpi (r_ w))) (heightPercentage (cursorOptions (r_ w)))
  /\ Forall (fun s => s = lineWidth (dpi (r_ w)))
            (collect strokeWidthOf (events (_drawCursor h w))).
Proof.
  intros Hdone. destruct (drawCursor_Done h w Hdone) as (Hs & Hw & _).
  split; assumption.
Qed.

Lemma C9_witness :
  outcome (_drawCursor Sample.header Frames.double_underscore_192) = Done tt
  /\ collect shape (events (_drawCursor Sample.header Frames.double_underscore_192))
     = [(true, mk_rect (F32.of_Z 0) (F32.of_Z 15) (F32.of_Z 8) (F32.of_Z 16));
        (true, mk_rect (F32.of_Z 0) (F32.of_Z 13) (F32.of_Z 8) (F32.of_Z 14))].
Proof.
  split; [vm_compute; reflexivity|].
  destruct (C9_cursor_geometry Sample.header Frames.double_underscore_192) as [Hs _];
    [vm_compute; reflexivity|].
  rewrite Hs. vm_compute. reflexivity.
Defined.

(** * Further properties of the pipeline *)

(** ** The size of a grown atlas *)

Lemma nextPowerOfTwo_mono m m' : 0 < m -> m <= m' -> nextPowerOfTwo m <= nextPowerOfTwo m'.
Proof.
  intros Hm Hle. unfold nextPowerOfTwo.
  apply Z.pow_le_mono_r; [lia|].
  pose proof (Z.log2_le_mono m m' Hle). lia.
Qed.

(** The facts about [idealGrowth] the size properties rest on. *)
Lemma idealGrowth_shape limit pos cell :
  in_range limit pos cell ->
  let g := idealGrowth limit pos cell in
  exists rows cells,
    1 <= rows /\ 64 <= cells
    /\ newArea g <= rows * (x limit * y cell)
    /\ (rows - 1) * (x limit * y cell) < newArea g
    /\ cells * (x cell * y cell) <= newArea g
    /\ newArea g < (cells + 1) * (x cell * y cell)
    /\ wantedHeight g = rows * y cell
    /\ wantedWidth g = (if rows =? 1 then cells * x cell else x limit)
    /\ (rows = 1 -> cells * x cell <= x limit).
Proof.
  intros [Hlx Hly Hpx Hpy Hcx Hcy Hmin Hcur Hrow] g.
  assert (Hm : 0 < neededArea limit pos cell) by (unfold neededArea; nia).
  pose proof (nextPowerOfTwo_gt _ Hm) as Hna.
  change (nextPowerOfTwo (neededArea limit pos cell)) with (newArea g) in Hna.
  assert (H64 : 64 * (x cell * y cell) < newArea g) by (unfold neededArea in Hna; lia).
  set (P := x limit * y cell). set (A := x cell * y cell).
  assert (HP : 0 < P) by (unfold P; nia).
  assert (HA : 0 < A) by (unfold A; nia).
  exists ((newArea g + P - 1) / P), (newArea g / A).
  pose proof (Z.div_mod (newArea g + P - 1) P ltac:(lia)) as Hdm.
  pose proof (Z.mod_pos_bound (newArea g + P - 1) P HP) as Hmod.
  pose proof (Z.div_mod (newArea g) A ltac:(lia)) as Hdm2.
  pose proof (Z.mod_pos_bound (newArea g) A HA) as Hmod2.
  change (wantedHeight g) with ((newArea g + P - 1) / P * y cell).
  change (wantedWidth g)
    with (if (newArea g + P - 1) / P * y cell =? y cell
          then newArea g / A * x cell else x limit).
  fold A in H64.
  set (na := newArea g) in *. clearbody na.
  set (rows := (na + P - 1) / P) in *. set (cells := na / A) in *.
  clearbody rows cells. clear g Hna Hm Hmin Hcur.
  assert (Hrows : 1 <= rows) by nia.
  assert (Hcells : 64 <= cells) by nia.
  assert (Hif : (if rows * y cell =? y cell then cells * x cell else x limit)
                = (if rows =? 1 then cells * x cell else x limit)).
  { destruct (Z.eqb_spec (rows * y cell) (y cell)) as [He|Hne];
      destruct (Z.eqb_spec rows 1) as [H1|Hn1]; try reflexivity; exfalso; nia. }
  assert (Hfit : rows = 1 -> cells * x cell <= x limit).
  { intros ->. unfold P, A in *. nia. }
  repeat split; try assumption; nia.
Qed.

(** X1: the size computed for a new atlas is a valid texture size: both
    dimensions are positive (the two [assert]s of the source hold) and
    within the hardware limit, and each dimension is either the limit
    itself or a whole number of cells. *)
Theorem growth_size_valid limit pos cell :
  in_range limit pos cell ->
  0 < y limit ->
  exists g,
    atlasGrowth limit pos cell = Some g
    /\ 0 < width g <= x limit
    /\ 0 < height g <= y limit
    /\ (width g = x limit \/ exists n, width g = n * x cell)
    /\ (height g = y limit \/ exists n, height g = n * y cell).
Proof.
  intros Hr Hly.
  exists (idealGrowth limit pos cell).
  split; [apply atlasGrowth_in_range; exact Hr|].
  destruct (idealGrowth_shape limit pos cell Hr)
    as (rows & cells & Hrows & Hcells & _ & _ & _ & _ & Hwh & Hww & Hfit).
  destruct Hr as [Hlx _ _ _ Hcx Hcy _ _ _].
  set (g := idealGrowth limit pos cell) in *.
  change (height g) with (Z.min (y limit) (wantedHeight g)).
  change (width g) with (Z.min (x limit) (wantedWidth g)).
  rewrite Hwh, Hww. clearbody g.
  assert (0 < rows * y cell) by nia.
  assert (0 < cells * x cell) by nia.
  destruct (Z.eqb_spec rows 1) as [H1|Hn1].
  - specialize (Hfit H1).
    split; [lia|]. split; [lia|].
    split; [right; exists cells; lia|].
    destruct (Z.le_gt_cases (y limit) (rows * y cell)); [left | right; exists rows]; lia.
  - split; [lia|]. split; [lia|].
    split; [left; lia|].
    destruct (Z.le_gt_cases (y limit) (rows * y cell)); [left | right; exists rows]; lia.
Qed.

Lemma growth_size_valid_witness :
  in_range Sample.limit2048 (mk_u16x2 8 0) Sample.cell8x16
  /\ 0 < y Sample.limit2048
  /\ exists g,
       atlasGrowth Sample.limit2048 (mk_u16x2 8 0) Sample.cell8x16 = Some g
       /\ 0 < width g <= x Sample.limit2048
       /\ 0 < height g <= y Sample.limit2048
       /\ (width g = x Sample.limit2048 \/ exists n, width g = n * x Sample.cell8x16)
       /\ (height g = y Sample.limit2048 \/ exists n, height g = n * y Sample.cell8x16).
Proof.
  assert (Hr : in_range Sample.limit2048 (mk_u16x2 8 0) Sample.cell8x16)
    by (constructor; cbn; unfold u16_max; lia).
  split; [exact Hr|]. split; [cbn; lia|].
  apply (growth_size_valid Sample.limit2048 (mk_u16x2 8 0) Sample.cell8x16 Hr).
  cbn; lia.
Defined.

(** X2: unless the height is cut by the hardware limit, a new atlas has the
    area of at least 64 cells and more area than the fill cursor has
    consumed; a single row holds at least 64 whole cells. *)
Theorem growth_has_room limit pos cell :
  in_range limit pos cell ->
  exists g,
    atlasGrowth limit pos cell = Some g
    /\ (wantedHeight g <= y limit ->
        64 * (x cell * y cell) <= width g * height g)
    /\ (wantedHeight g <= y limit -> wantedHeight g <> y cell ->
        y pos * x limit + x pos * y cell < width g * height g)
    /\ (wantedHeight g = y cell -> 64 * x cell <= width g).
Proof.
  intros Hr.
  exists (idealGrowth limit pos cell).
  split; [apply atlasGrowth_in_range; exact Hr|].
  destruct (idealGrowth_shape limit pos cell Hr)
    as (rows & cells & Hrows & Hcells & Hcover & _ & Hfloor & _ & Hwh & Hww & Hfit).
  assert (Hm : 0 < neededArea limit pos cell)
    by (destruct Hr; unfold neededArea; nia).
  pose proof (nextPowerOfTwo_gt _ Hm) as Hna.
  destruct Hr as [Hlx _ _ _ Hcx Hcy _ _ _].
  set (g := idealGrowth limit pos cell) in *.
  change (nextPowerOfTwo (neededArea limit pos cell)) with (newArea g) in Hna.
  unfold neededArea in Hna.
  change (height g) with (Z.min (y limit) (wantedHeight g)).
  change (width g) with (Z.min (x limit) (wantedWidth g)).
  rewrite Hwh, Hww. clearbody g.
  destruct (Z.eqb_spec rows 1) as [H1|Hn1].
  - specialize (Hfit H1). subst rows.
    repeat split.
    + intros Hfits. rewrite !Z.min_r by lia. nia.
    + intros _ Hne. exfalso. lia.
    + intros _. rewrite Z.min_r by lia. nia.
  - repeat split.
    + intros Hfits. rewrite Z.min_l, Z.min_r by lia. nia.
    + intros Hfits _. rewrite Z.min_l, Z.min_r by lia. nia.
    + intros Heq. exfalso. nia.
Qed.

Lemma growth_has_room_witness :
  in_range Sample.limit2048 (mk_u16x2 0 16) Sample.cell8x16
  /\ exists g,
       atlasGrowth Sample.limit2048 (mk_u16x2 0 16) Sample.cell8x16 = Some g
       /\ (wantedHeight g <= 2048 -> 64 * (8 * 16) <= width g * height g)
       /\ (wantedHeight g <= 2048 -> wantedHeight g <> 16 ->
           16 * 2048 + 0 * 16 < width g * height g)
       /\ (wantedHeight g = 16 -> 64 * 8 <= width g).
Proof.
  assert (Hr : in_range Sample.limit2048 (mk_u16x2 0 16) Sample.cell8x16)
    by (constructor; cbn; unfold u16_max; lia).
  split; [exact Hr|].
  apply (growth_has_room Sample.limit2048 (mk_u16x2 0 16) Sample.cell8x16 Hr).
Defined.

(** X3: the atlas never shrinks as the fill cursor advances: with the same
    limit and cell size, a larger consumed area gives a texture at least as
    wide and as tall, so the rectangle of the old texture fits the new one. *)
Theorem growth_monotone limit cell pos pos' :
  in_range limit pos cell ->
  in_range limit pos' cell ->
  y pos * x limit + x pos * y cell <= y pos' * x limit + x pos' * y cell ->
  exists g g',
    atlasGrowth limit pos cell = Some g
    /\ atlasGrowth limit pos' cell = Some g'
    /\ width g <= width g' /\ height g <= height g'.
Proof.
  intros Hr Hr' Hle.
  exists (idealGrowth limit pos cell), (idealGrowth limit pos' cell).
  split; [apply atlasGrowth_in_range; exact Hr|].
  split; [apply atlasGrowth_in_range; exact Hr'|].
  destruct (idealGrowth_shape limit pos cell Hr)
    as (rows & cells & Hrows & Hcells & Hcover & Hlow & Hfloor & Hceil & Hwh & Hww & Hfit).
  destruct (idealGrowth_shape limit pos' cell Hr')
    as (rows' & cells' & Hrows' & Hcells' & Hcover' & Hlow' & Hfloor' & Hceil' & Hwh' & Hww'
        & Hfit').
  assert (Hmono : newArea (idealGrowth limit pos cell)
                  <= newArea (idealGrowth limit pos' cell)).
  { apply nextPowerOfTwo_mono; [destruct Hr; nia | lia]. }
  destruct Hr as [Hlx _ _ _ Hcx Hcy _ _ _].
  set (g := idealGrowth limit pos cell) in *.
  set (g' := idealGrowth limit pos' cell) in *.
  change (height g) with (Z.min (y limit) (wantedHeight g)).
  change (width g) with (Z.min (x limit) (wantedWidth g)).
  change (height g') with (Z.min (y limit) (wantedHeight g')).
  change (width g') with (Z.min (x limit) (wantedWidth g')).
  rewrite Hwh, Hww, Hwh', Hww'.
  set (na := newArea g) in *. set (na' := newArea g') in *.
  clearbody na na' g g'.
  assert (HP : 0 < x limit * y cell) by (apply Z.mul_pos_pos; lia).
  assert (HA : 0 < x cell * y cell) by (apply Z.mul_pos_pos; lia).
  assert (Hr1 : rows <= rows').
  { assert (H : (rows - 1) * (x limit * y cell) < rows' * (x limit * y cell)) by lia.
    apply Z.mul_lt_mono_pos_r in H; [lia | exact HP]. }
  assert (Hc1 : cells <= cells').
  { assert (H : cells * (x cell * y cell) < (cells' + 1) * (x cell * y cell)) by lia.
    apply Z.mul_lt_mono_pos_r in H; [lia | exact HA]. }
  split.
  - destruct (Z.eqb_spec rows 1) as [H1|Hn1]; destruct (Z.eqb_spec rows' 1) as [H1'|Hn1'].
    + specialize (Hfit H1). specialize (Hfit' H1').
      assert (cells * x cell <= cells' * x cell)
        by (apply Z.mul_le_mono_nonneg_r; lia).
      lia.
    + specialize (Hfit H1). lia.
    + exfalso. lia.
    + lia.
  - assert (rows * y cell <= rows' * y cell) by (apply Z.mul_le_mono_nonneg_r; lia).
    lia.
Qed.

Lemma growth_monotone_witness :
  in_range Sample.limit2048 (mk_u16x2 8 0) Sample.cell8x16
  /\ in_range Sample.limit2048 (mk_u16x2 0 16) Sample.cell8x16
  /\ 0 * 2048 + 8 * 16 <= 16 * 2048 + 0 * 16
  /\ exists g g',
       atlasGrowth Sample.limit2048 (mk_u16x2 8 0) Sample.cell8x16 = Some g
       /\ atlasGrowth Sample.limit2048 (mk_u16x2 0 16) Sample.cell8x16 = Some g'
       /\ width g <= width g' /\ height g <= height g'.
Proof.
  assert (Hr : in_range Sample.limit2048 (mk_u16x2 8 0) Sample.cell8x16)
    by (constructor; cbn; unfold u16_max; lia).
  assert (Hr' : in_range Sample.limit2048 (mk_u16x2 0 16) Sample.cell8x16)
    by (constructor; cbn; unfold u16_max; lia).
  split; [exact Hr|]. split; [exact Hr'|]. split; [lia|].
  apply (growth_monotone Sample.limit2048 Sample.cell8x16 (mk_u16x2 8 0) (mk_u16x2 0 16)
           Hr Hr').
  cbn; lia.
Defined.

(** ** [_adjustAtlasSize] run twice, and run on a failing device *)

Lemma pow2_divides j k : 0 <= j <= k -> 2 ^ k mod 2 ^ j = 0.
Proof.
  intros H. replace k with ((k - j) + j) by lia.
  rewrite Z.pow_add_r by lia. apply Z.mod_mul.
  apply Z.pow_nonzero; lia.
Qed.

(** With a cell area that is a power of two the cell area divides the new
    area. *)
Lemma power_of_two_cell_divides limit pos cell :
  in_range limit pos cell ->
  is_power_of_two (x cell * y cell) ->
  newArea (idealGrowth limit pos cell) mod perCellArea (idealGrowth limit pos cell) = 0.
Proof.
  intros Hr (j & Hj & Harea).
  change (perCellArea (idealGrowth limit pos cell)) with (x cell * y cell).
  change (newArea (idealGrowth limit pos cell))
    with (nextPowerOfTwo (neededArea limit pos cell)).
  assert (Hm : 0 < neededArea limit pos cell) by (destruct Hr; unfold neededArea; nia).
  pose proof (nextPowerOfTwo_gt _ Hm) as Hgt.
  unfold nextPowerOfTwo in *. rewrite Harea.
  apply pow2_divides. split; [exact Hj|].
  pose proof (Z.log2_nonneg (neededArea limit pos cell)) as Hlog.
  destruct (Z.le_gt_cases j (Z.log2 (neededArea limit pos cell) + 1)) as [Hle|Hgt']; [exact Hle|].
  exfalso.
  assert (2 ^ (Z.log2 (neededArea limit pos cell) + 1) <= 2 ^ j)
    by (apply Z.pow_le_mono_r; lia).
  unfold neededArea in *. rewrite Harea in *. lia.
Qed.

(** X4: with a cell area that is a power of two (cells of 8 by 16 pixels,
    say) and the fill cursor below the hardware limit, the capacity check
    is idempotent: after a growth that went through, the check run again
    with the cursor unchanged does nothing at all. *)
Theorem adjustAtlasSize_idempotent w :
  in_range (atlasSizeInPixelLimit (r_ w)) (atlasPosition (r_ w)) (cellSize (r_ w)) ->
  is_power_of_two (x (cellSize (r_ w)) * y (cellSize (r_ w))) ->
  x (atlasPosition (r_ w)) < x (atlasSizeInPixelLimit (r_ w)) ->
  y (atlasPosition (r_ w)) < y (atlasSizeInPixelLimit (r_ w)) ->
  atlasHasRoom (r_ w) = false ->
  outcome (_adjustAtlasSize w) = Done tt ->
  _adjustAtlasSize (world (_adjustAtlasSize w))
  = mk_res (Done tt) (world (_adjustAtlasSize w)) [].
Proof.
  intros Hr Hpow Hx Hy Hroom Hdone.
  apply adjustAtlasSize_room.
  apply (adjustAtlasSize_settles w Hr Hx Hy); [|exact Hroom|exact Hdone].
  intros g Hg _.
  rewrite (atlasGrowth_in_range _ _ _ Hr) in Hg. injection Hg as <-.
  apply power_of_two_cell_divides; assumption.
Qed.

Lemma adjustAtlasSize_idempotent_witness :
  in_range (atlasSizeInPixelLimit (r_ Sample.cold_world))
           (atlasPosition (r_ Sample.cold_world)) (cellSize (r_ Sample.cold_world))
  /\ is_power_of_two (x (cellSize (r_ Sample.cold_world))
                      * y (cellSize (r_ Sample.cold_world)))
  /\ atlasHasRoom (r_ Sample.cold_world) = false
  /\ outcome (_adjustAtlasSize Sample.cold_world) = Done tt
  /\ _adjustAtlasSize (world (_adjustAtlasSize Sample.cold_world))
     = mk_res (Done tt) (world (_adjustAtlasSize Sample.cold_world)) [].
Proof.
  assert (Hr : in_range (atlasSizeInPixelLimit (r_ Sample.cold_world))
                        (atlasPosition (r_ Sample.cold_world))
                        (cellSize (r_ Sample.cold_world)))
    by (constructor; cbn; unfold u16_max; lia).
  assert (Hp : is_power_of_two (x (cellSize (r_ Sample.cold_world))
                                * y (cellSize (r_ Sample.cold_world))))
    by (exists 7; split; [lia | reflexivity]).
  split; [exact Hr|]. split; [exact Hp|]. split; [reflexivity|].
  split; [vm_compute; reflexivity|].
  apply (adjustAtlasSize_idempotent Sample.cold_world Hr Hp);
    [cbn; lia | cbn; lia | reflexivity | vm_compute; reflexivity].
Defined.

(** X5: a growth that does not go through changes nothing in the engine:
    the atlas size and the invalidation flags are as before, no copy of the
    old atlas is issued, and the check triggers again at the next frame. *)
Theorem adjustAtlasSize_failure_keeps_state w :
  outcome (_adjustAtlasSize w) <> Done tt ->
  r_ (world (_adjustAtlasSize w)) = r_ w
  /\ atlasHasRoom (r_ (world (_adjustAtlasSize w))) = false
  /\ Forall (fun e => is_atlasCopy e = false) (events (_adjustAtlasSize w)).
Proof.
  unfold _adjustAtlasSize. destruct w as [r g]. run.
  fold (atlasHasRoom r).
  destruct (atlasHasRoom r) eqn:Hroom; run; [intros H; exfalso; apply H; reflexivity|].
  destruct (atlasGrowth _ _ _) as [gr|]; run;
    [|intros _; repeat split; try assumption; constructor].
  destruct (FAILED (hd S_OK g)); run;
    [intros _; repeat split; try assumption; repeat constructor|].
  destruct (FAILED (hd S_OK (tl g))); run;
    [intros _; repeat split; try assumption; repeat constructor|].
  destruct (negb (u16x2_eqb (atlasSizeInPixel r) u16x2_zero)); run;
    intros H; exfalso; apply H; reflexivity.
Qed.

Lemma adjustAtlasSize_failure_keeps_state_witness :
  outcome (_adjustAtlasSize
             (mk_world (r_ Sample.cold_world) [Sample.DXGI_ERROR_DEVICE_REMOVED]))
  <> Done tt
  /\ r_ (world (_adjustAtlasSize
                  (mk_world (r_ Sample.cold_world) [Sample.DXGI_ERROR_DEVICE_REMOVED])))
     = r_ Sample.cold_world.
Proof.
  assert (H : outcome (_adjustAtlasSize
                         (mk_world (r_ Sample.cold_world)
                                   [Sample.DXGI_ERROR_DEVICE_REMOVED]))
              <> Done tt)
    by (vm_compute; discriminate).
  split; [exact H|].
  apply (adjustAtlasSize_failure_keeps_state
           (mk_world (r_ Sample.cold_world) [Sample.DXGI_ERROR_DEVICE_REMOVED]) H).
Defined.

(** ** The scratchpad across a frame *)

Lemma keeps_triple {A B} (f : Resources -> B) (J : Resources -> Prop) (m : M A) :
  keeps f m -> (forall r r', f r' = f r -> J r -> J r') -> triple J m J.
Proof.
  intros Hk HJ w a Hw Hd.
  apply (HJ (r_ w)); [|exact Hw].
  apply (Hk (f (r_ w)) w a); [reflexivity | exact Hd].
Qed.

Lemma scratchpad_fits_view r r' :
  scratchpadView r' = scratchpadView r ->
  scratchpad_fits r /\ maxEncounteredCellCount r <= scratchpadCellWidth r ->
  scratchpad_fits r' /\ maxEncounteredCellCount r' <= scratchpadCellWidth r'.
Proof.
  unfold scratchpadView, scratchpad_fits, scratchpadWidth.
  intros Hv. injection Hv as -> -> -> ->. auto.
Qed.

Lemma keeps_scratchpad_adjustAtlasSize : keeps scratchpadView _adjustAtlasSize.
Proof.
  unfold _adjustAtlasSize, _setShaderResources, update_invalidations. keeps_go.
Qed.

Lemma keeps_scratchpad_drawGlyph h item : keeps scratchpadView (_drawGlyph h item).
Proof.
  unfold _drawGlyph, _copyScratchpadTile, d2d_SetTextAntialiasMode, d2d_BeginDraw,
    d2d_Clear, d2d_DrawTextLayout, d2d_EndDraw.
  keeps_go.
Qed.

Lemma keeps_scratchpad_processGlyphQueue h : keeps scratchpadView (_processGlyphQueue h).
Proof.
  unfold _processGlyphQueue.
  apply keeps_get_bind. intros r. destruct (glyphQueue r); [apply keeps_ret|].
  apply keeps_bind.
  - apply keeps_for_each. intros item. apply keeps_scratchpad_drawGlyph.
  - intros _. apply keeps_modify. intros r'. reflexivity.
Qed.

(** A regrown surface is as wide as the widest of 2, the request and one
    and a half times the old capacity. *)
Lemma reserve_fits h n :
  triple (fun r => scratchpad_fits r
                   /\ (n = maxEncounteredCellCount r
                       \/ (n = 1 /\ maxEncounteredCellCount r <= scratchpadCellWidth r)))
         (_reserveScratchpadSize h n)
         (fun r => scratchpad_fits r /\ maxEncounteredCellCount r <= scratchpadCellWidth r).
Proof.
  intros w [] [Hfit Hn] Hdone.
  destruct (Z.le_gt_cases n (scratchpadCellWidth (r_ w))) as [Hle|Hgt].
  - rewrite (reserve_enough h n w Hle). cbn [world].
    split; [exact Hfit|]. destruct Hn as [->|[_ Hm]]; assumption.
  - destruct (reserve_Done h n w Hgt Hdone) as (_ & Hw & _). rewrite Hw.
    destruct Hfit as (Hcx & Hmax & Hcap & Hwide).
    unfold scratchpad_fits, scratchpadWidth, u16_max in *.
    cbn [cellSize maxEncounteredCellCount scratchpadCellWidth atlasScratchpad].
    set (cap := scratchpadCellWidth (r_ w)) in *.
    set (cx := x (cellSize (r_ w))) in *.
    set (mx := maxEncounteredCellCount (r_ w)) in *.
    assert (Hshift : 0 <= Z.shiftr cap 1 <= cap).
    { rewrite Z.shiftr_div_pow2 by lia. change (2 ^ 1) with 2.
      pose proof (Z.div_mod cap 2 ltac:(lia)). pose proof (Z.mod_pos_bound cap 2 ltac:(lia)).
      lia. }
    set (nw := Z.max (Z.max 2 n) (cap + Z.shiftr cap 1)).
    assert (Hnw : mx <= nw <= 131070) by (unfold nw; destruct Hn as [->|[-> Hm]]; lia).
    assert (Hprod : 0 <= cx * nw < 2 ^ 32) by nia.
    unfold U32.mul. rewrite (wrap_small _ Hprod).
    repeat split; try lia. nia.
Qed.

(** X6: across a frame that goes through, the scratchpad never falls
    behind its bookkeeping: if the surface was at least as wide as the
    recorded capacity before the frame, it is so after it, the recorded
    capacity then covers the widest glyph met
    ([maxEncounteredCellCount <= scratchpadCellWidth]), and so the surface
    holds the widest glyph. *)
Theorem Present_keeps_scratchpad_wide_enough h w :
  scratchpad_fits (r_ w) ->
  outcome (Present_try h w) = Done tt ->
  scratchpad_fits (r_ (world (Present_try h w)))
  /\ maxEncounteredCellCount (r_ (world (Present_try h w)))
     <= scratchpadCellWidth (r_ (world (Present_try h w)))
  /\ maxEncounteredCellCount (r_ (world (Present_try h w))) * x (cellSize (r_ w))
     <= scratchpadWidth (r_ (world (Present_try h w)))
  /\ cellSize (r_ (world (Present_try h w))) = cellSize (r_ w).
Proof.
  intros Hfit Hdone.
  set (J := fun r => scratchpad_fits r /\ maxEncounteredCellCount r <= scratchpadCellWidth r).
  assert (Hcell : cellSize (r_ (world (Present_try h w))) = cellSize (r_ w)).
  { assert (Hk : keeps cellSize (Present_try h)).
    { unfold Present_try, _adjustAtlasSize, _reserveScratchpadSize, _processGlyphQueue,
        _drawGlyph, _drawCursor, _updateConstantBuffer, _copyScratchpadTile,
        _setShaderResources, update_invalidations,
        d2d_SetTextAntialiasMode, d2d_BeginDraw, d2d_Clear, d2d_DrawTextLayout,
        d2d_FillRectangle, d2d_DrawRectangle, d2d_EndDraw.
      keeps_go. }
    apply (Hk (cellSize (r_ w)) w tt); [reflexivity | exact Hdone]. }
  assert (Ht : triple scratchpad_fits (Present_try h) J).
  { unfold Present_try.
    eapply triple_bind with (R := scratchpad_fits).
    { intros w0 a Hw0 Hd0.
      apply (keeps_triple scratchpadView (fun r => scratchpad_fits r /\ True)
               _adjustAtlasSize keeps_scratchpad_adjustAtlasSize) with (a := a);
        [|split; [exact Hw0 | exact I]|exact Hd0].
      intros r r' Hv [Hr _]. split; [|exact I].
      unfold scratchpadView, scratchpad_fits, scratchpadWidth in *.
      injection Hv as -> -> -> ->. exact Hr. }
    intros _. apply triple_get_bind. intros r0.
    eapply triple_bind with (R := J).
    { eapply triple_weaken; [|apply (reserve_fits h (maxEncounteredCellCount r0))|];
        [|intros r Hr; exact Hr].
      intros r [Hr ->]. split; [exact Hr | left; reflexivity]. }
    intros _.
    eapply triple_bind with (R := J).
    { apply (keeps_triple scratchpadView J); [apply keeps_scratchpad_processGlyphQueue|].
      intros r r'. apply scratchpad_fits_view. }
    intros _. apply triple_get_bind. intros r1.
    eapply triple_bind with (R := J).
    { apply triple_when; [intros _ | intros _ r [Hr _]; exact Hr].
      eapply triple_weaken with (P' := J) (Q' := J);
        [intros r [Hr _]; exact Hr | | auto].
      eapply triple_bind with (R := J).
      - unfold _drawCursor.
        eapply triple_bind with (R := J).
        + eapply triple_weaken; [|apply (reserve_fits h 1)|]; [|intros r Hr; exact Hr].
          intros r [Hr Hm]. split; [exact Hr | right; split; [reflexivity | exact Hm]].
        + intros _. apply (keeps_triple scratchpadView J);
            [|intros r r'; apply scratchpad_fits_view].
          unfold _copyScratchpadTile, d2d_BeginDraw, d2d_Clear, d2d_FillRectangle,
            d2d_DrawRectangle, d2d_EndDraw.
          keeps_go.
      - intros _. apply (keeps_triple scratchpadView J);
          [|intros r r'; apply scratchpad_fits_view].
        unfold update_invalidations. keeps_go. }
    intros _. apply triple_get_bind. intros r2.
    eapply triple_weaken with (P' := J) (Q' := J);
      [intros r [Hr _]; exact Hr | | auto].
    apply (keeps_triple scratchpadView J); [|intros r r'; apply scratchpad_fits_view].
    unfold _updateConstantBuffer, update_invalidations. keeps_go. }
  destruct (Ht w tt Hfit Hdone) as [Hfit' Hmax].
  split; [exact Hfit'|]. split; [exact Hmax|]. split; [|exact Hcell].
  destruct Hfit' as (Hcx & _ & Hcap & Hwide). rewrite Hcell in *. nia.
Qed.

Lemma Present_keeps_scratchpad_wide_enough_witness :
  scratchpad_fits (r_ Frames.aliased_colored)
  /\ outcome (Present_try Sample.header Frames.aliased_colored) = Done tt
  /\ scratchpad_fits (r_ (world (Present_try Sample.header Frames.aliased_colored)))
  /\ maxEncounteredCellCount (r_ (world (Present_try Sample.header Frames.aliased_colored)))
     <= scratchpadCellWidth (r_ (world (Present_try Sample.header Frames.aliased_colored)))
  /\ maxEncounteredCellCount (r_ (world (Present_try Sample.header Frames.aliased_colored)))
     * x (cellSize (r_ Frames.aliased_colored))
     <= scratchpadWidth (r_ (world (Present_try Sample.header Frames.aliased_colored))).
Proof.
  assert (Hfit : scratchpad_fits (r_ Frames.aliased_colored))
    by (unfold scratchpad_fits, u16_max; cbn; lia).
  split; [exact Hfit|]. split; [vm_compute; reflexivity|].
  destruct (Present_keeps_scratchpad_wide_enough Sample.header Frames.aliased_colored Hfit)
    as (H1 & H2 & H3 & _); [vm_compute; reflexivity|].
  split; [exact H1|]. split; [exact H2 | exact H3].
Defined.

(** ** A drained queue, tile by tile *)

Lemma copyScratchpadTile_Done h i t f w :
  outcome (_copyScratchpadTile h i t f w) = Done tt ->
  r_ (world (_copyScratchpadTile h i t f w)) = r_ w
  /\ collect tileCopyTarget (events (_copyScratchpadTile h i t f w)) = [t]
  /\ collect tileSourceOffset (events (_copyScratchpadTile h i t f w))
     = [tileOffset (ATLAS_D2D_SOFTWARE_RENDERING h) (x (cellSize (r_ w))) i]
  /\ flat_map glyphStepsOf (events (_copyScratchpadTile h i t f w))
     = [TileRead (tileOffset (ATLAS_D2D_SOFTWARE_RENDERING h) (x (cellSize (r_ w))) i);
        TileWritten t].
Proof.
  destruct w as [r g]. destruct t as [tx ty]. unfold _copyScratchpadTile, tileOffset. run.
  destruct (ATLAS_D2D_SOFTWARE_RENDERING h); run.
  - destruct (atlasScratchpad r); run; [|intros Hx; discriminate Hx].
    destruct (FAILED (hd S_OK g)); run; [intros Hx; discriminate Hx|].
    destruct (FAILED (hd S_OK (tl g))); run; [intros Hx; discriminate Hx|].
    destruct (FAILED (hd S_OK (tl (tl g)))); run; [intros Hx; discriminate Hx|].
    intros _. repeat split.
  - intros _. repeat split.
Qed.

Lemma drawGlyph_tiles_Done h cs l w :
  outcome (for_each l
             (fun i =>
                match nth_error cs i with
                | None => undefined
                | Some c => _copyScratchpadTile h (Z.of_nat i) c 0
                end) w) = Done tt ->
  r_ (world (for_each l
               (fun i =>
                  match nth_error cs i with
                  | None => undefined
                  | Some c => _copyScratchpadTile h (Z.of_nat i) c 0
                  end) w)) = r_ w
  /\ map Some (collect tileCopyTarget
                 (events (for_each l
                            (fun i =>
                               match nth_error cs i with
                               | None => undefined
                               | Some c => _copyScratchpadTile h (Z.of_nat i) c 0
                               end) w)))
     = map (nth_error cs) l
  /\ collect tileSourceOffset
       (events (for_each l
                  (fun i =>
                     match nth_error cs i with
                     | None => undefined
                     | Some c => _copyScratchpadTile h (Z.of_nat i) c 0
                     end) w))
     = map (fun i => tileOffset (ATLAS_D2D_SOFTWARE_RENDERING h) (x (cellSize (r_ w)))
                       (Z.of_nat i)) l
  /\ flat_map glyphStepsOf
       (events (for_each l
                  (fun i =>
                     match nth_error cs i with
                     | None => undefined
                     | Some c => _copyScratchpadTile h (Z.of_nat i) c 0
                     end) w))
     = flat_map (fun i =>
                   [TileRead (tileOffset (ATLAS_D2D_SOFTWARE_RENDERING h)
                                (x (cellSize (r_ w))) (Z.of_nat i));
                    TileWritten (nth i cs u16x2_zero)]) l.
Proof.
  revert w. induction l as [|i l IH]; intros w; [intros _; repeat split|].
  cbn [for_each]. intros Hdone.
  apply bind_Done in Hdone. destruct Hdone as ([] & Hhead & Hrest & Hw & Hev).
  rewrite Hw, Hev, !collect_app, map_app, flat_map_app.
  destruct (nth_error cs i) as [c|] eqn:Hc; [|discriminate Hhead].
  destruct (copyScratchpadTile_Done h (Z.of_nat i) c 0 w Hhead) as (Hr & Ht & Ho & Hs).
  destruct (IH _ Hrest) as (Hr' & Ht' & Ho' & Hs').
  rewrite Hr', Ht', Ho', Hs', Hr, Ht, Ho, Hs. cbn [map app flat_map].
  rewrite Hc, (nth_error_nth cs i u16x2_zero Hc). repeat split.
Qed.

Lemma skipn_nth_error {A} (l : list A) n a :
  nth_error l n = Some a -> skipn n l = a :: skipn (S n) l.
Proof.
  revert l. induction n as [|n IH]; intros [|b l]; cbn; try discriminate.
  - intros [= ->]. reflexivity.
  - intros H. apply (IH l H).
Qed.

Lemma firstn_of_lookups {A} (cs ts : list A) n s :
  map Some ts = map (nth_error cs) (seq s n) -> ts = firstn n (skipn s cs).
Proof.
  revert s ts. induction n as [|n IH]; intros s [|t ts]; cbn [seq map]; try discriminate.
  - reflexivity.
  - intros [= Ht Hts]. symmetry in Ht.
    rewrite (skipn_nth_error cs s t Ht). cbn [firstn]. f_equal. apply IH. exact Hts.
Qed.

(** Lookups that all succeed on the first [n] indices: the list has [n]
    elements. *)
Lemma lookups_length {A} (cs ts : list A) n :
  map Some ts = map (nth_error cs) (seq 0 n) -> (n <= length cs)%nat.
Proof.
  intros H.
  destruct (Nat.le_gt_cases n (length cs)) as [Hle|Hgt]; [exact Hle|].
  exfalso.
  assert (Hin : In (nth_error cs (length cs)) (map (nth_error cs) (seq 0 n))).
  { apply in_map. apply in_seq. lia. }
  rewrite <- H in Hin. apply in_map_iff in Hin. destruct Hin as (t & Ht & _).
  pose proof (proj2 (nth_error_None cs (length cs)) (Nat.le_refl _)) as Hn.
  rewrite Hn in Ht. discriminate Ht.
Qed.

Lemma drawGlyph_Done h item w :
  outcome (_drawGlyph h item w) = Done tt ->
  (cellSize (r_ (world (_drawGlyph h item w))) = cellSize (r_ w)
   /\ cellSizeDIP (r_ (world (_drawGlyph h item w))) = cellSizeDIP (r_ w)
   /\ glyphQueue (r_ (world (_drawGlyph h item w))) = glyphQueue (r_ w))
  /\ collect tileCopyTarget (events (_drawGlyph h item w)) = tileTargets item
  /\ collect tileSourceOffset (events (_drawGlyph h item w))
     = tileOffsets (ATLAS_D2D_SOFTWARE_RENDERING h) (x (cellSize (r_ w))) item
  /\ flat_map glyphStepsOf (events (_drawGlyph h item w))
     = glyphStepsAt (tileOffset (ATLAS_D2D_SOFTWARE_RENDERING h) (x (cellSize (r_ w))))
                    (cellSizeDIP (r_ w)) item
  /\ item_ok item.
Proof.
  destruct w as [r g]. cbn [r_ gpu] in *.
  unfold _drawGlyph, tileTargets, tileOffsets, glyphStepsAt, item_ok. run.
  destruct (FAILED (hd S_OK g)); run; [intros Hx; discriminate Hx|].
  destruct (d2dRenderTarget r) as [t|] eqn:Ht;
    [|destruct (typography r); run;
      destruct (aa_eqb (realizedAntialiasingMode r) D2D1_TEXT_ANTIALIAS_MODE_CLEARTYPE);
      run; repeat (rewrite Ht; run); intros Hx; discriminate Hx].
  destruct (typography r); run;
    (destruct (aa_eqb (realizedAntialiasingMode r) D2D1_TEXT_ANTIALIAS_MODE_CLEARTYPE);
     run; repeat (rewrite Ht; run);
     (destruct (FAILED (hd S_OK (tl g))); run; [intros Hx; discriminate Hx|]);
     match goal with
     | |- context [for_each ?l ?body ?w'] =>
       assert (Hloop :
                 outcome (for_each l body w') = Done tt ->
                 r_ (world (for_each l body w')) = r_ w'
                 /\ map Some (collect tileCopyTarget (events (for_each l body w')))
                    = map (nth_error (coords (value item))) l
                 /\ collect tileSourceOffset (events (for_each l body w'))
                    = map (fun i => tileOffset (ATLAS_D2D_SOFTWARE_RENDERING h)
                                      (x (cellSize (r_ w'))) (Z.of_nat i)) l
                 /\ flat_map glyphStepsOf (events (for_each l body w'))
                    = flat_map (fun i =>
                                  [TileRead (tileOffset (ATLAS_D2D_SOFTWARE_RENDERING h)
                                               (x (cellSize (r_ w'))) (Z.of_nat i));
                                   TileWritten (nth i (coords (value item)) u16x2_zero)]) l)
         by exact (drawGlyph_tiles_Done h (coords (value item)) l w');
       set (res := for_each l body w') in *; clearbody res;
       destruct res as [[[]| | |] w2 e2]
     end;
     cbn [outcome events world r_] in *; cbn;
     try (intros Hx; discriminate Hx); intros _;
     destruct (Hloop eq_refl) as (Hr & Htg & Hof & Hst);
     pose proof (lookups_length _ _ _ Htg) as Hlen;
     apply firstn_of_lookups in Htg; cbn [skipn] in Htg;
     rewrite Hr, Htg, Hof, Hst; cbn;
     destruct (ColoredGlyph (value item)); repeat split; exact Hlen).
Qed.

Lemma glyphs_Done h queue w :
  outcome (for_each queue (_drawGlyph h) w) = Done tt ->
  (cellSize (r_ (world (for_each queue (_drawGlyph h) w))) = cellSize (r_ w)
   /\ cellSizeDIP (r_ (world (for_each queue (_drawGlyph h) w))) = cellSizeDIP (r_ w)
   /\ glyphQueue (r_ (world (for_each queue (_drawGlyph h) w))) = glyphQueue (r_ w))
  /\ collect tileCopyTarget (events (for_each queue (_drawGlyph h) w))
     = flat_map tileTargets queue
  /\ collect tileSourceOffset (events (for_each queue (_drawGlyph h) w))
     = flat_map (tileOffsets (ATLAS_D2D_SOFTWARE_RENDERING h) (x (cellSize (r_ w)))) queue
  /\ flat_map glyphStepsOf (events (for_each queue (_drawGlyph h) w))
     = flat_map (glyphStepsAt
                   (tileOffset (ATLAS_D2D_SOFTWARE_RENDERING h) (x (cellSize (r_ w))))
                   (cellSizeDIP (r_ w))) queue
  /\ Forall item_ok queue.
Proof.
  revert w. induction queue as [|item queue IH]; intros w;
    [intros _; repeat split; constructor|].
  cbn [for_each]. intros Hdone.
  apply bind_Done in Hdone. destruct Hdone as ([] & Hhead & Hrest & Hw & Hev).
  rewrite Hw, Hev, !collect_app, flat_map_app.
  destruct (drawGlyph_Done h item w Hhead) as ((Hc & Hd & Hq) & Ht & Ho & Hs & Hok).
  destruct (IH _ Hrest) as ((Hc' & Hd' & Hq') & Ht' & Ho' & Hs' & Hok').
  rewrite Hc', Hd', Hq', Ht', Ho', Hs', Hc, Hd, Hq, Ht, Ho, Hs.
  repeat split. constructor; assumption.
Qed.

(** What a completed [_processGlyphQueue] comes to. *)
Lemma processGlyphQueue_completes h w :
  outcome (_processGlyphQueue h w) = Done tt ->
  collect tileCopyTarget (events (_processGlyphQueue h w))
  = flat_map tileTargets (glyphQueue (r_ w))
  /\ collect tileSourceOffset (events (_processGlyphQueue h w))
     = flat_map (tileOffsets (ATLAS_D2D_SOFTWARE_RENDERING h) (x (cellSize (r_ w))))
                (glyphQueue (r_ w))
  /\ flat_map glyphStepsOf (events (_processGlyphQueue h w))
     = flat_map (glyphStepsAt
                   (tileOffset (ATLAS_D2D_SOFTWARE_RENDERING h) (x (cellSize (r_ w))))
                   (cellSizeDIP (r_ w))) (glyphQueue (r_ w))
  /\ Forall item_ok (glyphQueue (r_ w))
  /\ glyphQueue (r_ (world (_processGlyphQueue h w))) = [].
Proof.
  unfold _processGlyphQueue. rewrite bind_get_run.
  destruct (glyphQueue (r_ w)) as [|item queue] eqn:Hq.
  - intros _. cbn. rewrite Hq. repeat split. constructor.
  - intros Hdone. apply bind_Done in Hdone.
    destruct Hdone as ([] & Hloop & _ & Hw & Hev).
    rewrite Hw, Hev, !collect_app, flat_map_app.
    destruct (glyphs_Done h (item :: queue) w Hloop) as (_ & Ht & Ho & Hs & Hok).
    rewrite Ht, Ho, Hs. cbn [modify events collect world r_ flat_map].
    rewrite !app_nil_r. repeat split. exact Hok.
Qed.

(** Where the pixel offset of a tile fits an [INT], it is the plain product
    on both paths. *)
Lemma tileOffset_plain software cellWidth index :
  0 <= index * cellWidth < 2 ^ 31 -> tileOffset software cellWidth index = index * cellWidth.
Proof.
  intros H. unfold tileOffset, to_INT, U32.mul.
  rewrite wrap_small by (change (2 ^ 32) with (2 * 2 ^ 31); lia).
  destruct software; [|reflexivity].
  destruct (Z.ltb_spec (index * cellWidth) (2 ^ 31)); [reflexivity | lia].
Qed.

Lemma flat_map_ext_seq {B} (f g : nat -> list B) n :
  (forall i, (i < n)%nat -> f i = g i) -> flat_map f (seq 0 n) = flat_map g (seq 0 n).
Proof.
  intros H. rewrite !flat_map_concat_map. f_equal. apply map_ext_in.
  intros i Hi. apply in_seq in Hi. apply H. lia.
Qed.

Lemma glyphStepsAt_plain software cell cellDIP item :
  0 <= x cell ->
  cellCount (key item) * x cell <= 2 ^ 31 ->
  glyphStepsAt (tileOffset software (x cell)) cellDIP item = glyphSteps cell cellDIP item.
Proof.
  intros Hcx Hwide. unfold glyphSteps, glyphStepsAt. do 2 f_equal.
  apply flat_map_ext_seq. intros i Hi.
  rewrite tileOffset_plain; [reflexivity|].
  assert (Hlt : Z.of_nat i < cellCount (key item)) by lia.
  assert (Hstep : (Z.of_nat i + 1) * x cell <= cellCount (key item) * x cell)
    by (apply Z.mul_le_mono_nonneg_r; lia).
  assert (Hpos : 0 <= Z.of_nat i * x cell) by (apply Z.mul_nonneg_nonneg; lia).
  destruct (Z.eq_dec (x cell) 0) as [Hz|Hnz].
  - rewrite Hz, Z.mul_0_r. split; [lia | reflexivity].
  - lia.
Qed.

(** X7: a queue that is drained to the end is drained glyph by glyph and
    tile by tile.  The layouts, rasterizations, tile reads and tile writes
    of the trace are, for each queued glyph in queue order: the layout of
    its own text (characters, length, weight and slant), as wide as its
    cells; one rasterization, with color fonts enabled exactly for a
    colored glyph; and then, for each of its cells in turn, the read of
    tile [i] of the scratchpad, [i] cell widths from the left, and the
    write of that tile at the [i]-th coordinate of its value.  Every
    queued glyph had a coordinate for each of its cells, and the queue is
    empty afterwards.  The pixel width of a glyph is taken to fit an
    [INT]. *)
Theorem processGlyphQueue_Done h w :
  0 <= x (cellSize (r_ w)) ->
  Forall (fun item => cellCount (key item) * x (cellSize (r_ w)) <= 2 ^ 31)
         (glyphQueue (r_ w)) ->
  outcome (_processGlyphQueue h w) = Done tt ->
  flat_map glyphStepsOf (events (_processGlyphQueue h w))
  = flat_map (glyphSteps (cellSize (r_ w)) (cellSizeDIP (r_ w))) (glyphQueue (r_ w))
  /\ Forall item_ok (glyphQueue (r_ w))
  /\ glyphQueue (r_ (world (_processGlyphQueue h w))) = [].
Proof.
  intros Hcx Hwide Hdone.
  destruct (processGlyphQueue_completes h w Hdone) as (_ & _ & Hs & Hok & Hq).
  split; [|split; assumption].
  rewrite Hs, !flat_map_concat_map. f_equal. apply map_ext_in.
  intros item Hin. rewrite Forall_forall in Hwide.
  apply glyphStepsAt_plain; [exact Hcx | exact (Hwide item Hin)].
Qed.

Lemma processGlyphQueue_Done_witness :
  flat_map glyphStepsOf (events (_processGlyphQueue Sample.header Frames.one_glyph))
  = [LaidOut [65] 1 false false (F32.of_Z 8) (F32.of_Z 16);
     Rasterized D2D1_DRAW_TEXT_OPTIONS_NONE;
     TileRead 0; TileWritten (mk_u16x2 8 0)].
Proof.
  destruct (processGlyphQueue_Done Sample.header Frames.one_glyph) as (Hs & _).
  - cbn. lia.
  - repeat constructor. cbn. lia.
  - vm_compute. reflexivity.
  - rewrite Hs. vm_compute. reflexivity.
Defined.

(** ** The tile of the cursor *)





(** ** What holds after a frame whatever its outcome *)

Section Invariant.

Variable I : Resources -> Prop.

Lemma invariant_ret {A} (a : A) : invariant I (ret a).
Proof. intros w Hw. exact Hw. Qed.

Lemma invariant_emit e : invariant I (emit e).
Proof. intros w Hw. exact Hw. Qed.

Lemma invariant_undefined {A} : invariant I (@undefined A).
Proof. intros w Hw. exact Hw. Qed.

Lemma invariant_THROW_IF_FAILED c : invariant I (THROW_IF_FAILED c).
Proof. intros w Hw. unfold THROW_IF_FAILED. destruct (FAILED _); exact Hw. Qed.

Lemma invariant_modify g : (forall r, I r -> I (g r)) -> invariant I (modify g).
Proof. intros Hg w Hw. apply Hg. exact Hw. Qed.

Lemma invariant_bind {A B} (m : M A) (k : A -> M B) :
  invariant I m -> (forall a, invariant I (k a)) -> invariant I (bind m k).
Proof.
  intros Hm Hk w Hw. specialize (Hm w Hw). unfold bind.
  destruct (m w) as [[a| | |] w1 e1]; cbn [world] in *; try exact Hm.
  specialize (Hk a w1 Hm). destruct (k a w1) as [o w2 e2]. exact Hk.
Qed.

Lemma invariant_get_bind {B} (k : Resources -> M B) :
  (forall r, invariant I (k r)) -> invariant I (bind get k).
Proof. intros Hk. apply invariant_bind; [intros w Hw; exact Hw | exact Hk]. Qed.

Lemma invariant_when b m : invariant I m -> invariant I (when b m).
Proof. intros Hm. destruct b; [exact Hm | apply invariant_ret]. Qed.

Lemma invariant_noexcept {A} (m : M A) : invariant I m -> invariant I (noexcept m).
Proof.
  intros Hm w Hw. specialize (Hm w Hw). unfold noexcept.
  destruct (m w) as [[a| | |] w1 e1]; exact Hm.
Qed.

Lemma invariant_for_each {A} (l : list A) body :
  (forall a, invariant I (body a)) -> invariant I (for_each l body).
Proof.
  intros Hb. induction l as [|a l IH]; cbn [for_each]; [apply invariant_ret|].
  apply invariant_bind; [apply Hb | intros _; exact IH].
Qed.

Lemma invariant_with_target {A} (k : RenderTarget -> M A) :
  (forall t, invariant I (k t)) -> invariant I (with_target k).
Proof.
  intros Hk. unfold with_target. apply invariant_get_bind. intros r.
  destruct (d2dRenderTarget r); [apply Hk | apply invariant_undefined].
Qed.

End Invariant.

Ltac invariant_go tac :=
  repeat first
    [ apply invariant_with_target; intros ?
    | apply invariant_when
    | apply invariant_noexcept
    | apply invariant_for_each; intros ?
    | apply invariant_ret | apply invariant_emit | apply invariant_undefined
    | apply invariant_THROW_IF_FAILED
    | apply invariant_modify; intros ? ?; tac
    | apply invariant_get_bind; intros ?
    | apply invariant_bind; [|intros ?]
    | match goal with
      | |- invariant _ (let _ := _ in _) => cbv zeta
      | |- invariant _ (if ?c then _ else _) => destruct c
      | |- invariant _ (match ?x with _ => _ end) => destruct x eqn:?
      end ].

Ltac unfold_pipeline :=
  unfold Present_try, _adjustAtlasSize, _reserveScratchpadSize, _processGlyphQueue,
    _drawGlyph, _drawCursor, _updateConstantBuffer, _copyScratchpadTile,
    _setShaderResources, update_invalidations,
    d2d_SetTextAntialiasMode, d2d_BeginDraw, d2d_Clear, d2d_DrawTextLayout,
    d2d_FillRectangle, d2d_DrawRectangle, d2d_EndDraw.

Lemma world_Present h w : world (Present h w) = world (Present_try h w).
Proof. unfold Present. destruct (Present_try h w) as [[[]| | |] w1 e1]; reflexivity. Qed.

Lemma events_Present h w : events (Present h w) = events (Present_try h w).
Proof. unfold Present. destruct (Present_try h w) as [[[]| | |] w1 e1]; reflexivity. Qed.

(** The two ways of a sequence: the first part completes and the second
    runs on what it left, or the first part does not complete and nothing
    follows it. *)
Lemma bind_cases {A B} (m : M A) (k : A -> M B) w :
  (exists a, outcome (m w) = Done a
             /\ outcome (bind m k w) = outcome (k a (world (m w)))
             /\ world (bind m k w) = world (k a (world (m w)))
             /\ events (bind m k w) = events (m w) ++ events (k a (world (m w))))
  \/ ((forall a, outcome (m w) <> Done a)
      /\ (forall b, outcome (bind m k w) <> Done b)
      /\ world (bind m k w) = world (m w)
      /\ events (bind m k w) = events (m w)).
Proof.
  unfold bind. destruct (m w) as [[a| | |] w1 e1]; cbn.
  - left. exists a. destruct (k a w1) as [o w2 e2]. repeat split.
  - right. repeat split; discriminate.
  - right. repeat split; discriminate.
  - right. repeat split; discriminate.
Qed.

Lemma keeps_queue_drawGlyph h item q :
  invariant (fun r => glyphQueue r = q) (_drawGlyph h item).
Proof.
  unfold _drawGlyph, _copyScratchpadTile, d2d_SetTextAntialiasMode, d2d_BeginDraw,
    d2d_Clear, d2d_DrawTextLayout, d2d_EndDraw.
  invariant_go ltac:(assumption).
Qed.

(** A run of [_processGlyphQueue] that does not complete leaves the queue
    as it was. *)
Lemma processGlyphQueue_failure h w :
  outcome (_processGlyphQueue h w) <> Done tt ->
  glyphQueue (r_ (world (_processGlyphQueue h w))) = glyphQueue (r_ w).
Proof.
  unfold _processGlyphQueue. rewrite bind_get_run.
  destruct (glyphQueue (r_ w)) as [|item queue] eqn:Hq;
    [intros H; exfalso; apply H; reflexivity|].
  intros Hfail.
  destruct (bind_cases (for_each (item :: queue) (_drawGlyph h))
                       (fun _ => modify (set_glyphQueue [])) w)
    as [(a & _ & Ho & _) | (_ & _ & Hw & _)].
  - exfalso. apply Hfail. rewrite Ho. reflexivity.
  - rewrite Hw.
    apply (invariant_for_each (fun r => glyphQueue r = item :: queue)
             (item :: queue) (_drawGlyph h)); [|exact Hq].
    intros a. apply keeps_queue_drawGlyph.
Qed.

(** The queue across the body of [Present]: untouched, or emptied by a
    complete run of [_processGlyphQueue] on it. *)
Lemma Present_try_queue h w :
  glyphQueue (r_ (world (Present_try h w))) = glyphQueue (r_ w)
  \/ (glyphQueue (r_ (world (Present_try h w))) = []
      /\ exists pre w' post,
           glyphQueue (r_ w') = glyphQueue (r_ w)
           /\ outcome (_processGlyphQueue h w') = Done tt
           /\ events (Present_try h w) = pre ++ events (_processGlyphQueue h w') ++ post).
Proof.
  assert (Hadj : invariant (fun r => glyphQueue r = glyphQueue (r_ w)) _adjustAtlasSize).
  { unfold _adjustAtlasSize, _setShaderResources, update_invalidations.
    invariant_go ltac:(assumption). }
  assert (Hres : forall n, invariant (fun r => glyphQueue r = glyphQueue (r_ w))
                                     (_reserveScratchpadSize h n)).
  { intros n. unfold _reserveScratchpadSize, d2d_SetTextAntialiasMode, update_invalidations.
    invariant_go ltac:(assumption). }
  unfold Present_try.
  match goal with
  | |- context [bind ?m ?k w] =>
    destruct (bind_cases m k w) as [([] & _ & _ & Hw1 & He1) | (_ & _ & Hw1 & _)]
  end;
    [|left; rewrite Hw1; exact (Hadj w eq_refl)].
  rewrite Hw1, He1. clear Hw1 He1.
  pose proof (Hadj w eq_refl) as Hq1.
  set (w1 := world (_adjustAtlasSize w)) in *. clearbody w1.
  cbv beta. rewrite bind_get_run.
  match goal with
  | |- context [bind ?m ?k w1] =>
    destruct (bind_cases m k w1) as [([] & _ & _ & Hw2 & He2) | (_ & _ & Hw2 & _)]
  end;
    [|left; rewrite Hw2; exact (Hres _ w1 Hq1)].
  rewrite Hw2, He2. clear Hw2 He2.
  pose proof (Hres (maxEncounteredCellCount (r_ w1)) w1 Hq1) as Hq2.
  set (w2 := world (_reserveScratchpadSize h (maxEncounteredCellCount (r_ w1)) w1)) in *.
  clearbody w2. cbv beta.
  match goal with
  | |- context [bind ?m ?k w2] =>
    destruct (bind_cases m k w2) as [([] & Hd3 & _ & Hw3 & He3) | (Hn3 & _ & Hw3 & _)];
      [assert (Hrest : invariant (fun r => glyphQueue r = []) (k tt))
         by (unfold_pipeline; invariant_go ltac:(assumption))|]
  end.
  - right. rewrite Hw3, He3.
    destruct (processGlyphQueue_completes h w2 Hd3) as (_ & _ & _ & _ & Hempty).
    split; [exact (Hrest _ Hempty)|].
    exists (events (_adjustAtlasSize w)
            ++ events (_reserveScratchpadSize h (maxEncounteredCellCount (r_ w1)) w1)), w2.
    eexists. split; [exact Hq2|]. split; [exact Hd3|].
    apply app_assoc.
  - left. rewrite Hw3.
    rewrite (processGlyphQueue_failure h w2 (Hn3 tt)). exact Hq2.
Qed.

(** X8: the glyph queue is never left half drained.  A run of
    [_processGlyphQueue] that does not complete leaves the queue exactly as
    it was, whatever it has drawn and copied already.  And whatever
    [Present] comes to, a returned error code, a termination or undefined
    behaviour included, the queue is afterwards either exactly what it was,
    or empty, and it is empty only where a complete run of
    [_processGlyphQueue] on that very queue is part of the trace of the
    frame: a frame that fails while glyphs are drawn keeps all of them
    queued, also those whose tiles have reached the atlas already. *)
Theorem Present_queue_all_or_nothing h w :
  (outcome (_processGlyphQueue h w) <> Done tt ->
   glyphQueue (r_ (world (_processGlyphQueue h w))) = glyphQueue (r_ w))
  /\ (glyphQueue (r_ (world (Present h w))) = glyphQueue (r_ w)
      \/ (glyphQueue (r_ (world (Present h w))) = []
          /\ exists pre w' post,
               glyphQueue (r_ w') = glyphQueue (r_ w)
               /\ outcome (_processGlyphQueue h w') = Done tt
               /\ events (Present h w) = pre ++ events (_processGlyphQueue h w') ++ post)).
Proof.
  split; [apply processGlyphQueue_failure|].
  rewrite world_Present, events_Present. apply Present_try_queue.
Qed.

(** A frame in which the second of two glyphs cannot be laid out: the tile
    of the first is in the atlas, the error is returned, and both glyphs
    are still queued. *)
Example Present_keeps_queue_on_failure :
  outcome (Present Sample.header Frames.second_glyph_fails)
  = Done Sample.DXGI_ERROR_DEVICE_REMOVED
  /\ collect tileCopyTarget (events (Present Sample.header Frames.second_glyph_fails))
     = [mk_u16x2 8 0]
  /\ glyphQueue (r_ (world (Present Sample.header Frames.second_glyph_fails)))
     = glyphQueue (r_ Frames.second_glyph_fails).
Proof. repeat split; vm_compute; reflexivity. Qed.

(** X9: [Present] only reads what it is given.  Whatever the outcome, the
    settings, the cell metrics, the fill cursor of the atlas and the widest
    glyph met are afterwards what they were. *)
Theorem Present_reads_settings h w :
  settingsView (r_ (world (Present h w))) = settingsView (r_ w).
Proof.
  rewrite world_Present.
  assert (Hinv : invariant (fun r => settingsView r = settingsView (r_ w)) (Present_try h)).
  { unfold_pipeline. invariant_go ltac:(assumption). }
  exact (Hinv w eq_refl).
Qed.

(** ** Failures while the scratchpad is in use *)

(** X10: a regrow of the scratchpad that fails is not rolled back.  The old
    surface and its render target are released before the new ones are
    created, so after any failure the old render target is gone (only a
    failure of the last call, the brush, leaves a new one behind), while
    the recorded capacity and the invalidation flags stay as they were:
    the bookkeeping then still speaks of the surface that was released. *)
Theorem reserve_failure_not_rolled_back h n w :
  outcome (_reserveScratchpadSize h n w) <> Done tt ->
  scratchpadCellWidth (r_ w) < n
  /\ scratchpadCellWidth (r_ (world (_reserveScratchpadSize h n w)))
     = scratchpadCellWidth (r_ w)
  /\ invalidations (r_ (world (_reserveScratchpadSize h n w))) = invalidations (r_ w)
  /\ (d2dRenderTarget (r_ (world (_reserveScratchpadSize h n w))) = None
      \/ exists hr, FAILED hr = true
                    /\ In (Call CreateSolidColorBrush hr)
                          (events (_reserveScratchpadSize h n w))).
Proof.
  destruct w as [r g]. cbn [r_].
  unfold _reserveScratchpadSize. run.
  destruct (Z.leb_spec n (scratchpadCellWidth r)) as [Hle|Hlt]; run;
    [intros Hx; exfalso; apply Hx; reflexivity|].
  destruct (ATLAS_D2D_SOFTWARE_RENDERING h); run.
  - destruct (FAILED (hd S_OK g)) eqn:H1; run;
      [intros _; repeat split; [exact Hlt | left; reflexivity]|].
    destruct (FAILED (hd S_OK (tl g))) eqn:H2; run;
      [intros _; repeat split; [exact Hlt | left; reflexivity]|].
    destruct (FAILED (hd S_OK (tl (tl g)))) eqn:H3; run;
      [|intros Hx; exfalso; apply Hx; reflexivity].
    intros _. repeat split; [exact Hlt|].
    right. exists (hd S_OK (tl (tl g))). split; [exact H3|].
    right. right. right. left. reflexivity.
  - intros _. repeat split; [exact Hlt | left; reflexivity].
Qed.

Lemma reserve_failure_not_rolled_back_witness :
  scratchpadCellWidth
    (r_ (world (_reserveScratchpadSize Sample.header 2
                  (mk_world (r_ Frames.one_glyph) [Sample.DXGI_ERROR_DEVICE_REMOVED]))))
  = 1
  /\ d2dRenderTarget
       (r_ (world (_reserveScratchpadSize Sample.header 2
                     (mk_world (r_ Frames.one_glyph) [Sample.DXGI_ERROR_DEVICE_REMOVED]))))
     = None.
Proof.
  destruct (reserve_failure_not_rolled_back Sample.header 2
              (mk_world (r_ Frames.one_glyph) [Sample.DXGI_ERROR_DEVICE_REMOVED]))
    as (_ & Hcap & _ & _); [vm_compute; discriminate|].
  split; [exact Hcap | vm_compute; reflexivity].
Defined.

(** X11: a glyph reaches the atlas only after its rasterization has ended
    well: when [_drawGlyph] issues a tile copy, the trace holds an [EndDraw]
    that succeeded.  A glyph whose text layout or whose drawing failed
    leaves the atlas untouched. *)
Theorem drawGlyph_copies_after_EndDraw h item w :
  collect tileCopyTarget (events (_drawGlyph h item w)) <> [] ->
  exists hr, FAILED hr = false /\ In (Call EndDraw hr) (events (_drawGlyph h item w)).
Proof.
  destruct w as [r g]. cbn [r_ gpu] in *.
  unfold _drawGlyph. run.
  destruct (FAILED (hd S_OK g)); run; [intros Hx; exfalso; apply Hx; reflexivity|].
  destruct (d2dRenderTarget r) as [t|] eqn:Ht;
    [|destruct (typography r); run;
      destruct (aa_eqb (realizedAntialiasingMode r) D2D1_TEXT_ANTIALIAS_MODE_CLEARTYPE);
      run; repeat (rewrite Ht; run); intros Hx; exfalso; apply Hx; reflexivity].
  destruct (typography r); run;
    (destruct (aa_eqb (realizedAntialiasingMode r) D2D1_TEXT_ANTIALIAS_MODE_CLEARTYPE);
     run; repeat (rewrite Ht; run);
     (destruct (FAILED (hd S_OK (tl g))) eqn:H2; run;
      [intros Hx; exfalso; apply Hx; reflexivity|]);
     match goal with
     | |- context [for_each ?l ?body ?w'] =>
       set (res := for_each l body w') in *; clearbody res; destruct res as [o w2 e2]
     end;
     cbn; intros _; exists (hd S_OK (tl g))).
  all: split; [exact H2|].
  all: repeat first [left; reflexivity | right].
Qed.

Lemma drawGlyph_copies_after_EndDraw_witness :
  exists hr,
    FAILED hr = false
    /\ In (Call EndDraw hr)
          (events (_drawGlyph Sample.header (Sample.glyphA (mk_u16x2 8 0) false)
                     Frames.one_glyph)).
Proof.
  apply (drawGlyph_copies_after_EndDraw Sample.header (Sample.glyphA (mk_u16x2 8 0) false)
           Frames.one_glyph).
  vm_compute. discriminate.
Defined.

(** ** A frame, stage by stage *)

Lemma frame_end_Done w :
  outcome ((THROW_IF_FAILED CellBuffer_Map ;;
            emit CellBuffer_memcpy ;;
            emit (Draw 3 0) ;;
            THROW_IF_FAILED CommandAllocator_Reset ;;
            THROW_IF_FAILED CommandList_Reset ;;
            emit (DrawInstanced 3 1 0 0) ;;
            THROW_IF_FAILED CommandList_Close ;;
            THROW_IF_FAILED (SwapChain_Present 1 0)) w) = Done tt ->
  exists hr1 hr2 hr3 hr4 hr5,
    events ((THROW_IF_FAILED CellBuffer_Map ;;
             emit CellBuffer_memcpy ;;
             emit (Draw 3 0) ;;
             THROW_IF_FAILED CommandAllocator_Reset ;;
             THROW_IF_FAILED CommandList_Reset ;;
             emit (DrawInstanced 3 1 0 0) ;;
             THROW_IF_FAILED CommandList_Close ;;
             THROW_IF_FAILED (SwapChain_Present 1 0)) w)
    = frame_tail hr1 hr2 hr3 hr4 hr5
    /\ r_ (world ((THROW_IF_FAILED CellBuffer_Map ;;
                   emit CellBuffer_memcpy ;;
                   emit (Draw 3 0) ;;
                   THROW_IF_FAILED CommandAllocator_Reset ;;
                   THROW_IF_FAILED CommandList_Reset ;;
                   emit (DrawInstanced 3 1 0 0) ;;
                   THROW_IF_FAILED CommandList_Close ;;
                   THROW_IF_FAILED (SwapChain_Present 1 0)) w)) = r_ w.
Proof.
  destruct w as [r g]. run.
  destruct (FAILED (hd S_OK g)); run; [intros Hx; discriminate Hx|].
  destruct (FAILED (hd S_OK (tl g))); run; [intros Hx; discriminate Hx|].
  destruct (FAILED (hd S_OK (tl (tl g)))); run; [intros Hx; discriminate Hx|].
  destruct (FAILED (hd S_OK (tl (tl (tl g))))); run; [intros Hx; discriminate Hx|].
  destruct (FAILED (hd S_OK (tl (tl (tl (tl g)))))); run; [intros Hx; discriminate Hx|].
  intros _. eexists _, _, _, _, _. split; reflexivity.
Qed.

(** The stages of a frame that goes through, each on the world the one
    before it left. *)
Lemma Present_try_stages h w :
  outcome (Present_try h w) = Done tt ->
  exists w1 w2 w3 w4 w5 hr1 hr2 hr3 hr4 hr5,
    (outcome (_adjustAtlasSize w) = Done tt /\ w1 = world (_adjustAtlasSize w))
    /\ (outcome (_reserveScratchpadSize h (maxEncounteredCellCount (r_ w1)) w1) = Done tt
        /\ w2 = world (_reserveScratchpadSize h (maxEncounteredCellCount (r_ w1)) w1))
    /\ (outcome (_processGlyphQueue h w2) = Done tt /\ w3 = world (_processGlyphQueue h w2))
    /\ (outcome (when (Cursor (invalidations (r_ w3)))
                   (_drawCursor h ;; update_invalidations WI_ClearFlag_Cursor) w3) = Done tt
        /\ w4 = world (when (Cursor (invalidations (r_ w3)))
                         (_drawCursor h ;; update_invalidations WI_ClearFlag_Cursor) w3))
    /\ (outcome (when (ConstBuffer (invalidations (r_ w4)))
                   (_updateConstantBuffer ;; update_invalidations WI_ClearFlag_ConstBuffer)
                   w4) = Done tt
        /\ w5 = world (when (ConstBuffer (invalidations (r_ w4)))
                         (_updateConstantBuffer ;;
                          update_invalidations WI_ClearFlag_ConstBuffer) w4))
    /\ r_ (world (Present_try h w)) = r_ w5
    /\ events (Present_try h w)
       = events (_adjustAtlasSize w)
         ++ events (_reserveScratchpadSize h (maxEncounteredCellCount (r_ w1)) w1)
         ++ events (_processGlyphQueue h w2)
         ++ events (when (Cursor (invalidations (r_ w3)))
                      (_drawCursor h ;; update_invalidations WI_ClearFlag_Cursor) w3)
         ++ events (when (ConstBuffer (invalidations (r_ w4)))
                      (_updateConstantBuffer ;;
                       update_invalidations WI_ClearFlag_ConstBuffer) w4)
         ++ frame_tail hr1 hr2 hr3 hr4 hr5.
Proof.
  unfold Present_try. intros H.
  apply bind_Done in H. destruct H as ([] & H1 & H & Hw1 & He1).
  rewrite Hw1, He1. clear Hw1 He1.
  remember (world (_adjustAtlasSize w)) as w1 eqn:Ew1 in *.
  rewrite bind_get_run in *.
  apply bind_Done in H. destruct H as ([] & H2 & H & Hw2 & He2).
  rewrite Hw2, He2. clear Hw2 He2.
  remember (world (_reserveScratchpadSize h (maxEncounteredCellCount (r_ w1)) w1)) as w2 eqn:Ew2 in *.
  apply bind_Done in H. destruct H as ([] & H3 & H & Hw3 & He3).
  rewrite Hw3, He3. clear Hw3 He3.
  remember (world (_processGlyphQueue h w2)) as w3 eqn:Ew3 in *.
  rewrite bind_get_run in *.
  apply bind_Done in H. destruct H as ([] & H4 & H & Hw4 & He4).
  rewrite Hw4, He4. clear Hw4 He4.
  remember (world (when (Cursor (invalidations (r_ w3)))
                      (_drawCursor h ;; update_invalidations WI_ClearFlag_Cursor) w3)) as w4 eqn:Ew4 in *.
  rewrite bind_get_run in *.
  apply bind_Done in H. destruct H as ([] & H5 & H & Hw5 & He5).
  rewrite Hw5, He5. clear Hw5 He5.
  remember (world (when (ConstBuffer (invalidations (r_ w4)))
                      (_updateConstantBuffer ;;
                       update_invalidations WI_ClearFlag_ConstBuffer) w4)) as w5 eqn:Ew5 in *.
  destruct (frame_end_Done w5 H) as (hr1 & hr2 & hr3 & hr4 & hr5 & Hev & Hr).
  rewrite Hev, Hr.
  exists w1, w2, w3, w4, w5, hr1, hr2, hr3, hr4, hr5.
  repeat split; assumption.
Qed.

Ltac emits_all :=
  repeat first
    [ apply emits_for_each; intros ? _
    | emits_step
    | match goal with
      | |- emits _ (let _ := _ in _) => cbv zeta
      | |- emits _ (if ?c then _ else _) => destruct c
      | |- emits _ (match ?x with _ => _ end) => destruct x eqn:?
      end ].

Lemma keeps_at {A B} (f : Resources -> B) (m : M A) w a :
  keeps f m -> outcome (m w) = Done a -> f (r_ (world (m w))) = f (r_ w).
Proof. intros Hk Hd. exact (Hk (f (r_ w)) w a eq_refl Hd). Qed.

(** What the cursor redraw depends on. *)
Lemma keeps_cursor_inputs_adjustAtlasSize :
  keeps (fun r => (cursorOptions r, cellSizeDIP r, dpi r)) _adjustAtlasSize.
Proof. unfold _adjustAtlasSize, _setShaderResources, update_invalidations. keeps_go. Qed.

Lemma keeps_cursor_inputs_reserve h n :
  keeps (fun r => (cursorOptions r, cellSizeDIP r, dpi r, Cursor (invalidations r)))
        (_reserveScratchpadSize h n).
Proof.
  unfold _reserveScratchpadSize, d2d_SetTextAntialiasMode, update_invalidations. keeps_go.
Qed.

Lemma keeps_cursor_inputs_processGlyphQueue h :
  keeps (fun r => (cursorOptions r, cellSizeDIP r, dpi r, Cursor (invalidations r)))
        (_processGlyphQueue h).
Proof.
  unfold _processGlyphQueue, _drawGlyph, _copyScratchpadTile, d2d_SetTextAntialiasMode,
    d2d_BeginDraw, d2d_Clear, d2d_DrawTextLayout, d2d_EndDraw.
  keeps_go.
Qed.

(** Whether the frame has a cursor to draw once the atlas is adjusted. *)
Lemma adjustAtlasSize_cursor_flag w :
  outcome (_adjustAtlasSize w) = Done tt ->
  Cursor (invalidations (r_ (world (_adjustAtlasSize w))))
  = Cursor (invalidations (r_ w)) || negb (atlasHasRoom (r_ w)) && negb (hasAtlas (r_ w)).
Proof.
  intros Hd. destruct (atlasHasRoom (r_ w)) eqn:Hroom.
  - rewrite (adjustAtlasSize_room w Hroom). cbn. rewrite orb_false_r. reflexivity.
  - destruct (adjustAtlasSize_Done w Hroom Hd) as (g & hr1 & hr2 & _ & _ & _ & Hr & _).
    rewrite Hr. cbn. unfold WI_SetFlagIf_Cursor.
    destruct (hasAtlas (r_ w)); cbn; [rewrite orb_false_r | rewrite orb_true_r]; reflexivity.
Qed.

Lemma no_shape_adjustAtlasSize : emits (fun e => shape e = None) _adjustAtlasSize.
Proof.
  unfold _adjustAtlasSize, _setShaderResources, update_invalidations.
  emits_all; reflexivity.
Qed.

Lemma no_shape_processGlyphQueue h : emits (fun e => shape e = None) (_processGlyphQueue h).
Proof.
  unfold _processGlyphQueue, _drawGlyph, _copyScratchpadTile, d2d_SetTextAntialiasMode,
    d2d_BeginDraw, d2d_Clear, d2d_DrawTextLayout, d2d_EndDraw.
  emits_all; reflexivity.
Qed.

Lemma no_shape_updateConstantBuffer b :
  emits (fun e => shape e = None)
        (when b (_updateConstantBuffer ;; update_invalidations WI_ClearFlag_ConstBuffer)).
Proof. unfold _updateConstantBuffer, update_invalidations. emits_all; reflexivity. Qed.

(** X12: the cursor is drawn in exactly the frames in which it is due.  A
    frame that goes through draws the cursor once, with the shapes of its
    style, when the cursor was invalidated or when the frame created the
    atlas anew (no atlas before, so that the cursor tile at the origin was
    lost); in every other frame it draws no shape at all. *)
Theorem Present_draws_cursor_when_due h w :
  outcome (Present_try h w) = Done tt ->
  collect shape (events (Present_try h w))
  = if Cursor (invalidations (r_ w)) || negb (atlasHasRoom (r_ w)) && negb (hasAtlas (r_ w))
    then Spec.cursorShapes (cursorType (cursorOptions (r_ w)))
           (fx (cellSizeDIP (r_ w))) (fy (cellSizeDIP (r_ w)))
           (lineWidth (dpi (r_ w))) (heightPercentage (cursorOptions (r_ w)))
    else [].
Proof.
  intros Hd.
  destruct (Present_try_stages h w Hd)
    as (w1 & w2 & w3 & w4 & w5 & hr1 & hr2 & hr3 & hr4 & hr5
        & [H1 E1] & [H2 E2] & [H3 E3] & [H4 E4] & [H5 E5] & _ & Hev).
  rewrite Hev, !collect_app.
  rewrite (collect_none shape (events (_adjustAtlasSize w)))
    by apply no_shape_adjustAtlasSize.
  rewrite reserve_collect_none
    by (intros [[]| | | | | | | | | | | | |]; cbn; congruence).
  rewrite (collect_none shape (events (_processGlyphQueue h w2)))
    by apply no_shape_processGlyphQueue.
  rewrite (collect_none shape (events (when _ (_updateConstantBuffer ;; _) w4)))
    by apply no_shape_updateConstantBuffer.
  cbn [app frame_tail collect shape]. rewrite app_nil_r.
  pose proof (keeps_at _ _ w tt keeps_cursor_inputs_adjustAtlasSize H1) as K1.
  pose proof (keeps_at _ _ w1 tt (keeps_cursor_inputs_reserve h _) H2) as K2.
  pose proof (keeps_at _ _ w2 tt (keeps_cursor_inputs_processGlyphQueue h) H3) as K3.
  pose proof (adjustAtlasSize_cursor_flag w H1) as Hflag.
  rewrite <- E1 in K1, Hflag. rewrite <- E2 in K2. rewrite <- E3 in K3.
  cbv beta in K1, K2, K3.
  injection K3 as Ko3 Kc3 Kd3 Kf3. injection K2 as Ko2 Kc2 Kd2 Kf2.
  injection K1 as Ko1 Kc1 Kd1.
  rewrite <- Hflag, <- Kf2, <- Kf3.
  rewrite <- Ko1, <- Ko2, <- Ko3, <- Kc1, <- Kc2, <- Kc3, <- Kd1, <- Kd2, <- Kd3.
  destruct (Cursor (invalidations (r_ w3))) eqn:Hc; cbn [when] in *; [|reflexivity].
  apply bind_Done in H4. destruct H4 as ([] & Hcur & _ & _ & Hev4).
  rewrite Hev4, collect_app.
  destruct (drawCursor_Done h w3 Hcur) as (Hshapes & _).
  rewrite Hshapes. cbn. rewrite app_nil_r. reflexivity.
Qed.

Lemma Present_draws_cursor_when_due_witness :
  collect shape (events (Present_try Sample.header Frames.double_underscore))
  = Spec.cursorShapes DoubleUnderscore (F32.of_Z 8) (F32.of_Z 16) (lineWidth 96) 20.
Proof.
  apply (Present_draws_cursor_when_due Sample.header Frames.double_underscore).
  vm_compute. reflexivity.
Defined.

(** ** A frame on a device in good health *)

Lemma script_ok_hd g : script_ok g -> FAILED (hd S_OK g) = false.
Proof. intros [|hr g' H _]; [reflexivity | exact H]. Qed.

Lemma script_ok_tl g : script_ok g -> script_ok (tl g).
Proof. intros [|hr g' _ H]; [constructor | exact H]. Qed.

Lemma total_weaken {A} (P P' Q Q' : Resources -> Prop) (m : M A) :
  (forall r, P r -> P' r) -> total P' m Q' -> (forall r, Q' r -> Q r) -> total P m Q.
Proof.
  intros HP Hm HQ w Hw Hg. destruct (Hm w (HP _ Hw) Hg) as (a & Hd & Hq & Hg').
  exists a. repeat split; auto.
Qed.

Lemma total_false {A} (P Q : Resources -> Prop) (m : M A) :
  (forall r, P r -> False) -> total P m Q.
Proof. intros HP w Hw. destruct (HP _ Hw). Qed.

Lemma total_ret {A} P (a : A) : total P (ret a) P.
Proof. intros w Hw Hg. exists a. repeat split; assumption. Qed.

Lemma total_emit P e : total P (emit e) P.
Proof. intros w Hw Hg. exists tt. repeat split; assumption. Qed.

Lemma total_modify (P Q : Resources -> Prop) g :
  (forall r, P r -> Q (g r)) -> total P (modify g) Q.
Proof. intros H w Hw Hg. exists tt. repeat split; [apply H; exact Hw | exact Hg]. Qed.

Lemma total_THROW_IF_FAILED P c : total P (THROW_IF_FAILED c) P.
Proof.
  intros w Hw Hg. exists tt. unfold THROW_IF_FAILED.
  rewrite (script_ok_hd _ Hg). cbn. repeat split; [exact Hw | apply script_ok_tl; exact Hg].
Qed.

Lemma total_bind {A B} (P R Q : Resources -> Prop) (m : M A) (k : A -> M B) :
  total P m R -> (forall a, total R (k a) Q) -> total P (bind m k) Q.
Proof.
  intros Hm Hk w Hw Hg. unfold bind.
  destruct (Hm w Hw Hg) as (a & Hd & Hr & Hg1).
  destruct (m w) as [o w1 e1]. cbn in Hd, Hr, Hg1. subst o.
  destruct (Hk a w1 Hr Hg1) as (b & Hd2 & Hq & Hg2).
  destruct (k a w1) as [o2 w2 e2]. cbn in *. exists b. repeat split; assumption.
Qed.

Lemma total_get_bind {B} (P Q : Resources -> Prop) (k : Resources -> M B) :
  (forall r, total (fun r' => P r' /\ r' = r) (k r) Q) -> total P (bind get k) Q.
Proof.
  intros Hk w Hw Hg. rewrite bind_get_run. apply (Hk (r_ w) w); [split|]; auto.
Qed.

Lemma total_when (P Q : Resources -> Prop) b m :
  (b = true -> total P m Q) -> (b = false -> forall r, P r -> Q r) -> total P (when b m) Q.
Proof.
  intros Hm Hs. destruct b; cbn [when]; [apply Hm; reflexivity|].
  eapply total_weaken; [|apply total_ret|]; [intros r Hr; exact Hr | apply Hs; reflexivity].
Qed.

Lemma total_noexcept {A} P Q (m : M A) : total P m Q -> total P (noexcept m) Q.
Proof.
  intros Hm w Hw Hg. destruct (Hm w Hw Hg) as (a & Hd & Hq & Hg'). unfold noexcept.
  destruct (m w) as [o w1 e1]. cbn in *. subst o. exists a. repeat split; assumption.
Qed.

Lemma total_for_each {A} (I : Resources -> Prop) (l : list A) body :
  (forall a, In a l -> total I (body a) I) -> total I (for_each l body) I.
Proof.
  induction l as [|a l IH]; intros Hb; cbn [for_each]; [apply total_ret|].
  eapply total_bind; [apply Hb; left; reflexivity|].
  intros _. apply IH. intros b Hin. apply Hb. right. exact Hin.
Qed.

Lemma total_with_target {A} (P Q : Resources -> Prop) (k : RenderTarget -> M A) :
  (forall r, P r -> d2dRenderTarget r <> None) ->
  (forall t, total P (k t) Q) -> total P (with_target k) Q.
Proof.
  intros Ht Hk. unfold with_target. apply total_get_bind. intros r.
  destruct (d2dRenderTarget r) as [t|] eqn:Hr.
  - eapply total_weaken; [|apply (Hk t)|]; [intros r' [H _]; exact H | auto].
  - apply total_false. intros r' [Hp ->]. exact (Ht _ Hp Hr).
Qed.

Lemma ready_target r : ready r -> d2dRenderTarget r <> None.
Proof. intros [H _]. exact H. Qed.

(** Steps that draw on the scratchpad: they need it ready and leave it
    ready. *)
Ltac total_ready_step :=
  first
    [ apply total_with_target; [exact ready_target | intros ?]
    | apply total_when; [intros _ | intros _ ? Hr; exact Hr]
    | apply total_ret | apply total_emit | apply total_THROW_IF_FAILED
    | apply total_modify; intros ? [? ?]; split; [discriminate | assumption]
    | eapply total_bind with (R := ready); [|intros ?]
    | match goal with
      | |- total _ (let _ := _ in _) _ => cbv zeta
      | |- total _ (if ?c then _ else _) _ => destruct c
      end ].

Ltac total_ready := repeat total_ready_step.

Lemma total_copyScratchpadTile h i t f :
  total ready (_copyScratchpadTile h i t f) ready.
Proof.
  unfold _copyScratchpadTile. apply total_get_bind. intros r.
  destruct (ATLAS_D2D_SOFTWARE_RENDERING h).
  - destruct (atlasScratchpad r) eqn:Hs.
    + eapply total_weaken with (P' := ready) (Q' := ready);
        [intros r' [H _]; exact H | | auto].
      total_ready.
    + apply total_false. intros r' [[_ Hp] ->]. exact (Hp Hs).
  - eapply total_weaken with (P' := ready) (Q' := ready);
      [intros r' [H _]; exact H | | auto].
    total_ready.
Qed.

Lemma total_drawGlyph h item :
  item_ok item -> total ready (_drawGlyph h item) ready.
Proof.
  intros Hitem. unfold _drawGlyph.
  apply total_get_bind. intros r.
  eapply total_weaken with (P' := ready) (Q' := ready);
    [intros r' [H _]; exact H | | auto].
  unfold d2d_SetTextAntialiasMode, d2d_BeginDraw, d2d_Clear, d2d_DrawTextLayout,
    d2d_EndDraw.
  cbv zeta.
  repeat (eapply total_bind with (R := ready); [total_ready | intros ?]).
  apply total_for_each. intros i Hi. apply in_seq in Hi.
  destruct (nth_error (coords (value item)) i) as [c|] eqn:Hc.
  - apply total_copyScratchpadTile.
  - apply nth_error_None in Hc. unfold item_ok in Hitem. lia.
Qed.

Lemma total_reserveScratchpadSize h n :
  ATLAS_D2D_SOFTWARE_RENDERING h = true ->
  total (fun r => 1 <= scratchpadCellWidth r -> ready r)
        (_reserveScratchpadSize h n)
        (fun r => (1 <= n -> ready r) /\ (1 <= scratchpadCellWidth r -> ready r)).
Proof.
  intros Hsoft [r g] Hr Hg. cbn [r_ gpu] in *. exists tt.
  unfold _reserveScratchpadSize. run. rewrite Hsoft.
  destruct (Z.leb_spec n (scratchpadCellWidth r)) as [Hle|Hlt]; run.
  - repeat split; try assumption; intros; apply Hr; lia.
  - rewrite (script_ok_hd _ Hg). run.
    rewrite (script_ok_hd _ (script_ok_tl _ Hg)). run.
    rewrite (script_ok_hd _ (script_ok_tl _ (script_ok_tl _ Hg))). run.
    repeat split; try discriminate.
    apply script_ok_tl, script_ok_tl, script_ok_tl. exact Hg.
Qed.

Lemma total_drawCursor h :
  ATLAS_D2D_SOFTWARE_RENDERING h = true ->
  total (fun r => 1 <= scratchpadCellWidth r -> ready r) (_drawCursor h) ready.
Proof.
  intros Hsoft. unfold _drawCursor.
  eapply total_bind with (R := ready).
  - eapply total_weaken; [|apply (total_reserveScratchpadSize h 1 Hsoft)|];
      [intros r Hr; exact Hr|].
    intros r [Hr _]. apply Hr. lia.
  - intros _. apply total_get_bind. intros r.
    eapply total_weaken with (P' := ready) (Q' := ready);
      [intros r' [H _]; exact H | | auto].
    unfold d2d_BeginDraw, d2d_Clear, d2d_FillRectangle, d2d_DrawRectangle, d2d_EndDraw.
    cbv zeta.
    repeat first [apply total_copyScratchpadTile | total_ready_step].
Qed.

Lemma total_adjustAtlasSize (I : Resources -> Prop) :
  (forall r v, I r -> I (set_atlasSizeInPixel v r)) ->
  (forall r v, I r -> I (set_invalidations v r)) ->
  total (fun r => (atlasHasRoom r = true
                   \/ in_range (atlasSizeInPixelLimit r) (atlasPosition r) (cellSize r))
                  /\ I r)
        _adjustAtlasSize I.
Proof.
  intros Hsize Hinv. unfold _adjustAtlasSize. apply total_get_bind. intros r.
  fold (atlasHasRoom r). destruct (atlasHasRoom r) eqn:Hroom.
  - eapply total_weaken; [|apply total_ret|]; [intros r' Hr; exact Hr|].
    intros r' [[_ Hi] _]. exact Hi.
  - destruct (atlasGrowth _ _ _) as [g|] eqn:Hgrow.
    + eapply total_weaken with (P' := I) (Q' := I);
        [intros r' [[_ Hi] _]; exact Hi | | auto].
      unfold _setShaderResources, update_invalidations.
      repeat first
        [ apply total_ret | apply total_emit | apply total_THROW_IF_FAILED
        | apply total_when; [intros _ | intros _ ? Hr; exact Hr]
        | apply total_modify; intros ? ?; first [apply Hsize | apply Hinv]; assumption
        | eapply total_bind with (R := I); [|intros ?] ].
    + apply total_false. intros r' [[[Hr|Hr] _] ->]; [congruence|].
      rewrite (atlasGrowth_in_range _ _ _ Hr) in Hgrow. discriminate Hgrow.
Qed.

Lemma total_keeps {A B} (P Q : Resources -> Prop) (f : Resources -> B) (m : M A) v :
  total P m Q -> keeps f m ->
  total (fun r => P r /\ f r = v) m (fun r => Q r /\ f r = v).
Proof.
  intros Hm Hk w [Hp Hf] Hg. destruct (Hm w Hp Hg) as (a & Hd & Hq & Hg').
  exists a. repeat split; try assumption. exact (Hk v w a Hf Hd).
Qed.

Lemma total_pure {A} (P Q : Resources -> Prop) (phi : Prop) (m : M A) :
  (forall r, P r -> phi) -> (phi -> total P m Q) -> total P m Q.
Proof. intros H1 H2 w Hw. exact (H2 (H1 _ Hw) w Hw). Qed.

Lemma keeps_queue_reserve h n :
  keeps (fun r => (glyphQueue r, maxEncounteredCellCount r)) (_reserveScratchpadSize h n).
Proof.
  unfold _reserveScratchpadSize, d2d_SetTextAntialiasMode, update_invalidations. keeps_go.
Qed.

Lemma total_processGlyphQueue h :
  total (fun r => (glyphQueue r <> [] -> ready r)
                  /\ (1 <= scratchpadCellWidth r -> ready r)
                  /\ Forall item_ok (glyphQueue r))
        (_processGlyphQueue h)
        (fun r => 1 <= scratchpadCellWidth r -> ready r).
Proof.
  unfold _processGlyphQueue. apply total_get_bind. intros r.
  destruct (glyphQueue r) as [|item queue] eqn:Hq.
  - eapply total_weaken; [|apply total_ret|]; [intros r' Hr; exact Hr|].
    intros r' [(_ & Hr & _) _]. exact Hr.
  - apply total_pure with (phi := Forall item_ok (item :: queue)).
    { intros r' [(_ & _ & Hf) ->]. rewrite <- Hq. exact Hf. }
    intros Hitems. rewrite Forall_forall in Hitems.
    eapply total_bind with (R := ready).
    + eapply total_weaken with (P' := ready) (Q' := ready);
        [| apply total_for_each; intros a Ha; apply total_drawGlyph, Hitems, Ha | auto].
      intros r' [(Hr & _) ->]. apply Hr. rewrite Hq. discriminate.
    + intros _. apply total_modify. intros r' Hr _. exact Hr.
Qed.

Lemma total_frame_end (P : Resources -> Prop) :
  total P (THROW_IF_FAILED CellBuffer_Map ;;
           emit CellBuffer_memcpy ;;
           emit (Draw 3 0) ;;
           THROW_IF_FAILED CommandAllocator_Reset ;;
           THROW_IF_FAILED CommandList_Reset ;;
           emit (DrawInstanced 3 1 0 0) ;;
           THROW_IF_FAILED CommandList_Close ;;
           THROW_IF_FAILED (SwapChain_Present 1 0)) P.
Proof.
  repeat first
    [ apply total_emit | apply total_THROW_IF_FAILED
    | eapply total_bind with (R := P); [|intros ?] ].
Qed.

Lemma total_updateConstantBuffer (P : Resources -> Prop) : total P _updateConstantBuffer P.
Proof.
  unfold _updateConstantBuffer. apply total_noexcept. apply total_get_bind. intros r.
  eapply total_weaken with (P' := P) (Q' := P); [intros r' [H _]; exact H | | auto].
  cbv zeta.
  eapply total_bind with (R := P); [apply total_THROW_IF_FAILED | intros _; apply total_emit].
Qed.

Lemma total_Present_try h :
  ATLAS_D2D_SOFTWARE_RENDERING h = true ->
  total well_formed (Present_try h) (fun _ => True).
Proof.
  intros Hsoft. unfold Present_try.
  eapply total_bind
    with (R := fun r => (1 <= scratchpadCellWidth r -> ready r)
                        /\ (glyphQueue r <> [] -> 1 <= maxEncounteredCellCount r)
                        /\ Forall item_ok (glyphQueue r)).
  { apply total_weaken
      with (P' := fun r =>
                    (atlasHasRoom r = true
                     \/ in_range (atlasSizeInPixelLimit r) (atlasPosition r) (cellSize r))
                    /\ ((1 <= scratchpadCellWidth r -> ready r)
                        /\ (glyphQueue r <> [] -> 1 <= maxEncounteredCellCount r)
                        /\ Forall item_ok (glyphQueue r)))
           (Q' := fun r => (1 <= scratchpadCellWidth r -> ready r)
                           /\ (glyphQueue r <> [] -> 1 <= maxEncounteredCellCount r)
                           /\ Forall item_ok (glyphQueue r)).
    - intros r Hr. exact Hr.
    - apply total_adjustAtlasSize; intros r v Hr; exact Hr.
    - intros r Hr. exact Hr. }
  intros _. apply total_get_bind. intros r0.
  apply total_pure
    with (phi := (glyphQueue r0 <> [] -> 1 <= maxEncounteredCellCount r0)
                 /\ Forall item_ok (glyphQueue r0)).
  { intros r [(_ & Hq & Hf) ->]. split; assumption. }
  intros [Hq0 Hf0].
  eapply total_bind
    with (R := fun r => (glyphQueue r <> [] -> ready r)
                        /\ (1 <= scratchpadCellWidth r -> ready r)
                        /\ Forall item_ok (glyphQueue r)).
  { apply total_weaken
      with (P' := fun r => (1 <= scratchpadCellWidth r -> ready r)
                           /\ (glyphQueue r, maxEncounteredCellCount r)
                              = (glyphQueue r0, maxEncounteredCellCount r0))
           (Q' := fun r => ((1 <= maxEncounteredCellCount r0 -> ready r)
                            /\ (1 <= scratchpadCellWidth r -> ready r))
                           /\ (glyphQueue r, maxEncounteredCellCount r)
                              = (glyphQueue r0, maxEncounteredCellCount r0)).
    - intros r [(Hr & _) ->]. split; [exact Hr | reflexivity].
    - apply total_keeps;
        [exact (total_reserveScratchpadSize h (maxEncounteredCellCount r0) Hsoft)
        | apply keeps_queue_reserve].
    - intros r [[Hn Hc] Hv]. injection Hv as Hqv Hmv. rewrite Hqv.
      split; [intros Hne; apply Hn, Hq0, Hne | split; [exact Hc | exact Hf0]]. }
  intros _.
  eapply total_bind with (R := fun r => 1 <= scratchpadCellWidth r -> ready r);
    [apply total_processGlyphQueue | intros _].
  apply total_get_bind. intros r1.
  eapply total_bind with (R := fun r => 1 <= scratchpadCellWidth r -> ready r).
  { apply total_when; [intros _ | intros _ r [Hr _]; exact Hr].
    eapply total_bind with (R := ready).
    - eapply total_weaken; [|apply (total_drawCursor h Hsoft)|];
        [intros r [Hr _]; exact Hr | auto].
    - intros _. unfold update_invalidations. apply total_modify. intros r Hr _. exact Hr. }
  intros _. apply total_get_bind. intros r2.
  eapply total_bind with (R := fun _ => True).
  { apply total_when; [intros _ | intros _ r _; exact I].
    eapply total_bind with (R := fun _ => True).
    - apply total_weaken with (P' := fun _ => True) (Q' := fun _ => True);
        [intros; exact I | apply total_updateConstantBuffer | intros; exact I].
    - intros _. unfold update_invalidations. apply total_modify. auto. }
  intros _. apply total_frame_end.
Qed.

(** X13: on a device in good health a frame always goes through.  With
    the software scratchpad, a state that is well formed (the atlas can
    grow, the recorded scratchpad capacity stands for surfaces that exist,
    queued glyphs come with their coordinates and with a widest glyph of at
    least one cell) and every call succeeding, [Present] neither fails nor
    runs into undefined behaviour: it returns [S_OK], and the last thing it
    does is to present the frame. *)
Theorem Present_succeeds h w :
  ATLAS_D2D_SOFTWARE_RENDERING h = true ->
  well_formed (r_ w) ->
  script_ok (gpu w) ->
  outcome (Present h w) = Done S_OK
  /\ exists pre hr,
       events (Present h w) = pre ++ [Call (SwapChain_Present 1 0) hr]
       /\ FAILED hr = false.
Proof.
  intros Hsoft Hwf Hg.
  destruct (total_Present_try h Hsoft w Hwf Hg) as ([] & Hd & _ & _).
  pose proof (frame_ok_Present_try h w) as Hf.
  unfold Present. destruct (Present_try h w) as [o w1 evs]. cbn in Hd. subst o.
  cbn. split; [reflexivity|].
  destruct Hf as (pre & hr1 & hr2 & hr3 & hr4 & hr5 & -> & _ & _ & _ & _ & _ & _ & H5).
  exists (pre ++ [Call CellBuffer_Map hr1; CellBuffer_memcpy; Draw 3 0;
                  Call CommandAllocator_Reset hr2; Call CommandList_Reset hr3;
                  DrawInstanced 3 1 0 0; Call CommandList_Close hr4]), hr5.
  split; [|exact H5]. rewrite <- app_assoc. reflexivity.
Qed.

Lemma Present_succeeds_witness :
  outcome (Present Sample.header Frames.aliased_colored) = Done S_OK.
Proof.
  apply (Present_succeeds Sample.header Frames.aliased_colored).
  - reflexivity.
  - unfold well_formed. split; [right|split; [|split]].
    + constructor; unfold u16_max; cbn; lia.
    + cbn. lia.
    + cbn. lia.
    + constructor; [unfold item_ok; cbn; lia | constructor].
  - constructor.
Defined.

(** ** A frame with nothing to redraw *)

Lemma bind_skip {A B} (m : M A) (k : A -> M B) w a :
  m w = mk_res (Done a) w [] -> bind m k w = k a w.
Proof. unfold bind. intros ->. destruct (k a w) as [o w2 e2]. reflexivity. Qed.

Lemma all_ok_failed c hr evs :
  FAILED hr = true -> In (Call c hr) evs -> all_ok evs -> False.
Proof.
  intros Hf Hin Hall. unfold all_ok in Hall. rewrite Forall_forall in Hall.
  specialize (Hall _ Hin). cbn in Hall. rewrite Hf in Hall. discriminate Hall.
Qed.

Lemma idle_frame h w :
  atlasHasRoom (r_ w) = true ->
  maxEncounteredCellCount (r_ w) <= scratchpadCellWidth (r_ w) ->
  glyphQueue (r_ w) = [] ->
  invalidations (r_ w) = mk_inval false false ->
  r_ (world (Present h w)) = r_ w
  /\ exists hr1 hr2 hr3 hr4 hr5 n,
       events (Present h w) = firstn n (frame_tail hr1 hr2 hr3 hr4 hr5)
       /\ (all_ok (events (Present h w)) -> n = 8%nat).
Proof.
  intros Hroom Hcap Hq Hinv.
  assert (Htry : Present_try h w
                 = (THROW_IF_FAILED CellBuffer_Map ;;
                    emit CellBuffer_memcpy ;;
                    emit (Draw 3 0) ;;
                    THROW_IF_FAILED CommandAllocator_Reset ;;
                    THROW_IF_FAILED CommandList_Reset ;;
                    emit (DrawInstanced 3 1 0 0) ;;
                    THROW_IF_FAILED CommandList_Close ;;
                    THROW_IF_FAILED (SwapChain_Present 1 0)) w).
  { unfold Present_try.
    rewrite (bind_skip _ _ w tt (adjustAtlasSize_room w Hroom)).
    rewrite bind_get_run.
    rewrite (bind_skip _ _ w tt (reserve_enough h _ w Hcap)).
    assert (Hqueue : _processGlyphQueue h w = mk_res (Done tt) w []).
    { unfold _processGlyphQueue. rewrite bind_get_run, Hq. reflexivity. }
    rewrite (bind_skip _ _ w tt Hqueue).
    rewrite bind_get_run, Hinv. cbn [Cursor when].
    rewrite (bind_skip (ret tt) _ w tt eq_refl).
    rewrite bind_get_run, Hinv. cbn [ConstBuffer when].
    rewrite (bind_skip (ret tt) _ w tt eq_refl).
    reflexivity. }
  unfold Present. rewrite Htry. clear Htry.
  destruct w as [r g]. cbn [r_]. run.
  destruct (FAILED (hd S_OK g)) eqn:H1; run.
  { split; [reflexivity|].
    exists (hd S_OK g), S_OK, S_OK, S_OK, S_OK, 1%nat.
    split; [reflexivity|]. intros Hall. exfalso.
    refine (all_ok_failed _ _ _ H1 _ Hall). cbn. tauto. }
  destruct (FAILED (hd S_OK (tl g))) eqn:H2; run.
  { split; [reflexivity|].
    exists (hd S_OK g), (hd S_OK (tl g)), S_OK, S_OK, S_OK, 4%nat.
    split; [reflexivity|]. intros Hall. exfalso.
    refine (all_ok_failed _ _ _ H2 _ Hall). cbn. tauto. }
  destruct (FAILED (hd S_OK (tl (tl g)))) eqn:H3; run.
  { split; [reflexivity|].
    exists (hd S_OK g), (hd S_OK (tl g)), (hd S_OK (tl (tl g))), S_OK, S_OK, 5%nat.
    split; [reflexivity|]. intros Hall. exfalso.
    refine (all_ok_failed _ _ _ H3 _ Hall). cbn. tauto. }
  destruct (FAILED (hd S_OK (tl (tl (tl g))))) eqn:H4; run.
  { split; [reflexivity|].
    exists (hd S_OK g), (hd S_OK (tl g)), (hd S_OK (tl (tl g))),
      (hd S_OK (tl (tl (tl g)))), S_OK, 7%nat.
    split; [reflexivity|]. intros Hall. exfalso.
    refine (all_ok_failed _ _ _ H4 _ Hall). cbn. tauto. }
  destruct (FAILED (hd S_OK (tl (tl (tl (tl g)))))) eqn:H5; run.
  { split; [reflexivity|].
    exists (hd S_OK g), (hd S_OK (tl g)), (hd S_OK (tl (tl g))),
      (hd S_OK (tl (tl (tl g)))), (hd S_OK (tl (tl (tl (tl g))))), 8%nat.
    split; reflexivity. }
  split; [reflexivity|].
  exists (hd S_OK g), (hd S_OK (tl g)), (hd S_OK (tl (tl g))),
    (hd S_OK (tl (tl (tl g)))), (hd S_OK (tl (tl (tl (tl g))))), 8%nat.
  split; reflexivity.
Qed.

(** X14: a frame with nothing to redraw costs the closing sequence and
    nothing else.  When the fill cursor is inside the atlas, the scratchpad
    holds the widest glyph, the queue is empty and nothing is invalidated,
    [Present] creates no resource, rasterizes and copies nothing and leaves
    the engine state exactly as it was; whatever the outcome, what it issues
    is the upload of the cell buffer, the two draws, the command list and
    the present call, cut short only at a call that fails. *)
Theorem Present_idle_frame h w :
  atlasHasRoom (r_ w) = true ->
  maxEncounteredCellCount (r_ w) <= scratchpadCellWidth (r_ w) ->
  glyphQueue (r_ w) = [] ->
  invalidations (r_ w) = mk_inval false false ->
  r_ (world (Present h w)) = r_ w
  /\ exists hr1 hr2 hr3 hr4 hr5 n,
       events (Present h w) = firstn n (frame_tail hr1 hr2 hr3 hr4 hr5)
       /\ (all_ok (events (Present h w)) -> n = 8%nat).
Proof. apply idle_frame. Qed.

Lemma Present_idle_frame_witness :
  r_ (world (Present Sample.header Frames.present_fails)) = r_ Frames.present_fails.
Proof.
  apply (Present_idle_frame Sample.header Frames.present_fails).
  - reflexivity.
  - cbn. lia.
  - reflexivity.
  - reflexivity.
Defined.

(** ** The line width of the cursor *)

Lemma holds_on_range_spec f k s :
  holds_on_range f k s = true -> forall z, s <= z < s + 2 ^ Z.of_nat k -> f z = true.
Proof.
  revert s. induction k as [|k IH]; intros s H z Hz.
  - cbn in *. assert (z = s) by lia. subst z. exact H.
  - cbn [holds_on_range] in H. apply andb_true_iff in H. destruct H as [H1 H2].
    rewrite Nat2Z.inj_succ, Z.pow_succ_r in Hz by lia.
    destruct (Z.lt_ge_cases z (s + 2 ^ Z.of_nat k)).
    + apply (IH s H1). lia.
    + apply (IH _ H2). lia.
Qed.

Lemma lineWidth_checked : holds_on_range lineWidth_in_bounds 12 0 = true.
Proof. vm_compute. reflexivity. Qed.

(** X15: at every dpi below 4096, 0 included, the line width of the
    cursor is a number of at least 1 and at most 2 DIPs.  At dpi 0 the
    quotient is not a number, and [std::max] with 1 as its first argument
    gives 1. *)
Theorem lineWidth_between_1_and_2 dpi :
  0 <= dpi < 4096 ->
  is_number (lineWidth dpi) = true
  /\ F32.ltb (lineWidth dpi) (F32.of_Z 1) = false
  /\ F32.ltb (F32.of_Z 2) (lineWidth dpi) = false.
Proof.
  intros Hdpi.
  assert (H : lineWidth_in_bounds dpi = true).
  { apply (holds_on_range_spec _ 12 0 lineWidth_checked).
    change (2 ^ Z.of_nat 12) with 4096. lia. }
  unfold lineWidth_in_bounds in H.
  apply andb_true_iff in H. destruct H as [H H3].
  apply andb_true_iff in H. destruct H as [H1 H2].
  apply negb_true_iff in H2, H3. repeat split; assumption.
Qed.

Lemma lineWidth_between_1_and_2_witness :
  is_number (lineWidth 0) = true /\ F32.ltb (lineWidth 0) (F32.of_Z 1) = false.
Proof.
  destruct (lineWidth_between_1_and_2 0) as (H1 & H2 & _); [lia|].
  split; assumption.
Defined.

(** ** Frame after frame *)

Lemma triple_keeps {A B} (P Q : Resources -> Prop) (f : Resources -> B) (m : M A) v :
  triple P m Q -> keeps f m ->
  triple (fun r => P r /\ f r = v) m (fun r => Q r /\ f r = v).
Proof.
  intros Hm Hk w a [Hp Hf] Hd. split; [exact (Hm w a Hp Hd) | exact (Hk v w a Hf Hd)].
Qed.

Lemma adjustAtlasSize_makes_room :
  triple atlas_can_hold _adjustAtlasSize (fun r => atlasHasRoom r = true).
Proof.
  intros w [] Hhold Hd.
  destruct (atlasHasRoom (r_ w)) eqn:Hroom.
  - rewrite (adjustAtlasSize_room w Hroom). exact Hroom.
  - destruct Hhold as [Hr|(Hr & Hpow & Hx & Hy)]; [congruence|].
    apply (adjustAtlasSize_settles w Hr Hx Hy); [|exact Hroom|exact Hd].
    intros g Hg _.
    rewrite (atlasGrowth_in_range _ _ _ Hr) in Hg. injection Hg as <-.
    apply power_of_two_cell_divides; assumption.
Qed.

(** After a reserve for the widest glyph, or any reserve once the capacity
    covers the widest glyph, the capacity covers the widest glyph. *)
Lemma reserve_covers_widest h n :
  triple (fun r => n = maxEncounteredCellCount r
                   \/ maxEncounteredCellCount r <= scratchpadCellWidth r)
         (_reserveScratchpadSize h n)
         (fun r => maxEncounteredCellCount r <= scratchpadCellWidth r).
Proof.
  intros w [] Hn Hd.
  destruct (Z.le_gt_cases n (scratchpadCellWidth (r_ w))) as [Hle|Hgt].
  - rewrite (reserve_enough h n w Hle). cbn [world]. destruct Hn as [->|Hm]; assumption.
  - destruct (reserve_Done h n w Hgt Hd) as (_ & Hw & _). rewrite Hw. cbn. lia.
Qed.

Lemma keeps_room_reserve h n : keeps atlasHasRoom (_reserveScratchpadSize h n).
Proof.
  unfold _reserveScratchpadSize, d2d_SetTextAntialiasMode, update_invalidations. keeps_go.
Qed.

Lemma keeps_settled_processGlyphQueue h :
  keeps (fun r => (atlasHasRoom r, maxEncounteredCellCount r, scratchpadCellWidth r))
        (_processGlyphQueue h).
Proof.
  unfold _processGlyphQueue, _drawGlyph, _copyScratchpadTile, d2d_SetTextAntialiasMode,
    d2d_BeginDraw, d2d_Clear, d2d_DrawTextLayout, d2d_EndDraw.
  keeps_go.
Qed.

Lemma settled_view r r' :
  (atlasHasRoom r', maxEncounteredCellCount r', scratchpadCellWidth r')
  = (atlasHasRoom r, maxEncounteredCellCount r, scratchpadCellWidth r) ->
  atlasHasRoom r = true /\ maxEncounteredCellCount r <= scratchpadCellWidth r ->
  atlasHasRoom r' = true /\ maxEncounteredCellCount r' <= scratchpadCellWidth r'.
Proof. intros [= -> -> ->] H. exact H. Qed.

(** A frame that goes through makes room in the atlas and has the
    scratchpad cover the widest glyph. *)
Lemma Present_try_makes_room h :
  triple atlas_can_hold (Present_try h)
         (fun r => atlasHasRoom r = true
                   /\ maxEncounteredCellCount r <= scratchpadCellWidth r).
Proof.
  set (J := fun r => atlasHasRoom r = true
                     /\ maxEncounteredCellCount r <= scratchpadCellWidth r).
  unfold Present_try.
  eapply triple_bind with (R := fun r => atlasHasRoom r = true);
    [apply adjustAtlasSize_makes_room | intros _].
  apply triple_get_bind. intros r0.
  eapply triple_bind with (R := J).
  { apply triple_weaken
      with (P' := fun r => (maxEncounteredCellCount r0 = maxEncounteredCellCount r
                            \/ maxEncounteredCellCount r <= scratchpadCellWidth r)
                           /\ atlasHasRoom r = true)
           (Q' := fun r => maxEncounteredCellCount r <= scratchpadCellWidth r
                           /\ atlasHasRoom r = true).
    - intros r [Hr ->]. split; [left; reflexivity | exact Hr].
    - apply triple_keeps; [apply reserve_covers_widest | apply keeps_room_reserve].
    - intros r [Hc Hr]. split; assumption. }
  intros _.
  eapply triple_bind with (R := J).
  { apply (keeps_triple _ J _ (keeps_settled_processGlyphQueue h)).
    intros r r'. apply settled_view. }
  intros _. apply triple_get_bind. intros r1.
  eapply triple_bind with (R := J).
  { apply triple_when; [intros _ | intros _ r [Hr _]; exact Hr].
    apply triple_weaken with (P' := J) (Q' := J); [intros r [Hr _]; exact Hr | | auto].
    eapply triple_bind with (R := J).
    - unfold _drawCursor.
      eapply triple_bind with (R := J).
      + apply triple_weaken
          with (P' := fun r => (1 = maxEncounteredCellCount r
                                \/ maxEncounteredCellCount r <= scratchpadCellWidth r)
                               /\ atlasHasRoom r = true)
               (Q' := fun r => maxEncounteredCellCount r <= scratchpadCellWidth r
                               /\ atlasHasRoom r = true).
        * intros r [Hr Hc]. split; [right; exact Hc | exact Hr].
        * apply triple_keeps; [apply reserve_covers_widest | apply keeps_room_reserve].
        * intros r [Hc Hr]. split; assumption.
      + intros _. apply (keeps_triple
                           (fun r => (atlasHasRoom r, maxEncounteredCellCount r,
                                      scratchpadCellWidth r)) J);
          [|intros r r'; apply settled_view].
        unfold _copyScratchpadTile, d2d_BeginDraw, d2d_Clear, d2d_FillRectangle,
          d2d_DrawRectangle, d2d_EndDraw.
        keeps_go.
    - intros _. apply (keeps_triple
                         (fun r => (atlasHasRoom r, maxEncounteredCellCount r,
                                    scratchpadCellWidth r)) J);
        [|intros r r'; apply settled_view].
      unfold update_invalidations. keeps_go. }
  intros _. apply triple_get_bind. intros r2.
  apply triple_weaken with (P' := J) (Q' := J); [intros r [Hr _]; exact Hr | | auto].
  apply (keeps_triple
           (fun r => (atlasHasRoom r, maxEncounteredCellCount r, scratchpadCellWidth r)) J);
    [|intros r r'; apply settled_view].
  unfold _updateConstantBuffer, update_invalidations. keeps_go.
Qed.

(** X16: frames settle.  When the atlas holds the fill cursor or can be
    grown to hold it, a frame that goes through leaves nothing to do: room
    in the atlas, a scratchpad that covers the widest glyph, an empty queue
    and no flag set.  A second [Present] right after it, with nothing new
    from the producer, is then an idle frame: it leaves the state as it is
    and issues nothing but the closing sequence. *)
Theorem Present_settles h w :
  atlas_can_hold (r_ w) ->
  outcome (Present_try h w) = Done tt ->
  settled (r_ (world (Present_try h w)))
  /\ (forall g,
        r_ (world (Present h (mk_world (r_ (world (Present_try h w))) g)))
        = r_ (world (Present_try h w))
        /\ exists hr1 hr2 hr3 hr4 hr5 n,
             events (Present h (mk_world (r_ (world (Present_try h w))) g))
             = firstn n (frame_tail hr1 hr2 hr3 hr4 hr5)).
Proof.
  intros Hhold Hd.
  destruct (Present_try_makes_room h w tt Hhold Hd) as [Hroom Hcap].
  destruct (Present_try_completes h w Hd) as [Hq Hinv].
  split; [repeat split; assumption|].
  intros g.
  destruct (idle_frame h (mk_world (r_ (world (Present_try h w))) g) Hroom Hcap Hq Hinv)
    as (Hr & hr1 & hr2 & hr3 & hr4 & hr5 & n & Hev & _).
  split; [exact Hr|]. exists hr1, hr2, hr3, hr4, hr5, n. exact Hev.
Qed.

Lemma Present_settles_witness :
  settled (r_ (world (Present_try Sample.header Sample.cold_world))).
Proof.
  apply (Present_settles Sample.header Sample.cold_world).
  - right. split; [constructor; cbn; unfold u16_max; lia|].
    split; [exists 7; split; [lia | reflexivity]|]. cbn. lia.
  - vm_compute. reflexivity.
Defined.

(** ** Reads from the scratchpad *)

Lemma tileOffsets_inside software r item :
  scratchpad_fits r ->
  cellCount (key item) <= scratchpadCellWidth r ->
  Forall (fun off => 0 <= off /\ off + x (cellSize r) <= scratchpadWidth r)
         (tileOffsets software (x (cellSize r)) item).
Proof.
  intros (Hcx & _ & Hcap & Hwide) Hcells. unfold tileOffsets, u16_max in *.
  apply Forall_forall. intros off Hin. apply in_map_iff in Hin.
  destruct Hin as (i & <- & Hi). apply in_seq in Hi.
  assert (Hlt : Z.of_nat i < cellCount (key item)) by lia.
  assert (Hprod : 0 <= Z.of_nat i * x (cellSize r) < 2 ^ 31) by nia.
  rewrite (tileOffset_plain _ _ _ Hprod). split; [lia | nia].
Qed.

(** X17: the tiles of the glyphs are read from inside the scratchpad.  When
    the surface is as wide as its recorded capacity says and no queued
    glyph is wider than that capacity, every tile a drained queue copies
    starts at a pixel offset that leaves a whole cell before the right edge
    of the surface. *)
Theorem processGlyphQueue_reads_inside h w :
  scratchpad_fits (r_ w) ->
  Forall (fun item => cellCount (key item) <= scratchpadCellWidth (r_ w))
         (glyphQueue (r_ w)) ->
  outcome (_processGlyphQueue h w) = Done tt ->
  Forall (fun off => 0 <= off /\ off + x (cellSize (r_ w)) <= scratchpadWidth (r_ w))
         (collect tileSourceOffset (events (_processGlyphQueue h w))).
Proof.
  intros Hfit Hitems Hd.
  destruct (processGlyphQueue_completes h w Hd) as (_ & Hoff & _).
  rewrite Hoff. apply Forall_forall. intros off Hin.
  apply in_flat_map in Hin. destruct Hin as (item & Hitem & Hin).
  rewrite Forall_forall in Hitems.
  pose proof (tileOffsets_inside (ATLAS_D2D_SOFTWARE_RENDERING h) (r_ w) item Hfit
                (Hitems item Hitem)) as Hall.
  rewrite Forall_forall in Hall. exact (Hall off Hin).
Qed.

Lemma processGlyphQueue_reads_inside_witness :
  Forall (fun off => 0 <= off /\ off + 8 <= 16)
         (collect tileSourceOffset (events (_processGlyphQueue Sample.header Frames.one_glyph))).
Proof.
  apply (processGlyphQueue_reads_inside Sample.header Frames.one_glyph).
  - unfold scratchpad_fits, u16_max. cbn. lia.
  - repeat constructor. cbn. lia.
  - vm_compute. reflexivity.
Defined.

(** ** The upload of the constant buffer *)

Lemma existsb_none {A} (f : A -> bool) l :
  Forall (fun a => f a = false) l -> existsb f l = false.
Proof. induction 1 as [|a l Ha _ IH]; cbn; [reflexivity|]. rewrite Ha. exact IH. Qed.

(** What decides on the upload and on what it carries. *)
Lemma adjustAtlasSize_constants w :
  outcome (_adjustAtlasSize w) = Done tt ->
  (ConstBuffer (invalidations (r_ (world (_adjustAtlasSize w))))
   = ConstBuffer (invalidations (r_ w))
   /\ realizedAntialiasingMode (r_ (world (_adjustAtlasSize w)))
      = realizedAntialiasingMode (r_ w))
  /\ existsb is_scratchpad_creation (events (_adjustAtlasSize w)) = false
  /\ collect constantsUploaded (events (_adjustAtlasSize w)) = [].
Proof.
  intros Hd. destruct (atlasHasRoom (r_ w)) eqn:Hroom.
  - rewrite (adjustAtlasSize_room w Hroom). repeat split.
  - destruct (adjustAtlasSize_Done w Hroom Hd) as (g & hr1 & hr2 & _ & _ & _ & Hr & Hev).
    rewrite Hr, Hev. unfold WI_SetFlagIf_Cursor, atlasCopy.
    destruct (hasAtlas (r_ w)); repeat split.
Qed.

Lemma reserve_constants h n w :
  outcome (_reserveScratchpadSize h n w) = Done tt ->
  (ConstBuffer (invalidations (r_ (world (_reserveScratchpadSize h n w))))
   = ConstBuffer (invalidations (r_ w))
     || existsb is_scratchpad_creation (events (_reserveScratchpadSize h n w))
   /\ realizedAntialiasingMode (r_ (world (_reserveScratchpadSize h n w)))
      = realizedAntialiasingMode (r_ w))
  /\ collect constantsUploaded (events (_reserveScratchpadSize h n w)) = [].
Proof.
  intros Hd. destruct (Z.le_gt_cases n (scratchpadCellWidth (r_ w))) as [Hle|Hgt].
  - rewrite (reserve_enough h n w Hle). cbn. rewrite orb_false_r. repeat split.
  - destruct (reserve_Done h n w Hgt Hd) as (_ & Hr & hr1 & hr2 & hr3 & Hev).
    rewrite Hr, Hev. cbn. rewrite orb_true_r. repeat split.
Qed.

Lemma processGlyphQueue_constants h w :
  outcome (_processGlyphQueue h w) = Done tt ->
  (ConstBuffer (invalidations (r_ (world (_processGlyphQueue h w))))
   = ConstBuffer (invalidations (r_ w))
   /\ realizedAntialiasingMode (r_ (world (_processGlyphQueue h w)))
      = realizedAntialiasingMode (r_ w))
  /\ existsb is_scratchpad_creation (events (_processGlyphQueue h w)) = false
  /\ collect constantsUploaded (events (_processGlyphQueue h w)) = [].
Proof.
  intros Hd.
  assert (Hk : keeps (fun r => (ConstBuffer (invalidations r), realizedAntialiasingMode r))
                     (_processGlyphQueue h)).
  { unfold _processGlyphQueue, _drawGlyph, _copyScratchpadTile, d2d_SetTextAntialiasMode,
      d2d_BeginDraw, d2d_Clear, d2d_DrawTextLayout, d2d_EndDraw.
    keeps_go. }
  pose proof (keeps_at _ _ w tt Hk Hd) as Hv. cbv beta in Hv. injection Hv as Hc Hm.
  split; [split; assumption|].
  assert (He : emits (fun e => is_scratchpad_creation e = false
                               /\ constantsUploaded e = None) (_processGlyphQueue h)).
  { unfold _processGlyphQueue, _drawGlyph, _copyScratchpadTile, d2d_SetTextAntialiasMode,
      d2d_BeginDraw, d2d_Clear, d2d_DrawTextLayout, d2d_EndDraw.
    emits_all; split; reflexivity. }
  specialize (He w). split.
  - apply existsb_none. eapply Forall_impl; [|exact He]. intros e [H _]. exact H.
  - apply collect_none. eapply Forall_impl; [|exact He]. intros e [_ H]. exact H.
Qed.

Lemma drawCursor_constants h w :
  outcome (_drawCursor h w) = Done tt ->
  (ConstBuffer (invalidations (r_ (world (_drawCursor h w))))
   = ConstBuffer (invalidations (r_ w))
     || existsb is_scratchpad_creation (events (_drawCursor h w))
   /\ realizedAntialiasingMode (r_ (world (_drawCursor h w)))
      = realizedAntialiasingMode (r_ w))
  /\ collect constantsUploaded (events (_drawCursor h w)) = [].
Proof.
  intros Hd.
  assert (Hcu : emits (fun e => constantsUploaded e = None) (_drawCursor h)).
  { unfold _drawCursor, _reserveScratchpadSize, _copyScratchpadTile,
      d2d_SetTextAntialiasMode, d2d_BeginDraw, d2d_Clear, d2d_FillRectangle,
      d2d_DrawRectangle, d2d_EndDraw, update_invalidations.
    emits_all; reflexivity. }
  split; [|apply collect_none; apply Hcu].
  unfold _drawCursor in *.
  apply bind_Done in Hd. destruct Hd as ([] & Hres & Hrest & Hw & Hev).
  rewrite Hw, Hev, existsb_app.
  destruct (reserve_constants h 1 w Hres) as ([Hc Hm] & _).
  match type of Hrest with
  | outcome (?k ?w1) = _ =>
    assert (Hk : keeps (fun r => (ConstBuffer (invalidations r), realizedAntialiasingMode r)) k)
      by (unfold _copyScratchpadTile, d2d_BeginDraw, d2d_Clear, d2d_FillRectangle,
            d2d_DrawRectangle, d2d_EndDraw; keeps_go);
    assert (He : emits (fun e => is_scratchpad_creation e = false) k)
      by (unfold _copyScratchpadTile, d2d_BeginDraw, d2d_Clear, d2d_FillRectangle,
            d2d_DrawRectangle, d2d_EndDraw; emits_all; reflexivity);
    pose proof (keeps_at _ _ w1 tt Hk Hrest) as Hv;
    pose proof (existsb_none _ _ (He w1)) as Hex
  end.
  cbv beta in Hv. injection Hv as Hc2 Hm2.
  rewrite Hex, orb_false_r.
  split; [etransitivity; [exact Hc2 | exact Hc] | etransitivity; [exact Hm2 | exact Hm]].
Qed.

Lemma cursor_stage_constants h b w :
  outcome (when b (_drawCursor h ;; update_invalidations WI_ClearFlag_Cursor) w) = Done tt ->
  (ConstBuffer (invalidations
                  (r_ (world (when b (_drawCursor h ;;
                                      update_invalidations WI_ClearFlag_Cursor) w))))
   = ConstBuffer (invalidations (r_ w))
     || existsb is_scratchpad_creation
          (events (when b (_drawCursor h ;; update_invalidations WI_ClearFlag_Cursor) w))
   /\ realizedAntialiasingMode
        (r_ (world (when b (_drawCursor h ;; update_invalidations WI_ClearFlag_Cursor) w)))
      = realizedAntialiasingMode (r_ w))
  /\ collect constantsUploaded
       (events (when b (_drawCursor h ;; update_invalidations WI_ClearFlag_Cursor) w)) = [].
Proof.
  destruct b; cbn [when].
  - intros Hd. apply bind_Done in Hd. destruct Hd as ([] & Hcur & _ & Hw & Hev).
    rewrite Hw, Hev, existsb_app, collect_app.
    destruct (drawCursor_constants h w Hcur) as ([Hc Hm] & Hcu).
    rewrite Hcu. cbn. rewrite orb_false_r. repeat split; assumption.
  - intros _. cbn. rewrite orb_false_r. repeat split.
Qed.

Lemma constants_stage b w :
  outcome (when b (_updateConstantBuffer ;;
                   update_invalidations WI_ClearFlag_ConstBuffer) w) = Done tt ->
  collect constantsUploaded
    (events (when b (_updateConstantBuffer ;;
                     update_invalidations WI_ClearFlag_ConstBuffer) w))
  = (if b
     then [aa_eqb (realizedAntialiasingMode (r_ w)) D2D1_TEXT_ANTIALIAS_MODE_CLEARTYPE]
     else [])
  /\ existsb is_scratchpad_creation
       (events (when b (_updateConstantBuffer ;;
                        update_invalidations WI_ClearFlag_ConstBuffer) w)) = false.
Proof.
  destruct w as [r g]. destruct b; cbn [when]; [|intros _; split; reflexivity].
  unfold _updateConstantBuffer. run.
  destruct (FAILED (hd S_OK g)); run; [intros Hx; discriminate Hx|].
  intros _. split; reflexivity.
Qed.

(** X18: the constant buffer is uploaded in exactly the frames in which it
    is due.  A frame that goes through uploads it once, with the ClearType
    switch of the configured mode, when it was invalidated before the frame
    or when the frame itself created a scratchpad (for the glyphs or for
    the cursor); in every other frame it is not uploaded. *)
Theorem Present_uploads_constants_when_due h w :
  outcome (Present_try h w) = Done tt ->
  collect constantsUploaded (events (Present_try h w))
  = if ConstBuffer (invalidations (r_ w))
       || existsb is_scratchpad_creation (events (Present_try h w))
    then [aa_eqb (realizedAntialiasingMode (r_ w)) D2D1_TEXT_ANTIALIAS_MODE_CLEARTYPE]
    else [].
Proof.
  intros Hd.
  destruct (Present_try_stages h w Hd)
    as (w1 & w2 & w3 & w4 & w5 & hr1 & hr2 & hr3 & hr4 & hr5
        & [H1 E1] & [H2 E2] & [H3 E3] & [H4 E4] & [H5 E5] & _ & Hev).
  rewrite Hev, !collect_app, !existsb_app.
  destruct (adjustAtlasSize_constants w H1) as ([C1 M1] & X1 & U1).
  destruct (reserve_constants h _ w1 H2) as ([C2 M2] & U2).
  destruct (processGlyphQueue_constants h w2 H3) as ([C3 M3] & X3 & U3).
  destruct (cursor_stage_constants h _ w3 H4) as ([C4 M4] & U4).
  destruct (constants_stage _ w4 H5) as (U5 & X5).
  rewrite <- E1 in C1, M1. rewrite <- E2 in C2, M2. rewrite <- E3 in C3, M3.
  rewrite <- E4 in C4, M4.
  rewrite U1, U2, U3, U4, U5, X1, X3, X5. cbn [app].
  rewrite C4, C3, C2, C1, M4, M3, M2, M1.
  cbn [frame_tail existsb is_scratchpad_creation collect constantsUploaded].
  rewrite !orb_false_r, app_nil_r. cbn [orb].
  destruct (ConstBuffer (invalidations (r_ w)));
    destruct (existsb is_scratchpad_creation
                (events (_reserveScratchpadSize h (maxEncounteredCellCount (r_ w1)) w1)));
    destruct (existsb is_scratchpad_creation
                (events (when (Cursor (invalidations (r_ w3)))
                           (_drawCursor h ;; update_invalidations WI_ClearFlag_Cursor) w3)));
    reflexivity.
Qed.

Lemma Present_uploads_constants_when_due_witness :
  collect constantsUploaded (events (Present_try Sample.header Sample.cold_world)) = [false].
Proof.
  apply (Present_uploads_constants_when_due Sample.header Sample.cold_world).
  vm_compute. reflexivity.
Defined.
